(** * dolfin-adjoint: a shallow embedding of the annotation layer

    The development follows the Python sources file by file:

    - [functional.py]    : [FinalFunctional], [TimeFunctional]
    - [caches.py]        : [AssemblyCache]
    - [function.py]      : [dolfin_adjoint_assign], [LinComRHS]
    - [matrix_free.py]   : [MatrixFree], [AdjointPETScKrylovSolver],
                           [AdjointKrylovMatrix]

    Python objects are records of the attributes the code reads, [hasattr]
    is an [option] field, a raised exception is a value of [exn], and code
    that mutates module-level state is a function in the monad [M] below.
    Calls into dolfin, UFL, PETSc and libadjoint are section variables. *)

From Stdlib Require Import PrimFloat.
From Stdlib Require OrderedTypeEx.
From stdpp Require Import base option list gmap strings fin_maps countable
  pretty sorting.

Open Scope string_scope.
Open Scope list_scope.

(** ** Exceptions and the state-and-exception monad *)

(** A Python exception: its class name and the message it was built with. *)
Record exn := Exn { exn_class : string; exn_msg : string }.

Global Instance exn_eq_dec : EqDecision exn.
Proof. solve_decision. Defined.

Definition LibadjointErrorInvalidInputs (msg : string) : exn :=
  Exn "LibadjointErrorInvalidInputs" msg.
Definition LibadjointErrorNotImplemented (msg : string) : exn :=
  Exn "LibadjointErrorNotImplemented" msg.
Definition AssertionError (msg : string) : exn := Exn "AssertionError" msg.
Definition NameError (msg : string) : exn := Exn "NameError" msg.
Definition InvalidArgumentException (msg : string) : exn :=
  Exn "InvalidArgumentException" msg.

Inductive result (A : Type) : Type :=
| Ok (a : A)
| Raise (e : exn).
Arguments Ok {A} a.
Arguments Raise {A} e.

(** A computation over a mutable state [S]: a raised exception keeps the
    mutations made before it, as in Python. *)
Definition M (S A : Type) : Type := S -> result A * S.

Definition ret {S A} (a : A) : M S A := fun s => (Ok a, s).
Definition raise {S A} (e : exn) : M S A := fun s => (Raise e, s).
Definition bind {S A B} (m : M S A) (k : A -> M S B) : M S B :=
  fun s => match m s with
           | (Ok a, s') => k a s'
           | (Raise e, s') => (Raise e, s')
           end.
Definition get {S} : M S S := fun s => (Ok s, s).
Definition gets {S A} (f : S -> A) : M S A := fun s => (Ok (f s), s).
Definition modify {S} (f : S -> S) : M S unit := fun s => (Ok tt, f s).

Global Instance M_bind {S} : MBind (M S) := fun A B k m => bind m k.
Global Instance M_ret {S} : MRet (M S) := fun A a => ret a.
Global Instance M_fmap {S} : FMap (M S) :=
  fun A B f m => bind m (fun a => ret (f a)).

Global Instance result_bind : MBind result :=
  fun A B k r => match r with Ok a => k a | Raise e => Raise e end.
Global Instance result_ret : MRet result := fun A a => Ok a.

(** A pure computation that may raise, run without touching the state. *)
Definition lift_result {S A} (r : result A) : M S A := fun s => (r, s).

(** [for x in xs: body x] *)
Fixpoint for_each {S A} (xs : list A) (body : A -> M S unit) : M S unit :=
  match xs with
  | [] => ret tt
  | x :: xs' => bind (body x) (fun _ => for_each xs' body)
  end.

(** ** UFL and dolfin objects *)

(** A dolfin function space: the object's identity, its dimension and the
    name of its element; [str(V)] shows the last two. *)
Record FunctionSpace := { fs_id : positive; fs_dim : nat; fs_element : string }.

Global Instance FunctionSpace_eq_dec : EqDecision FunctionSpace.
Proof. solve_decision. Defined.
Global Instance FunctionSpace_countable : Countable FunctionSpace.
Proof.
  refine (inj_countable' (fun V => (fs_id V, fs_dim V, fs_element V))
            (fun p => {| fs_id := p.1.1; fs_dim := p.1.2;
                         fs_element := p.2 |}) _).
  by intros [].
Defined.

Definition FunctionSpace_str (V : FunctionSpace) : string :=
  "<Function space of dimension " +:+ pretty (fs_dim V) +:+ " ("
    +:+ fs_element V +:+ ")>".

Inductive coefficient_class := ClsFunction | ClsConstant | ClsExpression.

Global Instance coefficient_class_eq_dec : EqDecision coefficient_class.
Proof. solve_decision. Defined.
Global Instance coefficient_class_countable : Countable coefficient_class.
Proof.
  refine (inj_countable'
            (fun c => match c with
                      | ClsFunction => 0 | ClsConstant => 1 | ClsExpression => 2
                      end)
            (fun n => match n with
                      | 0 => ClsFunction | 1 => ClsConstant | _ => ClsExpression
                      end) _).
  by intros [].
Defined.

(** A UFL coefficient.  [ufl_count] is its identity (UFL compares and hashes
    coefficients by it); [function_space] is the attribute that
    [hasattr(c, "function_space")] tests; [adj_name] is the name given with
    [Function(V, name=...)]; [dolfin_str] is what dolfin's own [__str__]
    prints. *)
Record Coefficient := {
  ufl_count : positive;
  coeff_class : coefficient_class;
  function_space : option FunctionSpace;
  adj_name : option string;
  dolfin_str : string
}.

Global Instance Coefficient_eq_dec : EqDecision Coefficient.
Proof. solve_decision. Defined.
Global Instance Coefficient_countable : Countable Coefficient.
Proof.
  refine (inj_countable'
            (fun c => (ufl_count c, coeff_class c, function_space c,
                       adj_name c, dolfin_str c))
            (fun t => {| ufl_count := t.1.1.1.1; coeff_class := t.1.1.1.2;
                         function_space := t.1.1.2; adj_name := t.1.2;
                         dolfin_str := t.2 |}) _).
  by intros [].
Defined.

Definition has_function_space (c : Coefficient) : bool :=
  bool_decide (is_Some (function_space c)).

(** function.py, [dolfin_adjoint_str]. *)
Definition dolfin_adjoint_str (self : Coefficient) : string :=
  match adj_name self with
  | Some n => n
  | None => dolfin_str self
  end.

(** [dict(zip(keys, values))]: [zip] stops at the shorter list and a key
    that occurs twice keeps its last value. *)
Definition dict_zip `{Countable K} {V} (ks : list K) (vs : list V) : gmap K V :=
  list_to_map (reverse (zip ks vs)).

(** ** libadjoint variables and the variable registry *)

Record Variable_ := {
  var_name : string;
  var_timestep : nat;
  var_iteration : nat
}.

Global Instance Variable_eq_dec : EqDecision Variable_.
Proof. solve_decision. Defined.
Global Instance Variable_countable : Countable Variable_.
Proof.
  refine (inj_countable'
            (fun v => (var_name v, var_timestep v, var_iteration v))
            (fun t => {| var_name := t.1.1; var_timestep := t.1.2;
                         var_iteration := t.2 |}) _).
  by intros [].
Defined.

(** Modelled from the spec: the variable registry ([adj_variables], class
    CoeffStore of coeffstore.py, which is not among the sources).  Section
    4.1: [next(name)] allocates the next version for the name and increments
    the stored iteration counter, [current(name)] returns the most recently
    allocated version without incrementing, [forget(name)] erases the
    tracking state of the name. *)
Record CoeffStore := {
  coeffs : gmap string nat;
  timestep : nat
}.

Definition CoeffStore_current (reg : CoeffStore) (name : string) : Variable_ :=
  {| var_name := name;
     var_timestep := timestep reg;
     var_iteration := default 0 (coeffs reg !! name) |}.

Definition CoeffStore_next (reg : CoeffStore) (name : string)
  : Variable_ * CoeffStore :=
  let i := match coeffs reg !! name with
           | Some i => S i
           | None => 0
           end in
  ({| var_name := name; var_timestep := timestep reg; var_iteration := i |},
   {| coeffs := <[name := i]> (coeffs reg); timestep := timestep reg |}).

Definition CoeffStore_forget (reg : CoeffStore) (name : string) : CoeffStore :=
  {| coeffs := delete name (coeffs reg); timestep := timestep reg |}.

(** [adjlinalg.Vector] / [solving.Vector]: a wrapper with a [data] field. *)
Record Vector (D : Type) := mkVector { data : D }.
Arguments mkVector {D} data.
Arguments data {D} v.

(** ** Parameters, boundary conditions, the dolfin backend *)

(** A value stored in a dolfin [Parameters] object or in a Python dict. *)
Inductive pyval :=
| PyInt (z : Z)
| PyStr (s : string)
| PyBool (b : bool).

Global Instance pyval_eq_dec : EqDecision pyval.
Proof. solve_decision. Defined.
Global Instance pyval_countable : Countable pyval.
Proof.
  refine (inj_countable'
            (fun v => match v with
                      | PyInt z => inl z
                      | PyStr s => inr (inl s)
                      | PyBool b => inr (inr b)
                      end)
            (fun s => match s with
                      | inl z => PyInt z
                      | inr (inl s) => PyStr s
                      | inr (inr b) => PyBool b
                      end) _).
  by intros [].
Defined.

(** A [Parameters] object or dict: its items; a value is a plain value or
    a nested [Parameters]. *)
#[warnings="-register-all"]
Inductive PyParam :=
| PValue (v : pyval)
| PNested (items : list (string * PyParam)).

Abbreviation Parameters := (list (string * PyParam)).

(** A boundary-condition object.  [bc_id] is the object's identity (bcs are
    hashed and compared by it), [bc_is_DirichletBC] is
    [isinstance(bc, DirichletBC)], [bc_values] are the degrees of freedom
    the condition fixes and the values it gives them. *)
Record BC := {
  bc_id : positive;
  bc_is_DirichletBC : bool;
  bc_values : list (nat * float)
}.

(** The calls into UFL and dolfin that the sources make.  [World] is the
    numerical state behind the Python objects (vectors of functions,
    assembled tensors); a call that builds or changes such an object is a
    computation over it. *)
Class Backend := {
  Form : Type;
  Form_eq_dec :: EqDecision Form;
  Form_countable :: Countable Form;
  Tensor : Type;
  World : Type;
  (** [ufl.algorithms.extract_coefficients] *)
  extract_coefficients : Form -> list Coefficient;
  (** [len(ufl.algorithms.extract_arguments(form))] *)
  count_arguments : Form -> nat;
  (** [dolfin.replace(form, mapping)] *)
  replace : Form -> gmap Coefficient Coefficient -> Form;
  (** [expand_indices(expand_compounds(expand_derivatives(form)))] *)
  ufl_expand : Form -> Form;
  (** [dolfin.assemble(form)] *)
  dolfin_assemble : Form -> M World Tensor;
  (** timestepping's [assemble(form, form_compiler_parameters = ...)] *)
  ts_assemble : Form -> Parameters -> M World Tensor;
  (** timestepping's [assemble_symmetric_bcs] *)
  assemble_symmetric_bcs : Form -> list BC -> Parameters -> M World Tensor;
  (** [Parameters.copy()] then [.update(other)] *)
  parameters_update : Parameters -> Parameters -> Parameters;
  (** [isinstance(a, dolfin.GenericMatrix)], [isinstance(L, dolfin.GenericVector)] *)
  is_GenericMatrix : Tensor -> bool;
  is_GenericVector : Tensor -> bool;
  (** [a.size(i)] *)
  tensor_size : World -> Tensor -> nat -> nat;
  (** [bc.apply(a)] and [bc.apply(a, L)] *)
  bc_apply : BC -> Tensor -> option Tensor -> M World unit;
  (** [L = a.factory().create_vector(); a.init_vector(L, 0)] *)
  create_init_vector : Tensor -> M World Tensor;
  (** [bc.zero_columns(a, L, 1.0)] *)
  bc_zero_columns : BC -> Tensor -> Tensor -> M World unit
}.

(** ** functional.py *)

Section functional.
Context {BE : Backend}.

Record FinalFunctional := {
  ff_form : Form;
  activated : bool
}.

(** [FinalFunctional.__init__] *)
Definition FinalFunctional_init (form : Form) : FinalFunctional :=
  {| ff_form := form; activated := false |}.

(** [FinalFunctional.__call__] *)
Definition FinalFunctional_call (self : FinalFunctional)
    (dependencies : list Variable_) (values : list (Vector Coefficient))
  : M World Tensor :=
  let dolfin_dependencies :=
    filter (fun dep => has_function_space dep = true)
           (extract_coefficients (ff_form self)) in
  let dolfin_values := map data values in
  dolfin_assemble
    (replace (ff_form self) (dict_zip dolfin_dependencies dolfin_values)).

(** [FinalFunctional.dependencies]: the object itself is the state, the
    registry [solving.adj_variables] is read only. *)
Definition FinalFunctional_dependencies {Adjointer : Type}
    (adj_variables : CoeffStore) (adjointer : Adjointer) (timestep : nat)
  : M FinalFunctional (list Variable_) :=
  fun self =>
    if negb (activated self) then
      let deps :=
        map (fun coeff =>
               CoeffStore_current adj_variables (dolfin_adjoint_str coeff))
            (filter (fun coeff => has_function_space coeff = true)
                    (extract_coefficients (ff_form self))) in
      (Ok deps, {| ff_form := ff_form self; activated := true |})
    else
      (Ok [], self).

(** A run of calls of [dependencies] on one object, each with its own
    registry and arguments: the results in order and the object at the
    end. *)
Fixpoint FinalFunctional_dependencies_run {Adjointer : Type}
    (calls : list (CoeffStore * Adjointer * nat)) (self : FinalFunctional)
  : list (result (list Variable_)) * FinalFunctional :=
  match calls with
  | [] => ([], self)
  | (adj_variables, adjointer, timestep) :: calls' =>
      let '(r, self') :=
        FinalFunctional_dependencies adj_variables adjointer timestep self in
      let '(rs, self'') := FinalFunctional_dependencies_run calls' self' in
      (r :: rs, self'')
  end.

Record TimeFunctional := { tf_form : Form }.

(** [TimeFunctional.__call__].  The body binds [dolfin_dependencies_form]
    and [dolfin_values]; its [return] reads [dolfin_dependencies], a name
    bound neither in the function nor in the module (whose globals are
    libadjoint, ufl, dolfin, hashlib, solving and the two classes), so
    evaluating it raises [NameError] before [zip], [replace] or [assemble]
    run. *)
Definition TimeFunctional_call (self : TimeFunctional) (timestep : nat)
    (dependencies : list Variable_) (values : list (Vector Coefficient))
  : M World Tensor :=
  let dolfin_dependencies_form :=
    filter (fun dep => has_function_space dep = true)
           (extract_coefficients (tf_form self)) in
  let dolfin_values := map data values in
  raise (NameError "global name 'dolfin_dependencies' is not defined").

(** What the claim describes: the body with the bound name. *)
Definition TimeFunctional_call_intended (self : TimeFunctional) (timestep : nat)
    (dependencies : list Variable_) (values : list (Vector Coefficient))
  : M World Tensor :=
  let dolfin_dependencies_form :=
    filter (fun dep => has_function_space dep = true)
           (extract_coefficients (tf_form self)) in
  let dolfin_values := map data values in
  dolfin_assemble
    (replace (tf_form self) (dict_zip dolfin_dependencies_form dolfin_values)).

End functional.

(** ** caches.py *)

(** What [parameters_key] builds: a tuple whose items are [(key, value)]
    pairs and, for a nested [Parameters], the nested tuple. *)
#[warnings="-register-all"]
Inductive ParamKey :=
| PKEntry (key : string) (value : pyval)
| PKNested (items : list ParamKey).

Fixpoint ParamKey_to_tree (k : ParamKey) : gen_tree (string * pyval) :=
  match k with
  | PKEntry key value => GenLeaf (key, value)
  | PKNested items => GenNode 0 (map ParamKey_to_tree items)
  end.

Fixpoint ParamKey_of_tree (t : gen_tree (string * pyval)) : ParamKey :=
  match t with
  | GenLeaf (key, value) => PKEntry key value
  | GenNode _ ts => PKNested (map ParamKey_of_tree ts)
  end.

Fixpoint ParamKey_of_to_tree (k : ParamKey) :
  ParamKey_of_tree (ParamKey_to_tree k) = k.
Proof.
  destruct k as [key value|items]; simpl.
  - reflexivity.
  - f_equal. induction items as [|k' items IH]; simpl.
    + reflexivity.
    + f_equal; [apply ParamKey_of_to_tree | apply IH].
Defined.

Global Instance ParamKey_eq_dec : EqDecision ParamKey.
Proof.
  refine (fun a b =>
    cast_if (decide (ParamKey_to_tree a = ParamKey_to_tree b)));
    abstract (first
      [ subst; congruence
      | rewrite <- (ParamKey_of_to_tree a), <- (ParamKey_of_to_tree b);
        congruence ]).
Defined.

Global Instance ParamKey_countable : Countable ParamKey :=
  inj_countable' ParamKey_to_tree ParamKey_of_tree ParamKey_of_to_tree.

(** [sorted] on items by their key, as an insertion sort on strings. *)
Fixpoint insert_sorted {A} (kv : string * A) (l : list (string * A))
  : list (string * A) :=
  match l with
  | [] => [kv]
  | kv' :: l' =>
      if String.leb kv.1 kv'.1 then kv :: l
      else kv' :: insert_sorted kv l'
  end.

Definition sorted_items {A} (l : list (string * A)) : list (string * A) :=
  foldr insert_sorted [] l.

(** One step of the loop of [parameters_key] for [key]: the nested tuple
    when [parameters[key]] is itself a [Parameters], the pair otherwise. *)
Fixpoint parameters_key_item (key : string) (value : PyParam) : ParamKey :=
  match value with
  | PNested items =>
      PKNested
        (map snd (sorted_items
           (map (fun kv => (kv.1, parameters_key_item kv.1 kv.2)) items)))
  | PValue v => PKEntry key v
  end.

(** [parameters_key]: the items in the order of the sorted keys. *)
Definition parameters_key (parameters : Parameters) : list ParamKey :=
  map snd (sorted_items
    (map (fun kv => (kv.1, parameters_key_item kv.1 kv.2)) parameters)).

Section caches.
Context {BE : Backend}.

(** [form_rank] *)
Definition form_rank (form : Form) : nat := count_arguments form.

(** [form_key] with [static = True], the only use in [AssemblyCache]. *)
Definition form_key (form : Form) : Form := ufl_expand form.

(** [bc_key]: [None] for no boundary condition, else the tuple of the
    boundary conditions (as objects, that is by identity) with the flags. *)
Definition bc_key (bcs : list BC) (symmetric_bcs zero_columns : bool)
  : result (option (list positive * bool * bool)) :=
  if forallb bc_is_DirichletBC bcs then
    if decide (length bcs = 0) then Ok None
    else Ok (Some (map bc_id bcs, symmetric_bcs, zero_columns))
  else Raise (InvalidArgumentException "bcs must be a list of DirichletBC s").

Definition CacheKey : Type :=
  Form * list ParamKey * option (list positive * bool * bool).

(** The key under which [AssemblyCache.assemble] stores a form: the key of
    the form, of the form-compiler parameters (the global ones updated
    with the argument), and of the boundary conditions. *)
Definition AssemblyCache_key (form : Form)
    (form_compiler_parameters : Parameters) (bcs : list BC)
    (symmetric_bcs zero_columns : bool) : result CacheKey :=
  bck ← bc_key bcs symmetric_bcs zero_columns ;
  Ok (form_key form, parameters_key form_compiler_parameters, bck).

(** The state [AssemblyCache.assemble] runs in: the object's [__cache], the
    global [dolfin.parameters] it reads, what it printed through
    [cache_info], and the numerical state. *)
Record CacheState := {
  cache : gmap CacheKey Tensor;
  form_compiler : Parameters;
  verbose : bool;
  printed : list string;
  world : World
}.

Definition set_cache (f : gmap CacheKey Tensor -> gmap CacheKey Tensor)
    (s : CacheState) : CacheState :=
  {| cache := f (cache s); form_compiler := form_compiler s;
     verbose := verbose s; printed := printed s; world := world s |}.

Definition set_world (w : World) (s : CacheState) : CacheState :=
  {| cache := cache s; form_compiler := form_compiler s;
     verbose := verbose s; printed := printed s; world := w |}.

(** A backend call, run on the [world] of the state. *)
Definition in_world {A} (m : M World A) : M CacheState A :=
  fun s => let '(r, w) := m (world s) in (r, set_world w s).

(** [dolfin.info]: the message goes to the log. *)
Definition dolfin_info (msg : string) : M CacheState unit :=
  modify (fun s =>
    {| cache := cache s; form_compiler := form_compiler s;
       verbose := verbose s; printed := printed s ++ [msg];
       world := world s |}).

(** [cache_info] *)
Definition cache_info (msg : string) : M CacheState unit :=
  fun s =>
    if verbose s then
      (Ok tt, {| cache := cache s; form_compiler := form_compiler s;
                 verbose := verbose s; printed := printed s ++ [msg];
                 world := world s |})
    else (Ok tt, s).

(** [apply_bcs] of fenics_utils.py. *)
Definition apply_bcs (a : Tensor) (bcs : list BC) (L : option Tensor)
    (symmetric_bcs : bool) : M World unit :=
  fun w =>
  if negb (is_GenericMatrix a) then
    raise (InvalidArgumentException "a must be a square GenericMatrix") w
  else if negb (bool_decide (tensor_size w a 0 = tensor_size w a 1)) then
    raise (InvalidArgumentException "a must be a square GenericMatrix") w
  else if negb (forallb bc_is_DirichletBC bcs) then
    raise (InvalidArgumentException "bcs must be a list of DirichletBC s") w
  else
    match L with
    | None =>
        (for_each bcs (fun bc => bc_apply bc a None) ;;
         if symmetric_bcs then
           L' ← create_init_vector a ;
           for_each bcs (fun bc => bc_zero_columns bc a L')
         else ret tt) w
    | Some L' =>
        if negb (is_GenericVector L') then
          raise (InvalidArgumentException "L must be a GenericVector") w
        else
          (for_each bcs (fun bc => bc_apply bc a L) ;;
           if symmetric_bcs then
             for_each bcs (fun bc => bc_zero_columns bc a L')
           else ret tt) w
    end.

(** [AssemblyCache.assemble].  [form], [form_compiler_parameters] and [bcs]
    have the types the first three [isinstance] tests ask for. *)
Definition AssemblyCache_assemble (form : Form)
    (form_compiler_parameters : Parameters) (bcs : list BC)
    (symmetric_bcs zero_columns : bool) : M CacheState Tensor :=
  if negb (forallb bc_is_DirichletBC bcs) then
    raise (InvalidArgumentException "bcs must be a list of DirichletBC s")
  else
    defaults ← gets form_compiler ;
    let form_compiler_parameters :=
      parameters_update defaults form_compiler_parameters in
    let rank := form_rank form in
    key ← lift_result
            (AssemblyCache_key form form_compiler_parameters bcs
               symmetric_bcs zero_columns) ;
    (if decide (length bcs = 0) then
       c ← gets cache ;
       match c !! key with
       | None =>
           cache_info ("Assembling form with rank " +:+ pretty rank) ;;
           t ← in_world (ts_assemble form form_compiler_parameters) ;
           modify (set_cache <[key := t]>)
       | Some _ =>
           cache_info ("Using cached assembled form with rank " +:+ pretty rank)
       end
     else
       if negb (bool_decide (rank = 2)) then
         raise (InvalidArgumentException
                  "form must be rank 2 when applying boundary conditions")
       else
         c ← gets cache ;
         match c !! key with
         | None =>
             cache_info "Assembling form with rank 2, with boundary conditions" ;;
             mat ← (if symmetric_bcs && negb zero_columns then
                      in_world (assemble_symmetric_bcs form bcs
                                  form_compiler_parameters)
                    else
                      mat ← in_world (ts_assemble form form_compiler_parameters) ;
                      in_world (apply_bcs mat bcs None symmetric_bcs) ;;
                      ret mat) ;
             modify (set_cache <[key := mat]>)
         | Some _ =>
             cache_info
               "Using cached assembled form with rank 2, with boundary conditions"
         end) ;;
    c ← gets cache ;
    match c !! key with
    | Some t => ret t
    | None => raise (Exn "KeyError" "")
    end.

(** The loop over the keys in [AssemblyCache.clear], for one argument:
    [for key in list(self.__cache.keys()): ...]. *)
Definition clear_keys (dep : Coefficient) (keys : list CacheKey)
  : M CacheState unit :=
  for_each keys (fun key : CacheKey =>
    let form := key.1.1 in
    if bool_decide (dep ∈ extract_coefficients form) then
      modify (set_cache (delete key))
    else ret tt).

(** Whether [isinstance(dep, (dolfin.Constant, dolfin.Function))]. *)
Definition is_Constant_or_Function (dep : Coefficient) : bool :=
  bool_decide (coeff_class dep = ClsConstant)
  || bool_decide (coeff_class dep = ClsFunction).

(** [AssemblyCache.clear]: with no argument the cache is emptied; with
    arguments, each must be a Constant or a Function, and for each in turn
    every key whose form has it among its coefficients is deleted. *)
Definition AssemblyCache_clear (args : list Coefficient) : M CacheState unit :=
  if decide (length args = 0) then
    modify (set_cache (fun _ => ∅))
  else
    for_each args (fun dep =>
      if is_Constant_or_Function dep then ret tt
      else raise (InvalidArgumentException
                    "Arguments must be Constant s or Function s")) ;;
    for_each args (fun dep =>
      keys ← gets (fun s => (map_to_list (cache s)).*1) ;
      clear_keys dep keys).

(** [AssemblyCache.info] prints the number of cached forms of each rank
    and does not touch the cache. *)
Definition AssemblyCache_info : M CacheState unit :=
  keys ← gets (fun s => (map_to_list (cache s)).*1) ;
  counts ← lift_result
    (foldl (fun (acc : result (list nat)) (key : CacheKey) =>
              counts ← acc ;
              let rank := form_rank key.1.1 in
              match counts !! rank with
              | Some n => Ok (<[rank := S n]> counts)
              | None => Raise (Exn "IndexError" "list index out of range")
              end)
           (Ok [0; 0; 0]) keys) ;
  dolfin_info "Assembly cache status:" ;;
  for_each (imap (fun i n => (i, n)) counts) (fun '(i, n) =>
    dolfin_info ("Pre-assembled rank " +:+ pretty i
                       +:+ " forms: " +:+ pretty n)).

End caches.

(** ** UFL expressions *)

(** [ufl.classes.MultiIndex]: its length (its truth value is that of the
    length), the number of its free indices and the dimensions of its
    indices. *)
Record MultiIndex := {
  mi_len : nat;
  mi_free_indices : nat;
  mi_index_dimensions : list nat
}.

(** A dolfin [Constant]: [value_size()], [value_rank()] and its value. *)
Record Constant := {
  value_size : nat;
  value_rank : nat;
  constant_value : float
}.

(** The expressions [Function.assign] is given: a [backend.Function], a
    UFL [ScalarValue] with its value, a [backend.Constant], the algebra
    nodes with their two operands, a [ComponentTensor] and an [Indexed]
    with their expression and multi-index, and any other object (with what
    [str] prints for it). *)
Inductive Expr :=
| EFunction (f : Coefficient)
| EScalarValue (x : float)
| EConstant (c : Constant)
| EProduct (a b : Expr)
| EDivision (a b : Expr)
| ESum (a b : Expr)
| EComponentTensor (e : Expr) (mi : MultiIndex)
| EIndexed (e : Expr) (mi : MultiIndex)
| EOther (str : string).

Fixpoint expr_size (e : Expr) : nat :=
  match e with
  | EProduct a b | EDivision a b | ESum a b => S (expr_size a + expr_size b)
  | EComponentTensor e _ | EIndexed e _ => S (expr_size e)
  | _ => 1
  end.

(** [weight * function] for a Python float and a Function, as UFL builds
    it: a [Product], except that the product with the number 1 is the
    Function itself. *)
Definition scalar_mul (weight : float) (f : Coefficient) : Expr :=
  if PrimFloat.eqb weight 1 then EFunction f
  else EProduct (EScalarValue weight) (EFunction f).

(** ** The tape: libadjoint objects and the helpers of solving.py *)

(** The entries of a PETSc vector. *)
Abbreviation Vec := (list float).

(** The mutable state behind the objects the annotation handles: the vector
    of each Function (by its [ufl_count]), the attributes of each tracked
    Expression, and the [current_form] of each [AdjointKrylovMatrix] (by
    object identity). *)
Record Heap {BE : Backend} := {
  vectors : gmap positive Vec;
  expression_attrs : gmap (positive * string) pyval;
  current_forms : gmap positive Form
}.

Section heap.
Context {BE : Backend}.

Definition set_vectors (f : gmap positive Vec -> gmap positive Vec) (h : Heap)
  : Heap :=
  {| vectors := f (vectors h); expression_attrs := expression_attrs h;
     current_forms := current_forms h |}.

Definition set_expression_attrs
    (f : gmap (positive * string) pyval -> gmap (positive * string) pyval)
    (h : Heap) : Heap :=
  {| vectors := vectors h; expression_attrs := f (expression_attrs h);
     current_forms := current_forms h |}.

Definition set_current_forms (f : gmap positive Form -> gmap positive Form)
    (h : Heap) : Heap :=
  {| vectors := vectors h; expression_attrs := expression_attrs h;
     current_forms := f (current_forms h) |}.

(** The vector of a Function, empty if it has none yet. *)
Definition function_vector (h : Heap) (f : Coefficient) : Vec :=
  default [] (vectors h !! ufl_count f).

(** Modelled from the spec: [expressions.freeze_dict] and
    [expressions.update_expressions] of expressions.py, which is not among
    the sources.  Section 4.5, step 1: the current values are frozen into a
    snapshot, and later mutation must not change what the equation
    recorded; section 9: the snapshot is explicit and immutable.
    [freeze_dict] copies the attribute values of the tracked Expressions,
    [update_expressions] writes the values of a snapshot back. *)
Definition freeze_dict (h : Heap) : gmap (positive * string) pyval :=
  expression_attrs h.

Definition update_expressions (frozen : gmap (positive * string) pyval)
    (h : Heap) : Heap :=
  set_expression_attrs (fun attrs => frozen ∪ attrs) h.

(** [h2] is [h1] after the tracked attributes of a snapshot were given
    other values: nothing else differs. *)
Definition differ_only_in_frozen (frozen : gmap (positive * string) pyval)
    (h1 h2 : Heap) : Prop :=
  vectors h1 = vectors h2
  /\ current_forms h1 = current_forms h2
  /\ forall k, frozen !! k = None ->
              expression_attrs h1 !! k = expression_attrs h2 !! k.

(** A matrix-free operator: an object of a user class derived from
    [PETScKrylovMatrix].  [mult] and [transpmult] give the vector written to
    their second argument; methods the class may lack are options. *)
Record KrylovMatrix := {
  km_id : positive;
  mult : Heap -> Vec -> Vec;
  transpmult : option (Heap -> Vec -> Vec);
  dependencies : option (Heap -> list Coefficient);
  set_dependencies :
    option (list Variable_ -> list Coefficient -> Heap -> Heap);
  km_derivative_action :
    option (Coefficient -> Coefficient -> bool -> Coefficient -> Z ->
            Heap -> Form)
}.

(** A PETSc vector as [AdjointPETScKrylovSolver.solve] receives it:
    [vec_id] names its storage in the heap; [function], [form] and [bcs]
    are the attributes that the wrappers [down_cast] and [assemble] of
    dolfin-adjoint attach. *)
Record PETScVector := {
  vec_id : positive;
  function : option Coefficient;
  form : option Form;
  bcs : option (list BC)
}.

(** [MatrixFree], a [solving.Matrix] with a function space. *)
Record MatrixFree := {
  mf_data : KrylovMatrix;
  mf_fn_space : FunctionSpace;
  mf_bcs : list BC;
  mf_solver_parameters : list string
}.

(** The assembly and derivative-action callbacks of a block. *)
Definition assembly_callback : Type :=
  list Variable_ -> list (Vector Coefficient) -> bool -> Z ->
  M Heap (MatrixFree * Vector (option Coefficient * FunctionSpace)).

Definition derivative_callback : Type :=
  list Variable_ -> list (Vector Coefficient) -> Variable_ ->
  Vector Coefficient -> bool -> Vector Coefficient -> Z ->
  M Heap (Vector Form).

(** [libadjoint.Block]. *)
Record Block := {
  block_name : string;
  block_dependencies : list Variable_;
  block_test_hermitian : bool;
  block_test_derivative : bool;
  block_assemble : option assembly_callback;
  block_derivative_action : option derivative_callback
}.

(** [LinComRHS]: the attributes that [__init__] sets. *)
Record LinComRHS := {
  functions : list Expr;
  weights : list float;
  fn_space : FunctionSpace;
  deps : list Variable_
}.

(** The right-hand sides the two files register: [solving.RHS(form)], a
    [LinComRHS], and the stored value of an initial condition. *)
Inductive RHS :=
| RHS_Form (form : Form)
| RHS_LinCom (rhs : LinComRHS)
| RHS_Initial (coeff : Expr) (value : Vec).

(** [libadjoint.Equation(var, blocks, targets, rhs)]. *)
Record Equation := {
  eq_var : Variable_;
  eq_blocks : list Block;
  eq_targets : list Variable_;
  eq_rhs : RHS
}.

(** [libadjoint.MemoryStorage(vec)]: the value, copied when recorded. *)
Record MemoryStorage := { stored : Vec }.

Inductive storage_policy := STORE_ALL | STORE_CONTROLS_ONLY.
Inductive checkpoint_handle := ADJ_CHECKPOINT_NONE | ADJ_CHECKPOINT_STORAGE_MEMORY.

(** Modelled from the spec: the tape ([libadjoint.Adjointer]).  Section 3:
    an ordered sequence of equations plus a variable-to-storage map;
    section 4.3: it may no longer be registered to once frozen; section
    4.4: a storage policy fixed when the tape is built, and values retained
    one by one through [do_checkpoint]. *)
Record Adjointer := {
  adj_equations : list Equation;
  adj_storage : gmap Variable_ MemoryStorage;
  adj_frozen : bool;
  adj_policy : storage_policy;
  adj_retained : list Variable_
}.

Definition variable_known (adj : Adjointer) (v : Variable_) : bool :=
  bool_decide (v ∈ map eq_var (adj_equations adj)).

(** The invariant of the storage policy that records everything: every
    variable an equation of the tape targets has a recorded value. *)
Definition tape_materialized (adj : Adjointer) : Prop :=
  forall v, variable_known adj v = true -> is_Some (adj_storage adj !! v).

(** [backend.parameters["adjoint"]] / [solving.debugging]. *)
Record AdjointParameters := {
  record_all : bool;
  symmetric_bcs : bool;
  stop_annotating : bool;
  test_hermitian : bool;
  test_derivative : bool
}.

(** The module-level state of dolfin-adjoint.  [fsp_lu] holds under
    [str(V)] the LU solver made for the mass matrix of a space, given here
    by that space. *)
Record AdjState := {
  adj_variables : CoeffStore;
  adjointer : Adjointer;
  heap : Heap;
  parameters_adjoint : AdjointParameters;
  fsp_lu : gmap string FunctionSpace;
  stdout : list string
}.

Definition set_adj_variables (f : CoeffStore -> CoeffStore) (s : AdjState)
  : AdjState :=
  {| adj_variables := f (adj_variables s); adjointer := adjointer s;
     heap := heap s; parameters_adjoint := parameters_adjoint s;
     fsp_lu := fsp_lu s; stdout := stdout s |}.

Definition set_adjointer (f : Adjointer -> Adjointer) (s : AdjState)
  : AdjState :=
  {| adj_variables := adj_variables s; adjointer := f (adjointer s);
     heap := heap s; parameters_adjoint := parameters_adjoint s;
     fsp_lu := fsp_lu s; stdout := stdout s |}.

Definition set_heap (f : Heap -> Heap) (s : AdjState) : AdjState :=
  {| adj_variables := adj_variables s; adjointer := adjointer s;
     heap := f (heap s); parameters_adjoint := parameters_adjoint s;
     fsp_lu := fsp_lu s; stdout := stdout s |}.

(** [print] *)
Definition print (msg : string) : M AdjState unit :=
  modify (fun s =>
    {| adj_variables := adj_variables s; adjointer := adjointer s;
       heap := heap s; parameters_adjoint := parameters_adjoint s;
       fsp_lu := fsp_lu s; stdout := stdout s ++ [msg] |}).

Definition set_fsp_lu
    (f : gmap string FunctionSpace -> gmap string FunctionSpace)
    (s : AdjState)
  : AdjState :=
  {| adj_variables := adj_variables s; adjointer := adjointer s;
     heap := heap s; parameters_adjoint := parameters_adjoint s;
     fsp_lu := f (fsp_lu s); stdout := stdout s |}.

(** A computation on the heap, run on the heap of the state. *)
Definition in_heap {A} (m : M Heap A) : M AdjState A :=
  fun s => let '(r, h) := m (heap s) in (r, set_heap (fun _ => h) s).

(** [adj_variables[coeff]], [adj_variables.next(coeff)] and
    [adj_variables.forget(coeff)], for the coefficient that prints as
    [name]. *)
Definition adj_variables_get (name : string) : M AdjState Variable_ :=
  gets (fun s => CoeffStore_current (adj_variables s) name).

Definition adj_variables_next (name : string) : M AdjState Variable_ :=
  fun s =>
    let '(v, reg) := CoeffStore_next (adj_variables s) name in
    (Ok v, set_adj_variables (fun _ => reg) s).

Definition adj_variables_forget (name : string) : M AdjState unit :=
  modify (set_adj_variables (fun reg => CoeffStore_forget reg name)).

(** [adjointer.variable_known(var)] *)
Definition adjointer_variable_known (v : Variable_) : M AdjState bool :=
  gets (fun s => variable_known (adjointer s) v).

(** Modelled from the spec: [adjointer.register_equation] of libadjoint.
    Section 4.3: it appends, validates that the target is not already
    known, fails with TapeStateError once the tape is frozen, and returns
    the checkpoint handle the policy gives. *)
Definition register_equation (eqn : Equation) : M AdjState checkpoint_handle :=
  fun s =>
    let adj := adjointer s in
    if adj_frozen adj then
      (Raise (Exn "TapeStateError" "the tape is frozen"), s)
    else if variable_known adj (eq_var eqn) then
      (Raise (Exn "TapeStateError" "the target is already known"), s)
    else
      (Ok match adj_policy adj with
          | STORE_ALL => ADJ_CHECKPOINT_STORAGE_MEMORY
          | STORE_CONTROLS_ONLY => ADJ_CHECKPOINT_NONE
          end,
       set_adjointer (fun adj =>
         {| adj_equations := adj_equations adj ++ [eqn];
            adj_storage := adj_storage adj; adj_frozen := adj_frozen adj;
            adj_policy := adj_policy adj;
            adj_retained := adj_retained adj |}) s).

(** [adjointer.record_variable(var, storage)]: the storage map's [put]. *)
Definition record_variable (v : Variable_) (st : MemoryStorage)
  : M AdjState unit :=
  modify (set_adjointer (fun adj =>
    {| adj_equations := adj_equations adj;
       adj_storage := <[v := st]> (adj_storage adj);
       adj_frozen := adj_frozen adj; adj_policy := adj_policy adj;
       adj_retained := adj_retained adj |})).

(** Modelled from the spec: [do_checkpoint] of solving.py, not among the
    sources.  Section 4.4: with the handle it may force-retain an
    individual value regardless of the global policy. *)
Definition do_checkpoint (cs : checkpoint_handle) (v : Variable_)
  : M AdjState unit :=
  match cs with
  | ADJ_CHECKPOINT_STORAGE_MEMORY =>
      modify (set_adjointer (fun adj =>
        {| adj_equations := adj_equations adj;
           adj_storage := adj_storage adj;
           adj_frozen := adj_frozen adj; adj_policy := adj_policy adj;
           adj_retained := v :: adj_retained adj |}))
  | ADJ_CHECKPOINT_NONE => ret tt
  end.

End heap.

(** ** function.py *)

(** The calls function.py and matrix_free.py make into dolfin, PETSc and
    the modules of dolfin-adjoint that are not modelled here. *)
Class AdjointBackend {BE : Backend} := {
  (** [backend.__name__] and [backend.__version__] *)
  backend_name : string;
  backend_version : string;
  (** [utils.to_annotate(annotate)], reading the adjoint parameters *)
  utils_to_annotate : option bool -> AdjointParameters -> bool;
  (** [str] of an object that is not a Function *)
  ufl_str : Expr -> string;
  (** dolfin's own [Function.assign], without annotation *)
  dolfin_assign : Coefficient -> Expr -> Heap -> Heap;
  (** [utils.get_identity_block(fn_space)] *)
  get_identity_block : FunctionSpace -> Block;
  (** [assignment.register_assign(new, old)] *)
  register_assign : Coefficient -> Coefficient -> M AdjState unit;
  (** the solve of the LU solver made for the mass matrix of a space, and
      the form [inner(riesz, v)*dx] for its solution *)
  mass_lu_solve : FunctionSpace -> Vec -> Vec;
  inner_test_dx : Coefficient -> Form;
  (** [str(var)] for a libadjoint variable *)
  Variable_str : Variable_ -> string;
  (** [hashlib.md5(s).hexdigest()] and [str(hash(A))] *)
  md5_hexdigest : string -> string;
  str_hash : positive -> string;
  (** [dolfin.assemble] of a linear form, to a vector *)
  assemble_vector : Heap -> Form -> Vec;
  (** [PETScKrylovSolver.solve(self, A, x, b)] for a matrix-free
      [A]: the iteration sees the operator through its [mult] and
      [transpmult] only; it gives the solution and the iteration count *)
  PETScKrylovSolver_solve :
    list string -> (Vec -> Vec) -> option (Vec -> Vec) -> Vec -> Vec ->
    Vec * nat;
  (** the identity of the new object that [copy.copy(obj)] or
      [dolfin.homogenize(bc)] returns for the object of a given identity *)
  new_object_id : positive -> positive;
  (** [dolfin.assemble(dolfin.action(form, u))] for the Function [u] with
      the given vector, and the UFL operations [adjoint], [derivative],
      replacing the second argument of a form by a Function, [action] on a
      Function, and the product with a number *)
  assemble_action : Heap -> Form -> Vec -> Vec;
  (** [dolfin.assemble(dolfin.action(form, x))] for a vector [x] handed to
      [action] as it is, not as the vector of a Function *)
  assemble_action_of_vector : Heap -> Form -> Vec -> Vec;
  ufl_adjoint : Form -> Form;
  ufl_derivative : Form -> Coefficient -> Form;
  replace_second_argument : Form -> Coefficient -> Form;
  ufl_action : Form -> Coefficient -> Form;
  ufl_scale : Z -> Form -> Form;
  (** [solving.RHS(form).coefficients()] *)
  rhs_coefficients : Form -> list Coefficient
}.

Section function.
Context {BE : Backend} {ABE : AdjointBackend}.

(** [str(obj)], with [backend.Function.__str__] patched to
    [dolfin_adjoint_str]. *)
Definition py_str (e : Expr) : string :=
  match e with
  | EFunction f => dolfin_adjoint_str f
  | _ => ufl_str e
  end.

(** [backend.Function(V)]: a new Function, with a count no vector of the
    heap has, and a zero vector. *)
Definition backend_Function (V : FunctionSpace) : M Heap Coefficient :=
  fun h =>
    let n := fresh (dom (vectors h)) in
    (Ok {| ufl_count := n; coeff_class := ClsFunction;
           function_space := Some V; adj_name := None;
           dolfin_str := "f_" +:+ pretty (Npos n) |},
     set_vectors <[n := replicate (fs_dim V) 0%float]> h).

(** [backend.Function.copy(self, deepcopy=True)]: a new Function on the
    same space with a copy of the vector. *)
Definition backend_Function_copy (self : Coefficient) : M Heap Coefficient :=
  fun h =>
    let n := fresh (dom (vectors h)) in
    (Ok {| ufl_count := n; coeff_class := ClsFunction;
           function_space := function_space self; adj_name := None;
           dolfin_str := "f_" +:+ pretty (Npos n) |},
     set_vectors <[n := function_vector h self]> h).

(** [Function.copy(self, deepcopy=True)], with no [name] and no
    [annotate] keyword. *)
Definition Function_copy (self : Coefficient) : M AdjState Coefficient :=
  params ← gets parameters_adjoint ;
  let to_annotate := utils_to_annotate None params in
  copy ← in_heap (backend_Function_copy self) ;
  (if to_annotate then register_assign copy self else ret tt) ;;
  ret copy.

(** [_assign_error] *)
Definition _assign_error {A} : result A := Raise (AssertionError "").

(** [float(scalar)] for a [ScalarValue] or a [Constant]; dolfin refuses to
    convert a Constant with a shape. *)
Definition py_float (scalar : Expr) : result float :=
  match scalar with
  | EScalarValue x => Ok x
  | EConstant c =>
      if decide (value_rank c = 0) then Ok (constant_value c)
      else Raise (Exn "TypeError" "Cannot convert nonscalar constant to float.")
  | _ => Raise (Exn "TypeError" "float() argument must be a string or a number")
  end.

(** The lambda [same_multi_index] of [_check_mul_and_division]. *)
Definition same_multi_index (x y : MultiIndex) : bool :=
  bool_decide (mi_free_indices x = mi_free_indices y)
  && bool_decide (mi_index_dimensions x = mi_index_dimensions y).

(** The truth value of the argument [multi_index]. *)
Definition multi_index_true (multi_index : option MultiIndex) : bool :=
  match multi_index with
  | Some mi => negb (bool_decide (mi_len mi = 0))
  | None => false
  end.

(** [_check_and_extract_functions] and [_check_mul_and_division], which
    call each other; [fuel] bounds the depth of the calls. *)
Fixpoint _check_and_extract_functions_fuel (fuel : nat) (e : Expr)
    (linear_comb : list (Coefficient * float)) (scalar_weight : float)
    (multi_index : option MultiIndex) {struct fuel}
  : result (list (Coefficient * float)) :=
  match fuel with
  | 0 => Raise (Exn "RuntimeError" "maximum recursion depth exceeded")
  | S fuel =>
      match e with
      | EFunction f => Ok (linear_comb ++ [(f, scalar_weight)])
      | EProduct _ _ | EDivision _ _ =>
          _check_mul_and_division_fuel fuel e linear_comb scalar_weight
            multi_index
      | EComponentTensor e' multi_index' =>
          _check_mul_and_division_fuel fuel e' linear_comb scalar_weight
            (Some multi_index')
      | ESum op0 op1 =>
          linear_comb ← _check_and_extract_functions_fuel fuel op0
                          linear_comb scalar_weight multi_index ;
          _check_and_extract_functions_fuel fuel op1 linear_comb
            scalar_weight multi_index
      | _ => _assign_error
      end
  end
with _check_mul_and_division_fuel (fuel : nat) (e : Expr)
    (linear_comb : list (Coefficient * float)) (scalar_weight : float)
    (multi_index : option MultiIndex) {struct fuel}
  : result (list (Coefficient * float)) :=
  match fuel with
  | 0 => Raise (Exn "RuntimeError" "maximum recursion depth exceeded")
  | S fuel =>
      (* Split passed expression into scalar and expr *)
      '(scalar_weight, expr) ←
        match e with
        | EProduct op0 op1 =>
            let is_scalar op :=
              match op with
              | EScalarValue _ => true
              | EConstant c => bool_decide (value_size c = 1)
              | _ => false
              end in
            if is_scalar op0 then
              x ← py_float op0 ; Ok ((scalar_weight * x)%float, op1)
            else if is_scalar op1 then
              x ← py_float op1 ; Ok ((scalar_weight * x)%float, op0)
            else _assign_error
        | EDivision expr scalar =>
            let ok :=
              match scalar with
              | EScalarValue _ => true
              | EConstant c => bool_decide (value_rank c = 1)
              | _ => false
              end in
            if ok then
              x ← py_float scalar ; Ok ((scalar_weight / x)%float, expr)
            else _assign_error
        | _ => _assign_error
        end ;
      (* if multi_index: unpack Indexed, binding multi_index2 *)
      '(expr, multi_index2) ←
        (if multi_index_true multi_index then
           match expr, multi_index with
           | EIndexed expr' multi_index2, Some mi =>
               if same_multi_index mi multi_index2
               then Ok (expr', Some multi_index2)
               else _assign_error
           | _, _ => Raise (AssertionError "")
           end
         else Ok (expr, None)) ;
      match expr with
      | EFunction f => Ok (linear_comb ++ [(f, scalar_weight)])
      | EComponentTensor _ _ | EProduct _ _ | EDivision _ _ | ESum _ _ =>
          '(expr, multi_index) ←
            match expr with
            | EComponentTensor expr' multi_index' =>
                match multi_index2 with
                | None =>
                    Raise (Exn "UnboundLocalError"
                      "local variable 'multi_index2' referenced before assignment")
                | Some multi_index2 =>
                    if same_multi_index multi_index' multi_index2
                    then Ok (expr', Some multi_index')
                    else Raise (NameError "global name '_error' is not defined")
                end
            | _ => Ok (expr, multi_index)
            end ;
          match expr with
          | EProduct _ _ | EDivision _ _ =>
              _check_mul_and_division_fuel fuel expr linear_comb
                scalar_weight multi_index
          | ESum _ _ =>
              _check_and_extract_functions_fuel fuel expr linear_comb
                scalar_weight multi_index
          | _ => _assign_error
          end
      | _ => _assign_error
      end
  end.

(** A call from outside: the calls nest at most twice as deep as the
    expression. *)
Definition _check_and_extract_functions (e : Expr)
    (multi_index : option MultiIndex) : result (list (Coefficient * float)) :=
  _check_and_extract_functions_fuel (2 * expr_size e) e [] 1%float multi_index.

(** The first loop of [_check_and_contract_linear_comb]: a Function that
    is already present has the weight added to its own. *)
Fixpoint contract_loop (linear_comb : list (Coefficient * float))
    (funcs : list Coefficient) (weights : list float)
    (funcspace : option FunctionSpace)
  : result (list Coefficient * list float) :=
  match linear_comb with
  | [] => Ok (funcs, weights)
  | (func, weight) :: linear_comb' =>
      funcspace ←
        match funcspace with
        | Some V => Ok V
        | None =>
            match function_space func with
            | Some V => Ok V
            | None => Raise (Exn "AttributeError" "function_space")
            end
        end ;
      if negb (bool_decide (function_space func = Some funcspace)) then
        _assign_error
      else
        match list_find (fun g => g = func) funcs with
        | Some (ind, _) =>
            contract_loop linear_comb' funcs
              (alter (fun w => (w + weight)%float) ind weights)
              (Some funcspace)
        | None =>
            contract_loop linear_comb' (funcs ++ [func])
              (weights ++ [weight]) (Some funcspace)
        end
  end.

(** [_check_and_contract_linear_comb] *)
Definition _check_and_contract_linear_comb (expr : Expr) (self : Coefficient)
    (multi_index : option MultiIndex) : M AdjState (list (Coefficient * float)) :=
  linear_comb ← lift_result (_check_and_extract_functions expr multi_index) ;
  '(funcs, weights) ← lift_result (contract_loop linear_comb [] [] None) ;
  (* Check that rhs does not include self *)
  funcs ← match list_find (fun func => func = self) funcs with
          | Some (ind, _) =>
              copy ← Function_copy self ;
              ret (<[ind := copy]> funcs)
          | None => ret funcs
          end ;
  ret (zip funcs weights).

(** [LinComRHS.__init__] *)
Definition LinComRHS_init (functions : list Expr) (weights : list float)
    (fn_space : FunctionSpace) : M AdjState LinComRHS :=
  reg ← gets adj_variables ;
  ret {| functions := functions; weights := weights; fn_space := fn_space;
         deps := map (fun function => CoeffStore_current reg (py_str function))
                     functions |}.

(** [LinComRHS.coefficients] and [LinComRHS.dependencies] *)
Definition LinComRHS_coefficients (self : LinComRHS) : list Expr :=
  functions self.

Definition LinComRHS_dependencies (self : LinComRHS) : list Variable_ :=
  deps self.

(** Modelled from the spec: [register_initial_conditions] of solving.py,
    not among the sources.  Section 3: an unknown variable may appear only
    as a free dependency (a pure initial condition), and the return points
    of register_initial_condition retain their values.  For each pair
    whose variable is not known, an equation for it is registered, with the
    identity block of the function's space and its current value as
    right-hand side, and the value is kept. *)
Definition register_initial_condition (coeff : Expr) (dep : Variable_)
  : M AdjState unit :=
  h ← gets heap ;
  match coeff with
  | EFunction f =>
      match function_space f with
      | Some V =>
          let value := function_vector h f in
          cs ← register_equation
                 {| eq_var := dep; eq_blocks := [get_identity_block V];
                    eq_targets := [dep]; eq_rhs := RHS_Initial coeff value |} ;
          record_variable dep {| stored := value |} ;;
          do_checkpoint cs dep
      | None => raise (Exn "AttributeError" "function_space")
      end
  | _ => raise (Exn "AttributeError" "function_space")
  end.

Definition register_initial_conditions (coeffdeps : list (Expr * Variable_))
    (linear : bool) : M AdjState unit :=
  for_each coeffdeps (fun cd =>
    (known ← adjointer_variable_known cd.2 ;
     if known : bool then ret tt else register_initial_condition cd.1 cd.2)
    : M AdjState unit).

(** [annotate is not True] *)
Definition is_not_True (annotate : option bool) : bool :=
  negb (bool_decide (annotate = Some true)).

(** The end of [dolfin_adjoint_assign], from the comment that starts
    with OK on: the assignment itself and its registration on the tape. *)
Definition dolfin_adjoint_assign_register (self : Coefficient) (other : Expr)
    (annotate : option bool) (functions : list Expr) (weights : list float)
    (self_var : Variable_) : M AdjState unit :=
  adj ← gets adjointer ;
  params ← gets parameters_adjoint ;
  (* OK, so we have a variable we have seen before. *)
  (if negb (variable_known adj self_var)
   then adj_variables_forget (dolfin_adjoint_str self)
   else ret tt) ;;
  in_heap (modify (dolfin_assign self other)) ;;
  fn_space ←
    match function_space self with
    | Some V => ret V
    | None => raise (Exn "AttributeError" "function_space")
    end ;
  let identity_block := get_identity_block fn_space in
  dep ← adj_variables_next (dolfin_adjoint_str self) ;
  (if record_all params then
     h ← gets heap ;
     record_variable dep {| stored := function_vector h self |}
   else ret tt) ;;
  rhs ← LinComRHS_init functions weights fn_space ;
  register_initial_conditions
    (zip (LinComRHS_coefficients rhs) (LinComRHS_dependencies rhs)) true ;;
  let initial_eq :=
    {| eq_var := dep; eq_blocks := [identity_block];
       eq_targets := [dep]; eq_rhs := RHS_LinCom rhs |} in
  cs ← register_equation initial_eq ;
  do_checkpoint cs dep.

(** [dolfin_adjoint_assign], the patched [Function.assign]. *)
Definition dolfin_adjoint_assign (self : Coefficient) (other : Expr)
    (annotate : option bool) : M AdjState unit :=
  let same_object :=
    match other with
    | EFunction f => bool_decide (ufl_count f = ufl_count self)
    | _ => false
    end in
  if same_object then ret tt
  else
    params ← gets parameters_adjoint ;
    let to_annotate := utils_to_annotate annotate params in
    (* if we shouldn't annotate, just assign *)
    if negb to_annotate then in_heap (modify (dolfin_assign self other))
    else
      lincom ←
        match other with
        | ESum _ _ | EProduct _ _ =>
            if negb (bool_decide (backend_name = "dolfin")) then
              raise (LibadjointErrorNotImplemented
                "Cannot use Function.assign(linear combination of other Functions) yet.")
            else
              lincom ← _check_and_contract_linear_comb other self None ;
              ret (map (fun fw => (EFunction fw.1, fw.2)) lincom)
        | _ => ret [(other, 1%float)]
        end ;
      let other_is_Function :=
        match other with EFunction _ => true | _ => false end in
      (* ignore anything not a backend.Function, unless the user insists *)
      if negb other_is_Function && is_not_True annotate then
        in_heap (modify (dolfin_assign self other))
      else
        (* ignore anything that is an interpolation *)
        let interpolation :=
          match function_space self, other with
          | Some V, EFunction f =>
              match function_space f with
              | Some V' =>
                  negb (bool_decide
                          (FunctionSpace_str V = FunctionSpace_str V'))
              | None => false
              end
          | _, _ => false
          end in
        if interpolation then in_heap (modify (dolfin_assign self other))
        else
          let functions := map fst lincom in
          let weights := map snd lincom in
          self_var ← adj_variables_get (dolfin_adjoint_str self) ;
          print ("Annotating assign for " +:+ Variable_str self_var) ;;
          function_vars ← gets (fun s =>
            map (fun function =>
                   CoeffStore_current (adj_variables s) (py_str function))
                functions) ;
          (* ignore any functions we haven't seen before *)
          adj ← gets adjointer ;
          if existsb (fun function_var =>
                negb (variable_known adj function_var)
                && negb (variable_known adj self_var)
                && is_not_True annotate) function_vars
          then
            for_each functions (fun function =>
              adj_variables_forget (py_str function)) ;;
            adj_variables_forget (dolfin_adjoint_str self) ;;
            in_heap (modify (dolfin_assign self other))
          else
            dolfin_adjoint_assign_register self other annotate functions
              weights self_var.

(** The expression [2*a + 3*b] in the orders UFL may hold its operands:
    either term first, and in each product the number on either side. *)
Definition two_a_plus_three_b (a b : Coefficient) : list Expr :=
  let two_a := [EProduct (EScalarValue 2) (EFunction a);
                EProduct (EFunction a) (EScalarValue 2)] in
  let three_b := [EProduct (EScalarValue 3) (EFunction b);
                  EProduct (EFunction b) (EScalarValue 3)] in
  (ta ← two_a ; tb ← three_b ; [ESum ta tb; ESum tb ta]).

(** [sum(agh[1:], agh[0])] *)
Definition py_sum (agh : list Expr) : result Expr :=
  match agh with
  | [] => Raise (Exn "IndexError" "list index out of range")
  | first :: rest => Ok (foldl ESum first rest)
  end.

(** [LinComRHS.__call__]; [out.assign] is the patched method. *)
Definition LinComRHS_call (self : LinComRHS) (dependencies : list Variable_)
    (values : list (Vector Coefficient)) : M AdjState (Vector Coefficient) :=
  let agh :=
    map (fun wv => scalar_mul wv.1 (data wv.2)) (zip (weights self) values) in
  expr ← lift_result (py_sum agh) ;
  out ← in_heap (backend_Function (fn_space self)) ;
  dolfin_adjoint_assign out expr None ;;
  ret (mkVector out).

(** [LinComRHS.derivative_action]; the result wraps a Function (first
    component) or, with symmetric boundary conditions, a form. *)
Definition LinComRHS_derivative_action (self : LinComRHS)
    (dependencies : list Variable_) (values : list (Vector Coefficient))
    (variable : Variable_) (contraction_vector : Vector Coefficient)
    (hermitian : bool) : M AdjState (Vector (Coefficient + Form)) :=
  idx ← match list_find (fun d => d = variable) dependencies with
        | Some (idx, _) => ret idx
        | None => raise (Exn "ValueError" "variable is not in list")
        end ;
  params ← gets parameters_adjoint ;
  (if symmetric_bcs params && String.leb backend_version "1.2.0" then
     print "Warning: symmetric BC application requested but unavailable in dolfin <= 1.2.0."
   else ret tt) ;;
  out ←
    (if symmetric_bcs params && String.ltb "1.2.0" backend_version then
       V ← match function_space (data contraction_vector) with
           | Some V => ret V
           | None => raise (Exn "AttributeError" "function_space")
           end ;
       lu ← gets fsp_lu ;
       lusolver ← match lu !! FunctionSpace_str V with
                  | None =>
                      modify (set_fsp_lu <[FunctionSpace_str V := V]>) ;;
                      ret V
                  | Some lusolver => ret lusolver
                  end ;
       riesz ← in_heap (backend_Function V) ;
       weight ← match weights self !! idx with
                | Some w => ret w
                | None => raise (Exn "IndexError" "tuple index out of range")
                end ;
       h ← gets heap ;
       let rhs := map (fun x => (weight * x)%float)
                      (function_vector h (data contraction_vector)) in
       in_heap (modify (set_vectors
                  <[ufl_count riesz := mass_lu_solve lusolver rhs]>)) ;;
       ret (inr (inner_test_dx riesz))
     else
       out ← in_heap (backend_Function (fn_space self)) ;
       weight ← match weights self !! idx with
                | Some w => ret w
                | None => raise (Exn "IndexError" "tuple index out of range")
                end ;
       dolfin_adjoint_assign out
         (scalar_mul weight (data contraction_vector)) None ;;
       ret (inl out)) ;
  ret (mkVector out).

(** [LinComRHS.second_derivative_action]: always [None]. *)
Definition LinComRHS_second_derivative_action (self : LinComRHS)
    (dependencies : list Variable_) (values : list (Vector Coefficient))
    (inner_variable : Variable_) (inner_contraction_vector : Vector Coefficient)
    (outer_variable : Variable_) (hermitian : bool) (action : Vector Coefficient)
  : option (Vector Coefficient) := None.

End function.

(** ** matrix_free.py *)

Section matrix_free.
Context {BE : Backend} {ABE : AdjointBackend}.

(** [bc.apply(rhs)] on a vector: the fixed entries take their values. *)
Definition bc_apply_vector (bc : BC) (rhs : Vec) : Vec :=
  foldl (fun v iv => <[iv.1 := iv.2]> v) rhs (bc_values bc).

(** [dolfin.homogenize(bc)]: a new condition on the same entries, with
    value zero. *)
Definition homogenize (bc : BC) : BC :=
  {| bc_id := new_object_id (bc_id bc);
     bc_is_DirichletBC := bc_is_DirichletBC bc;
     bc_values := map (fun iv => (iv.1, 0%float)) (bc_values bc) |}.

(** [MatrixFree.solve] *)
Definition MatrixFree_solve (self : MatrixFree) (var : Variable_)
    (b : Vector Form) : M Heap (Vector Coefficient) :=
  x ← backend_Function (mf_fn_space self) ;
  h ← get ;
  let rhs := assemble_vector h (data b) in
  let rhs := foldl (fun rhs bc => bc_apply_vector bc rhs) rhs (mf_bcs self) in
  let '(solution, _) :=
    PETScKrylovSolver_solve (mf_solver_parameters self)
      (mult (mf_data self) h)
      ((fun transpmult => transpmult h) <$> transpmult (mf_data self))
      (function_vector h x) rhs in
  modify (set_vectors <[ufl_count x := solution]>) ;;
  ret (mkVector x).

(** The entries of the Function that [MatrixFree.solve] returns. *)
Definition MatrixFree_solve_values (self : MatrixFree) (var : Variable_)
    (b : Vector Form) (h : Heap) : result Vec :=
  match MatrixFree_solve self var b h with
  | (Ok x, h') => Ok (function_vector h' (data x))
  | (Raise e, _) => Raise e
  end.

(** [MatrixFree.axpy] *)
Definition MatrixFree_axpy (self : MatrixFree) (alpha : float)
    (x : MatrixFree) : M Heap unit :=
  raise (LibadjointErrorNotImplemented
           "Can't add to a matrix-free matrix .. ").

(** [AdjointPETScKrylovSolver]: the arguments of its constructor. *)
Record AdjointPETScKrylovSolver := { solver_parameters : list string }.

(** [x.function.function_space()] *)
Definition x_function_space (x : PETScVector) : result FunctionSpace :=
  match function x with
  | Some f =>
      match function_space f with
      | Some V => Ok V
      | None => Raise (Exn "AttributeError" "function_space")
      end
  | None => Raise (Exn "AttributeError" "function")
  end.

(** [copy.copy(A)] followed by
    [(A_transpose.transpmult, A_transpose.mult) = (A.mult, A.transpmult)]. *)
Definition transpose_copy (A : KrylovMatrix) : result KrylovMatrix :=
  match transpmult A with
  | Some A_transpmult =>
      Ok {| km_id := new_object_id (km_id A);
            mult := A_transpmult;
            transpmult := Some (mult A);
            dependencies := dependencies A;
            set_dependencies := set_dependencies A;
            km_derivative_action := km_derivative_action A |}
  | None => Raise (Exn "AttributeError" "transpmult")
  end.

(** The closure [diag_assembly_cb] of [AdjointPETScKrylovSolver.solve],
    with the variables it captures: [self], [A], [x], [b] and
    [frozen_expressions_dict]. *)
Definition diag_assembly_cb (self : AdjointPETScKrylovSolver)
    (A : KrylovMatrix) (x b : PETScVector)
    (frozen_expressions_dict : gmap (positive * string) pyval)
    (dependencies : list Variable_) (values : list (Vector Coefficient))
    (hermitian : bool) (coefficient : Z)
  : M Heap (MatrixFree * Vector (option Coefficient * FunctionSpace)) :=
    if negb (bool_decide (coefficient = 1%Z)) then raise (AssertionError "")
    else
      modify (update_expressions frozen_expressions_dict) ;;
      (if decide (0 < length dependencies) then
         match set_dependencies A with
         | Some A_set_dependencies =>
             modify (A_set_dependencies dependencies (map data values))
         | None => raise (Exn "AttributeError" "set_dependencies")
         end
       else ret tt) ;;
      if hermitian then
        A_transpose ← lift_result (transpose_copy A) ;
        b_bcs ← match bcs b with
                | Some l => ret l
                | None => raise (Exn "AttributeError" "bcs")
                end ;
        let adjoint_bcs :=
          map homogenize
              (filter (fun bc => bc_is_DirichletBC bc = true) b_bcs) in
        V ← lift_result (x_function_space x) ;
        ret ({| mf_data := A_transpose; mf_fn_space := V;
                mf_bcs := adjoint_bcs;
                mf_solver_parameters := solver_parameters self |},
             mkVector (@None Coefficient, V))
      else
        V ← lift_result (x_function_space x) ;
        b_bcs ← match bcs b with
                | Some l => ret l
                | None => raise (Exn "AttributeError" "bcs")
                end ;
        ret ({| mf_data := A; mf_fn_space := V; mf_bcs := b_bcs;
                mf_solver_parameters := solver_parameters self |},
             mkVector (@None Coefficient, V)).

(** The closure [derivative_action] of [AdjointPETScKrylovSolver.solve]. *)
Definition diag_derivative_action (A : KrylovMatrix)
    (frozen_expressions_dict : gmap (positive * string) pyval)
    (dependencies : list Variable_) (values : list (Vector Coefficient))
    (variable : Variable_) (contraction_vector : Vector Coefficient)
    (hermitian : bool) (input : Vector Coefficient) (coefficient : Z)
  : M Heap (Vector Form) :=
    modify (update_expressions frozen_expressions_dict) ;;
    match set_dependencies A with
    | Some A_set_dependencies =>
        modify (A_set_dependencies dependencies (map data values))
    | None => raise (Exn "AttributeError" "set_dependencies")
    end ;;
    idx ← match list_find (fun d => d = variable) dependencies with
          | Some (idx, _) => ret idx
          | None => raise (Exn "ValueError" "variable is not in list")
          end ;
    value ← match values !! idx with
            | Some v => ret v
            | None => raise (Exn "IndexError" "list index out of range")
            end ;
    match km_derivative_action A with
    | Some A_derivative_action =>
        h ← get ;
        ret (mkVector (A_derivative_action (data value)
                         (data contraction_vector) hermitian (data input)
                         coefficient h))
    | None => raise (Exn "AttributeError" "derivative_action")
    end.

Definition transpmult_missing : string :=
  "Your PETScKrylovMatrix class has to implement a .transpmult method as well, as I need the transpose action. Note that if "
  +:+ "your forward problem has Dirichlet boundary conditions, the .transpmult MUST impose /homogenous/ Dirichlet boundary conditions "
  +:+ "on the resulting vector.".

(** [dolfin.PETScKrylovSolver.solve(self, A, x, b)], the forward solve: it
    overwrites the vector behind [x] and returns the iteration count. *)
Definition PETScKrylovSolver_forward (self : AdjointPETScKrylovSolver)
    (A : KrylovMatrix) (x b : PETScVector) : M Heap nat :=
  h ← get ;
  let '(solution, iterations) :=
    PETScKrylovSolver_solve (solver_parameters self) (mult A h)
      ((fun transpmult => transpmult h) <$> transpmult A)
      (default [] (vectors h !! vec_id x))
      (default [] (vectors h !! vec_id b)) in
  modify (set_vectors <[vec_id x := solution]>) ;;
  ret iterations.

(** [diag_block] once both callbacks are attached: the
    [libadjoint.Block(diag_name, dependencies=..., ...)] with
    [diag_block.assemble = diag_assembly_cb] and, if there are
    dependencies, [diag_block.derivative_action = derivative_action]. *)
Definition make_diag_block (self : AdjointPETScKrylovSolver)
    (A : KrylovMatrix) (x b : PETScVector) (diag_name : string)
    (dependencies : list Variable_) (params : AdjointParameters)
    (frozen_expressions_dict : gmap (positive * string) pyval) : Block :=
  {| block_name := diag_name;
     block_dependencies := dependencies;
     block_test_hermitian := test_hermitian params;
     block_test_derivative := test_derivative params;
     block_assemble :=
       Some (diag_assembly_cb self A x b frozen_expressions_dict);
     block_derivative_action :=
       if decide (0 < length dependencies)
       then Some (diag_derivative_action A frozen_expressions_dict)
       else None |}.

(** The annotation part of [AdjointPETScKrylovSolver.solve]: the body of
    its first [if annotate:]; it returns [var]. *)
Definition AdjointPETScKrylovSolver_annotate
    (self : AdjointPETScKrylovSolver) (A : KrylovMatrix) (x b : PETScVector)
  : M AdjState Variable_ :=
  if negb (bool_decide (is_Some (transpmult A))) then
    raise (LibadjointErrorInvalidInputs transpmult_missing)
  else
  x_function ←
    match function x with
    | Some f => ret f
    | None =>
        raise (LibadjointErrorInvalidInputs
          "Your x has to come from code like down_cast(my_function.vector()).")
    end ;
  b_form ←
    match form b with
    | Some f => ret f
    | None =>
        raise (LibadjointErrorInvalidInputs
          "Your b has to have the .form attribute: was it assembled with from dolfin_adjoint import *?")
    end ;
  '(coeffs, dependencies) ←
    match dependencies A with
    | None =>
        print "A has no .dependencies method; assuming no nonlinear dependencies of the matrix-free operator." ;;
        ret ([], [])
    | Some A_dependencies =>
        s ← get ;
        let coeffs :=
          filter (fun coeff => has_function_space coeff = true)
                 (A_dependencies (heap s)) in
        ret (coeffs,
             map (fun coeff =>
                    CoeffStore_current (adj_variables s)
                      (dolfin_adjoint_str coeff)) coeffs)
    end ;
  (if decide (0 < length dependencies) then
     if bool_decide (is_Some (set_dependencies A)) then ret tt
     else raise (AssertionError
       "Need a set_dependencies method to replace your values, if you have nonlinear dependencies ... ")
   else ret tt) ;;
  let rhs := RHS_Form b_form in
  let diag_name := md5_hexdigest (str_hash (km_id A)) in
  params ← gets parameters_adjoint ;
  rhs_dependencies ← gets (fun s =>
    map (fun coeff =>
           CoeffStore_current (adj_variables s) (dolfin_adjoint_str coeff))
        (rhs_coefficients b_form)) ;
  register_initial_conditions
    (zip (map EFunction (rhs_coefficients b_form)) rhs_dependencies
     ++ zip (map EFunction coeffs) dependencies) false ;;
  var ← adj_variables_next (dolfin_adjoint_str x_function) ;
  frozen_expressions_dict ← gets (fun s => freeze_dict (heap s)) ;
  let diag_block :=
    make_diag_block self A x b diag_name dependencies params
      frozen_expressions_dict in
  let eqn := {| eq_var := var; eq_blocks := [diag_block];
                eq_targets := [var]; eq_rhs := rhs |} in
  cs ← register_equation eqn ;
  do_checkpoint cs var ;;
  ret var.

(** [AdjointPETScKrylovSolver.solve] *)
Definition AdjointPETScKrylovSolver_solve (self : AdjointPETScKrylovSolver)
    (A : KrylovMatrix) (x b : PETScVector) (annotate : bool)
  : M AdjState nat :=
  var ← (if annotate
         then Some <$> AdjointPETScKrylovSolver_annotate self A x b
         else ret None) ;
  out ← in_heap (PETScKrylovSolver_forward self A x b) ;
  (if annotate then
     params ← gets parameters_adjoint ;
     if record_all params then
       match var, function x with
       | Some var, Some x_function =>
           h ← gets heap ;
           record_variable var {| stored := function_vector h x_function |}
       | _, _ => raise (Exn "AttributeError" "function")
       end
     else ret tt
   else ret tt) ;;
  ret out.

(** [AdjointKrylovMatrix]: the operator of the bilinear form [a] with the
    boundary conditions [bcs]; [id] is the identity of the object, under
    which the heap keeps its [current_form]. *)
Definition AdjointKrylovMatrix_current_form (id : positive) (a : Form)
    (h : Heap) : Form :=
  default a (current_forms h !! id).

(** [AdjointKrylovMatrix.mult] *)
Definition AdjointKrylovMatrix_mult (id : positive) (a : Form)
    (bcs : list BC) (h : Heap) (x : Vec) : Vec :=
  let y := assemble_action h (AdjointKrylovMatrix_current_form id a h) x in
  foldl (fun y bc => bc_apply_vector bc y) y bcs.

(** [AdjointKrylovMatrix.transpmult]: unlike [mult], it hands the vector
    [args[0]] itself to [dolfin.action], without a Function around it. *)
Definition AdjointKrylovMatrix_transpmult (id : positive) (a : Form)
    (bcs : list BC) (h : Heap) (x : Vec) : Vec :=
  let y :=
    assemble_action_of_vector h
      (ufl_adjoint (AdjointKrylovMatrix_current_form id a h)) x in
  foldl (fun y bc => bc_apply_vector bc y) y bcs.

(** [AdjointKrylovMatrix.dependencies] *)
Definition AdjointKrylovMatrix_dependencies (a : Form) (h : Heap)
  : list Coefficient :=
  extract_coefficients a.

(** [AdjointKrylovMatrix.set_dependencies] *)
Definition AdjointKrylovMatrix_set_dependencies (id : positive) (a : Form)
    (dependencies : list Variable_) (values : list Coefficient) (h : Heap)
  : Heap :=
  let replace_dict := dict_zip (extract_coefficients a) values in
  set_current_forms <[id := replace a replace_dict]> h.

(** [AdjointKrylovMatrix.derivative_action] *)
Definition AdjointKrylovMatrix_derivative_action (id : positive) (a : Form)
    (variable contraction_vector : Coefficient) (hermitian : bool)
    (input : Coefficient) (coefficient : Z) (h : Heap) : Form :=
  let deriv :=
    ufl_derivative (AdjointKrylovMatrix_current_form id a h) variable in
  let deriv := replace_second_argument deriv contraction_vector in
  let deriv := if hermitian then ufl_adjoint deriv else deriv in
  ufl_scale coefficient (ufl_action deriv input).

(** [AdjointKrylovMatrix(a, bcs)] as an operator object. *)
Definition AdjointKrylovMatrix (id : positive) (a : Form)
    (bcs : option (list BC)) : KrylovMatrix :=
  let bcs := default [] bcs in
  {| km_id := id;
     mult := AdjointKrylovMatrix_mult id a bcs;
     transpmult := Some (AdjointKrylovMatrix_transpmult id a bcs);
     dependencies := Some (AdjointKrylovMatrix_dependencies a);
     set_dependencies := Some (AdjointKrylovMatrix_set_dependencies id a);
     km_derivative_action :=
       Some (AdjointKrylovMatrix_derivative_action id a) |}.

End matrix_free.

(** * More of the sources

    The functions of the same files, and of fenics_utils.py and
    timeforms.py, that the statements further down are about. *)

Section function_extra.
Context {BE : Backend} {ABE : AdjointBackend}.

(** [_check_and_extract_functions(e, linear_comb, scalar_weight,
    multi_index)] with all its arguments, as the recursive calls use it. *)
Definition _check_and_extract_functions_from (e : Expr)
    (linear_comb : list (Coefficient * float)) (scalar_weight : float)
    (multi_index : option MultiIndex) : result (list (Coefficient * float)) :=
  _check_and_extract_functions_fuel (2 * expr_size e) e linear_comb
    scalar_weight multi_index.

(** The three steps of [_check_mul_and_division]: splitting the expression
    into the scalar and the rest, unpacking an [Indexed] when a multi-index
    was passed, and the dispatch on the class of what is left, with the two
    functions the dispatch calls. *)
Definition split_scalar (e : Expr) (scalar_weight : float)
  : result (float * Expr) :=
  match e with
  | EProduct op0 op1 =>
      let is_scalar op :=
        match op with
        | EScalarValue _ => true
        | EConstant c => bool_decide (value_size c = 1)
        | _ => false
        end in
      if is_scalar op0 then
        x ← py_float op0 ; Ok ((scalar_weight * x)%float, op1)
      else if is_scalar op1 then
        x ← py_float op1 ; Ok ((scalar_weight * x)%float, op0)
      else _assign_error
  | EDivision expr scalar =>
      let ok :=
        match scalar with
        | EScalarValue _ => true
        | EConstant c => bool_decide (value_rank c = 1)
        | _ => false
        end in
      if ok then
        x ← py_float scalar ; Ok ((scalar_weight / x)%float, expr)
      else _assign_error
  | _ => _assign_error
  end.

Definition unpack_indexed (expr : Expr) (multi_index : option MultiIndex)
  : result (Expr * option MultiIndex) :=
  if multi_index_true multi_index then
    match expr, multi_index with
    | EIndexed expr' multi_index2, Some mi =>
        if same_multi_index mi multi_index2
        then Ok (expr', Some multi_index2)
        else _assign_error
    | _, _ => Raise (AssertionError "")
    end
  else Ok (expr, None).

Definition dispatch_operand
    (check_mul_and_division check_and_extract_functions :
       Expr -> list (Coefficient * float) -> float -> option MultiIndex ->
       result (list (Coefficient * float)))
    (expr : Expr) (linear_comb : list (Coefficient * float))
    (scalar_weight : float) (multi_index multi_index2 : option MultiIndex)
  : result (list (Coefficient * float)) :=
  match expr with
  | EFunction f => Ok (linear_comb ++ [(f, scalar_weight)])
  | EComponentTensor _ _ | EProduct _ _ | EDivision _ _ | ESum _ _ =>
      '(expr, multi_index) ←
        match expr with
        | EComponentTensor expr' multi_index' =>
            match multi_index2 with
            | None =>
                Raise (Exn "UnboundLocalError"
                  "local variable 'multi_index2' referenced before assignment")
            | Some multi_index2 =>
                if same_multi_index multi_index' multi_index2
                then Ok (expr', Some multi_index')
                else Raise (NameError "global name '_error' is not defined")
            end
        | _ => Ok (expr, multi_index)
        end ;
      match expr with
      | EProduct _ _ | EDivision _ _ =>
          check_mul_and_division expr linear_comb scalar_weight multi_index
      | ESum _ _ =>
          check_and_extract_functions expr linear_comb scalar_weight
            multi_index
      | _ => _assign_error
      end
  | _ => _assign_error
  end.

(** The operands the dispatch at the end of [_check_mul_and_division]
    accepts without a multi-index: a Function or a Product, Division or
    Sum. *)
Definition is_Function_or_algebra (e : Expr) : bool :=
  match e with
  | EFunction _ | EProduct _ _ | EDivision _ _ | ESum _ _ => true
  | _ => false
  end.

(** What the loop over the operands of a Product takes for the scalar: a
    [ScalarValue] or a [Constant] with [value_size() == 1]. *)
Definition is_scalar_operand (op : Expr) : bool :=
  match op with
  | EScalarValue _ => true
  | EConstant c => bool_decide (value_size c = 1)
  | _ => false
  end.

(** The recursion limit, which the model's fuel stands for. *)
Definition recursion_limit : exn :=
  Exn "RuntimeError" "maximum recursion depth exceeded".

End function_extra.

(** The two calls [Function.interpolate] makes out of the module. *)
Class InterpolateBackend {BE : Backend} := {
  (** dolfin's own [Function.interpolate], without annotation *)
  dolfin_interpolate : Coefficient -> Expr -> Heap -> Heap;
  (** [assignment.register_assign(new, old, op=backend.interpolate)] *)
  register_assign_interpolate : Coefficient -> Expr -> M AdjState unit
}.

Section interpolate.
Context {BE : Backend} {ABE : AdjointBackend} {IBE : InterpolateBackend}.

(** [dolfin_adjoint_interpolate] *)
Definition dolfin_adjoint_interpolate (self : Coefficient) (other : Expr)
    (annotate : option bool) : M AdjState unit :=
  in_heap (modify (dolfin_interpolate self other)) ;;
  if bool_decide (annotate = Some true) then
    register_assign_interpolate self other ;;
    self_var ← adj_variables_get (dolfin_adjoint_str self) ;
    h ← gets heap ;
    record_variable self_var {| stored := function_vector h self |}
  else ret tt.

(** [Function.interpolate] *)
Definition Function_interpolate (self : Coefficient) (other : Expr)
    (annotate : option bool) : M AdjState unit :=
  params ← gets parameters_adjoint ;
  if bool_decide (annotate = Some true) && stop_annotating params then
    raise (AssertionError
             "The user insisted on annotation, but stop_annotating is True.")
  else dolfin_adjoint_interpolate self other annotate.

End interpolate.

(** The call the two [derivative] methods of functional.py make into
    dolfin. *)
Class FunctionalBackend {BE : Backend} := {
  (** [dolfin.derivative(form, u, dolfin.TestFunction(V))] *)
  derivative_test : Form -> Coefficient -> FunctionSpace -> Form
}.

Section functional_derivative.
Context {BE : Backend} {FBE : FunctionalBackend}.

(** [FinalFunctional.derivative] *)
Definition FinalFunctional_derivative (self : FinalFunctional)
    (variable : Variable_) (dependencies : list Variable_)
    (values : list (Vector Coefficient)) : result (Vector Form) :=
  (* Find the dolfin Function corresponding to variable. *)
  idx ← match list_find (fun d => d = variable) dependencies with
        | Some (idx, _) => Ok idx
        | None => Raise (Exn "ValueError" "variable is not in list")
        end ;
  value ← match values !! idx with
          | Some v => Ok v
          | None => Raise (Exn "IndexError" "list index out of range")
          end ;
  let dolfin_variable := data value in
  let dolfin_dependencies :=
    filter (fun dep => has_function_space dep = true)
           (extract_coefficients (ff_form self)) in
  let dolfin_values := map data values in
  let current_form :=
    replace (ff_form self) (dict_zip dolfin_dependencies dolfin_values) in
  V ← match function_space dolfin_variable with
      | Some V => Ok V
      | None => Raise (Exn "AttributeError" "function_space")
      end ;
  Ok (mkVector (derivative_test current_form dolfin_variable V)).

(** [TimeFunctional.derivative] *)
Definition TimeFunctional_derivative (self : TimeFunctional)
    (variable : Variable_) (dependencies : list Variable_)
    (values : list (Vector Coefficient)) : result (Vector Form) :=
  (* Find the dolfin Function corresponding to variable. *)
  idx ← match list_find (fun d => d = variable) dependencies with
        | Some (idx, _) => Ok idx
        | None => Raise (Exn "ValueError" "variable is not in list")
        end ;
  value ← match values !! idx with
          | Some v => Ok v
          | None => Raise (Exn "IndexError" "list index out of range")
          end ;
  let dolfin_variable := data value in
  let dolfin_dependencies_form :=
    filter (fun dep => has_function_space dep = true)
           (extract_coefficients (tf_form self)) in
  let dolfin_values := map data values in
  V ← match function_space dolfin_variable with
      | Some V => Ok V
      | None => Raise (Exn "AttributeError" "function_space")
      end ;
  let current_form :=
    replace (tf_form self)
      (dict_zip dolfin_dependencies_form dolfin_values) in
  Ok (mkVector (derivative_test current_form dolfin_variable V)).

End functional_derivative.

(** The order [sorted] puts the items of a dict in. *)
Definition key_le {A} (kv kv' : string * A) : Prop :=
  String.leb kv.1 kv'.1 = true.

(** ** caches.py: [SolverCache.clear] and [clear_caches]; fenics_utils.py:
    [extract_test_and_trial] *)

(** A UFL [Argument] (a test or a trial function): its [number()] and its
    [element()]. *)
Record Argument := { arg_number : Z; arg_element : string }.

Global Instance Argument_eq_dec : EqDecision Argument.
Proof. solve_decision. Defined.
Global Instance Argument_countable : Countable Argument.
Proof.
  refine (inj_countable' (fun a => (arg_number a, arg_element a))
            (fun p => {| arg_number := p.1; arg_element := p.2 |}) _).
  by intros [].
Defined.

(** [ufl.algorithms.extract_arguments(form)] *)
Class ArgumentsBackend {BE : Backend} := {
  extract_arguments : Form -> list Argument
}.

(** What [form_key] returns: the expanded form, or with [static = False]
    the pair of the test and the trial function. *)
Inductive FormKey {BE : Backend} :=
| FKForm (form : Form)
| FKArguments (test trial : Argument).

Global Instance FormKey_eq_dec {BE : Backend} : EqDecision FormKey.
Proof. solve_decision. Defined.
Global Instance FormKey_countable {BE : Backend} : Countable FormKey.
Proof.
  refine (inj_countable'
            (fun k => match k with
                      | FKForm f => inl f
                      | FKArguments test trial => inr (test, trial)
                      end)
            (fun s => match s with
                      | inl f => FKForm f
                      | inr (test, trial) => FKArguments test trial
                      end) _).
  by intros [].
Defined.

(** The keys of a [SolverCache]: the key of the form, of the linear solver
    parameters, of the pre-assembly parameters if there are any, of the
    boundary conditions, and the id of the matrix if one was supplied. *)
Definition SolverKey {BE : Backend} : Type :=
  FormKey * list ParamKey * option (list ParamKey)
  * option (list positive * bool * bool) * option positive.

(** The module's two default caches, [assembly_cache] and
    [linear_solver_cache], with the state [assembly_cache] runs in. *)
Record Caches {BE : Backend} (LinearSolver : Type) := {
  assembly_cache : CacheState;
  linear_solver_cache : gmap SolverKey LinearSolver
}.
Arguments assembly_cache {BE LinearSolver} c.
Arguments linear_solver_cache {BE LinearSolver} c.

Section solver_cache.
Context {BE : Backend} {ARGS : ArgumentsBackend}.

(** [extract_test_and_trial] *)
Definition extract_test_and_trial (form : Form)
  : result (Argument * Argument) :=
  match extract_arguments form with
  | [test; trial] =>
      let '(test, trial) :=
        if bool_decide (arg_number test > arg_number trial)%Z
        then (trial, test) else (test, trial) in
      if bool_decide (arg_number test = arg_number trial - 1)%Z
      then Ok (test, trial)
      else Raise (AssertionError "")
  | _ => Raise (InvalidArgumentException "form must be a bi-linear Form")
  end.

(** [form_key(form, static)] *)
Definition form_key_for (form : Form) (static : bool) : result FormKey :=
  if static then Ok (FKForm (ufl_expand form))
  else '(test, trial) ← extract_test_and_trial form ;
       Ok (FKArguments test trial).

Definition solver_key_form (key : SolverKey) : FormKey := key.1.1.1.1.

(** [SolverCache.clear].  With arguments, the loop over the keys tests
    [dep], which is the variable of the loop that checked the arguments
    and so holds the last of them. *)
Definition SolverCache_clear {LinearSolver : Type} (args : list Coefficient)
  : M (gmap SolverKey LinearSolver) unit :=
  if decide (length args = 0) then
    keys ← gets (fun c : gmap SolverKey LinearSolver => (map_to_list c).*1) ;
    for_each keys (fun key => modify (delete key))
  else
    for_each args (fun dep =>
      if is_Constant_or_Function dep then ret tt
      else raise (InvalidArgumentException
                    "Arguments must be Constant s or Function s")) ;;
    match last args with
    | Some dep =>
        keys ← gets (fun c : gmap SolverKey LinearSolver =>
                       (map_to_list c).*1) ;
        for_each keys (fun key =>
          let form := solver_key_form key in
          match form with
          | FKForm form =>
              if bool_decide (dep ∈ extract_coefficients form)
              then modify (delete key) else ret tt
          | FKArguments _ _ => ret tt
          end)
    | None => raise (NameError "name 'dep' is not defined")
    end.

(** [clear_caches] *)
Definition clear_caches {LinearSolver : Type} (args : list Coefficient)
  : M (Caches LinearSolver) unit :=
  fun c =>
    match AssemblyCache_clear args (assembly_cache c) with
    | (Ok _, a) =>
        let '(r, l) := SolverCache_clear args (linear_solver_cache c) in
        (r, {| assembly_cache := a; linear_solver_cache := l |})
    | (Raise e, a) =>
        (Raise e, {| assembly_cache := a;
                     linear_solver_cache := linear_solver_cache c |})
    end.

(** Whether [SolverCache.clear(..., dep)] deletes the entry of a key: its
    form key is a Form, and [dep] is among the coefficients of the
    form. *)
Definition solver_key_depends (dep : Coefficient) (key : SolverKey) : bool :=
  match solver_key_form key with
  | FKForm form => bool_decide (dep ∈ extract_coefficients form)
  | FKArguments _ _ => false
  end.

End solver_cache.

(** ** fenics_utils.py: parameter dictionaries *)

(** A Python dict with string keys as the list of its items: [d.get(key)],
    [d[key] = value] (the value of an existing key is replaced, a new key
    is added at the end) and [del d[key]]. *)
Fixpoint dict_lookup {A} (key : string) (d : list (string * A)) : option A :=
  match d with
  | [] => None
  | (k, v) :: d' => if decide (k = key) then Some v else dict_lookup key d'
  end.

Fixpoint dict_set {A} (key : string) (value : A) (d : list (string * A))
  : list (string * A) :=
  match d with
  | [] => [(key, value)]
  | (k, v) :: d' =>
      if decide (k = key) then (key, value) :: d'
      else (k, v) :: dict_set key value d'
  end.

Fixpoint dict_del {A} (key : string) (d : list (string * A))
  : result (list (string * A)) :=
  match d with
  | [] => Raise (Exn "KeyError" key)
  | (k, v) :: d' =>
      if decide (k = key) then Ok d'
      else d'' ← dict_del key d' ; Ok ((k, v) :: d'')
  end.

(** The second loop of [apply_default_parameters], [for key in default],
    which adds the defaults of the keys that are not set.  A [default]
    that is not a dict is iterated as Python iterates it: a string by its
    characters, each of which must be a key already set, for else
    [default[key]] indexes a string with a string. *)
Definition apply_defaults_loop (default : PyParam) (lparameters : Parameters)
  : result Parameters :=
  match default with
  | PNested d =>
      Ok (foldl (fun lparameters kv =>
                   if bool_decide (kv.1 ∈ lparameters.*1) then lparameters
                   else dict_set kv.1 kv.2 lparameters)
                lparameters d)
  | PValue (PyStr s) =>
      if forallb (fun c => bool_decide (String c EmptyString ∈ lparameters.*1))
                 (String.list_ascii_of_string s)
      then Ok lparameters
      else Raise (Exn "TypeError" "string indices must be integers")
  | PValue _ => Raise (Exn "TypeError" "object is not iterable")
  end.

(** [default.get(key, {})] *)
Definition default_get (default : PyParam) (key : string) : result PyParam :=
  match default with
  | PNested d => Ok (from_option id (PNested []) (dict_lookup key d))
  | PValue _ => Raise (Exn "AttributeError" "object has no attribute 'get'")
  end.

(** [apply_default_parameters], for the dict [PNested parameters]. *)
Fixpoint apply_default_parameters_nested (parameters default : PyParam)
    {struct parameters} : result Parameters :=
  match parameters with
  | PValue _ => Raise (Exn "TypeError" "object is not iterable")
  | PNested parameters =>
      lparameters ←
        (fix first_loop (items lparameters : Parameters) {struct items}
           : result Parameters :=
           match items with
           | [] => Ok lparameters
           | (key, value) :: items' =>
               lparameters ←
                 match value with
                 | PValue _ => Ok (dict_set key value lparameters)
                 | PNested _ =>
                     sub_default ← default_get default key ;
                     sub ← apply_default_parameters_nested value sub_default ;
                     Ok (dict_set key (PNested sub) lparameters)
                 end ;
               first_loop items' lparameters
           end) parameters [] ;
      apply_defaults_loop default lparameters
  end.

Definition apply_default_parameters (parameters : Parameters)
    (default : PyParam) : result Parameters :=
  apply_default_parameters_nested (PNested parameters) default.

(** The first loop of [apply_default_parameters], [for key in
    parameters]. *)
Fixpoint apply_default_first_loop (default : PyParam)
    (items lparameters : Parameters) : result Parameters :=
  match items with
  | [] => Ok lparameters
  | (key, value) :: items' =>
      lparameters ←
        match value with
        | PValue _ => Ok (dict_set key value lparameters)
        | PNested _ =>
            sub_default ← default_get default key ;
            sub ← apply_default_parameters_nested value sub_default ;
            Ok (dict_set key (PNested sub) lparameters)
        end ;
      apply_default_first_loop default items' lparameters
  end.

(** What the first loop makes of one item. *)
Definition applied_item (default : PyParam) (key : string) (value : PyParam)
  : result PyParam :=
  match value with
  | PValue _ => Ok value
  | PNested sub =>
      sub_default ← default_get default key ;
      sub' ← apply_default_parameters sub sub_default ;
      Ok (PNested sub')
  end.

(** What [expand_linear_solver_parameters] reads from dolfin. *)
Class SolverParametersBackend := {
  (** [dolfin.parameters["lu_solver"].to_dict()] and the same for
      ["krylov_solver"] *)
  lu_solver_defaults : Parameters;
  krylov_solver_defaults : Parameters;
  (** [dolfin.has_lu_solver_method(name)] *)
  has_lu_solver_method : PyParam -> bool
}.

Section solver_parameters.
Context {SPB : SolverParametersBackend}.

Definition global_linear_solver_defaults : Parameters :=
  [("linear_solver", PValue (PyStr "default"));
   ("preconditioner", PValue (PyStr "default"));
   ("lu_solver", PNested lu_solver_defaults);
   ("krylov_solver", PNested krylov_solver_defaults)].

(** [linear_solver_parameters["linear_solver"] in ["default", "lu"] or
    dolfin.has_lu_solver_method(...)] *)
Definition is_lu_linear_solver (linear_solver : PyParam) : bool :=
  match linear_solver with
  | PValue (PyStr name) =>
      bool_decide (name = "default") || bool_decide (name = "lu")
      || has_lu_solver_method linear_solver
  | _ => has_lu_solver_method linear_solver
  end.

(** [expand_linear_solver_parameters] *)
Definition expand_linear_solver_parameters
    (linear_solver_parameters default_linear_solver_parameters : Parameters)
  : result Parameters :=
  linear_solver_parameters ←
    apply_default_parameters linear_solver_parameters
      (PNested default_linear_solver_parameters) ;
  linear_solver_parameters ←
    apply_default_parameters linear_solver_parameters
      (PNested global_linear_solver_defaults) ;
  linear_solver ←
    match dict_lookup "linear_solver" linear_solver_parameters with
    | Some v => Ok v
    | None => Raise (Exn "KeyError" "linear_solver")
    end ;
  if is_lu_linear_solver linear_solver then
    linear_solver_parameters ← dict_del "preconditioner" linear_solver_parameters ;
    dict_del "krylov_solver" linear_solver_parameters
  else
    dict_del "lu_solver" linear_solver_parameters.

End solver_parameters.

(** ** timeforms.py *)

(** A point in time as the module handles it: the constants [START_TIME]
    and [FINISH_TIME], or a float. *)
Inductive TimePoint :=
| START_TIME
| FINISH_TIME
| TimeValue (t : float).

(** The comparisons Python makes between two such points.  Between a
    float and a constant, the float's method returns [NotImplemented]
    and the reflected method of the constant answers. *)

(** [StartTimeConstant.__eq__], [FinishTimeConstant.__eq__]: whether the
    other is of the same class. *)
Definition time_eq (a b : TimePoint) : bool :=
  match a, b with
  | START_TIME, START_TIME => true
  | FINISH_TIME, FINISH_TIME => true
  | TimeValue x, TimeValue y => PrimFloat.eqb x y
  | _, _ => false
  end.

(** [__lt__] and [__gt__] of the two constants. *)
Definition TimeConstant_lt (self : TimePoint) (other : TimePoint) : bool :=
  match self with
  | START_TIME => if time_eq self other then false else true
  | _ => false
  end.

Definition TimeConstant_gt (self : TimePoint) (other : TimePoint) : bool :=
  match self with
  | FINISH_TIME => if time_eq self other then false else true
  | _ => false
  end.

(** [TimeConstant.__le__] and [TimeConstant.__ge__] *)
Definition TimeConstant_le (self other : TimePoint) : bool :=
  time_eq self other || TimeConstant_lt self other.

Definition TimeConstant_ge (self other : TimePoint) : bool :=
  time_eq self other || TimeConstant_gt self other.

(** [a <= b] *)
Definition time_le (a b : TimePoint) : bool :=
  match a, b with
  | TimeValue x, TimeValue y => PrimFloat.leb x y
  | TimeValue _, _ => TimeConstant_ge b a
  | _, _ => TimeConstant_le a b
  end.

(** A [slice] object and what may index a [TimeMeasure]: a slice or a
    point. *)
Record pyslice := {
  slice_start : option TimePoint;
  slice_stop : option TimePoint;
  slice_step : option TimePoint
}.

Inductive TimeKey :=
| KeySlice (s : pyslice)
| KeyPoint (t : TimePoint).

(** [timeslice] *)
Definition timeslice (inslice : TimeKey) : result TimeKey :=
  match inslice with
  | KeyPoint _ => Ok inslice
  | KeySlice inslice =>
      let start := match slice_start inslice with
                   | None => START_TIME
                   | Some start => start
                   end in
      let stop := match slice_stop inslice with
                  | None => FINISH_TIME
                  | Some stop => stop
                  end in
      if time_le stop start then
        Raise (LibadjointErrorInvalidInputs
                 "Zero or negative length time slice.")
      else
        Ok (KeySlice {| slice_start := Some start; slice_stop := Some stop;
                        slice_step := slice_step inslice |})
  end.

(** [TimeMeasure.__init__], returning the [interval] of the new measure,
    and [TimeMeasure.__getitem__]. *)
Definition TimeMeasure_init (interval : option TimeKey) : result TimeKey :=
  let interval :=
    match interval with
    | None => KeySlice {| slice_start := Some START_TIME;
                          slice_stop := Some FINISH_TIME;
                          slice_step := None |}
    | Some interval => interval
    end in
  timeslice interval.

Definition TimeMeasure_getitem (key : TimeKey) : result TimeKey :=
  key ← timeslice key ;
  TimeMeasure_init (Some key).

(** The products of a form with a number and its negation, in UFL. *)
Class TimeFormBackend {BE : Backend} := {
  form_mul : float -> Form -> Form;
  form_neg : Form -> Form
}.

(** [TimeTerm] *)
Record TimeTerm {BE : Backend} := {
  tt_form : Form;
  tt_time : TimeKey
}.

Section timeforms.
Context {BE : Backend} {TFB : TimeFormBackend}.

(** [TimeTerm.__mul__], [__div__] and [__neg__] *)
Definition TimeTerm_mul (self : TimeTerm) (factor : float) : TimeTerm :=
  {| tt_form := form_mul factor (tt_form self); tt_time := tt_time self |}.

(** Python's [1. / factor]: division by a zero ([0.0] or [-0.0]) raises. *)
Definition py_float_inverse (factor : float) : result float :=
  if PrimFloat.eqb factor 0
  then Raise (Exn "ZeroDivisionError" "float division by zero")
  else Ok (1 / factor)%float.

Definition TimeTerm_div (self : TimeTerm) (factor : float)
  : result TimeTerm :=
  inverse ← py_float_inverse factor ;
  Ok {| tt_form := form_mul inverse (tt_form self);
        tt_time := tt_time self |}.

Definition TimeTerm_neg (self : TimeTerm) : TimeTerm :=
  {| tt_form := form_neg (tt_form self); tt_time := tt_time self |}.

(** A [TimeForm] is the list of its terms.  What may stand on the other
    side of [+]: a [TimeForm], a UFL form, a number, or another object. *)
Definition TimeForm : Type := list TimeTerm.

Inductive Operand :=
| OTimeForm (terms : TimeForm)
| OForm (form : Form)
| ONumber (x : float)
| OOther.

(** [form * dt[FINISH_TIME]]: the measure made by
    [TimeMeasure.__getitem__], then [TimeMeasure.__rmul__]. *)
Definition Form_at_finish_time (form : Form) : result TimeForm :=
  interval ← TimeMeasure_getitem (KeyPoint FINISH_TIME) ;
  Ok [{| tt_form := form; tt_time := interval |}].

(** [TimeForm.__add__]; [None] is [NotImplemented]. *)
Definition TimeForm_add (self : TimeForm) (other : Operand)
  : result (option TimeForm) :=
  match other with
  | OTimeForm terms => Ok (Some (self ++ terms))
  | OForm form =>
      terms ← Form_at_finish_time form ; Ok (Some (self ++ terms))
  | ONumber x =>
      if PrimFloat.eqb x 0 then Ok (Some self) else Ok None
  | OOther => Ok None
  end.

(** [TimeForm.__radd__] *)
Definition TimeForm_radd (self : TimeForm) (other : Operand)
  : result (option TimeForm) :=
  TimeForm_add self other.

(** [TimeForm.__neg__], [__sub__], [__mul__] and [__div__] *)
Definition TimeForm_neg (self : TimeForm) : TimeForm :=
  map TimeTerm_neg self.

Definition TimeForm_sub (self : TimeForm) (other : Operand)
  : option TimeForm :=
  match other with
  | OTimeForm terms => Some (self ++ map TimeTerm_neg terms)
  | _ => None
  end.

Definition TimeForm_mul (self : TimeForm) (factor : float) : TimeForm :=
  map (fun term => TimeTerm_mul term factor) self.

Definition TimeForm_div (self : TimeForm) (factor : float)
  : result TimeForm :=
  mapM (fun term => TimeTerm_div term factor) self.

(** Python's [sum(timeforms)]: it starts from the int 0, to which the
    first [TimeForm] is added by its [__radd__]. *)
Definition py_add (acc : Operand) (tf : TimeForm) : result Operand :=
  match acc with
  | ONumber x =>
      r ← TimeForm_radd tf (ONumber x) ;
      match r with
      | Some terms => Ok (OTimeForm terms)
      | None => Raise (Exn "TypeError" "unsupported operand type(s) for +")
      end
  | OTimeForm self =>
      r ← TimeForm_add self (OTimeForm tf) ;
      match r with
      | Some terms => Ok (OTimeForm terms)
      | None => Raise (Exn "TypeError" "unsupported operand type(s) for +")
      end
  | _ => Raise (Exn "TypeError" "unsupported operand type(s) for +")
  end.

Definition py_sum_TimeForms (timeforms : list TimeForm) : result Operand :=
  foldl (fun (acc : result Operand) (tf : TimeForm) =>
           acc ← acc ; py_add acc tf)
        (Ok (ONumber 0)) timeforms.

(** [TimeForm.is_functional]: [Some b] when it returns [b], [None] when
    the loop ends without a [return]. *)
Definition TimeForm_is_functional (terms : TimeForm) : option bool :=
  match terms with
  | [] => None
  | term :: terms' =>
      if negb (bool_decide (form_rank (tt_form term) = 0)) then Some false
      else Some true
  end.

End timeforms.

(** * A small backend for the examples

    Forms are a rank with the list of their coefficients, assembling a
    tensor numbers it, [Function.assign] evaluates sums and scalar products
    entry by entry, operators act on plain vectors and the Krylov solver is
    two steps of Richardson's iteration. *)

Module Example.

Definition simple_form : Type := nat * list Coefficient.

Definition update_items (defaults other : Parameters) : Parameters :=
  other ++ filter (fun kv => kv.1 ∉ other.*1) defaults.

#[export] Instance backend : Backend := {|
  Form := simple_form;
  Tensor := nat;
  World := nat;
  extract_coefficients := fun f => f.2;
  count_arguments := fun f => f.1;
  replace := fun f d => (f.1, map (fun c => default c (d !! c)) f.2);
  ufl_expand := fun f => f;
  dolfin_assemble := fun f w => (Ok w, S w);
  ts_assemble := fun f p w => (Ok w, S w);
  assemble_symmetric_bcs := fun f bcs p w => (Ok w, S w);
  parameters_update := update_items;
  is_GenericMatrix := fun _ => true;
  is_GenericVector := fun _ => true;
  tensor_size := fun _ _ _ => 2;
  bc_apply := fun _ _ _ => ret tt;
  create_init_vector := fun _ w => (Ok w, S w);
  bc_zero_columns := fun _ _ _ => ret tt
|}.

Fixpoint eval (h : Heap) (e : Expr) : Vec :=
  match e with
  | EFunction f => function_vector h f
  | EProduct (EScalarValue w) e' => map (fun x => (w * x)%float) (eval h e')
  | EProduct e' (EScalarValue w) => map (fun x => (w * x)%float) (eval h e')
  | ESum a b => zip_with PrimFloat.add (eval h a) (eval h b)
  | _ => []
  end.

Definition richardson_step (A : Vec -> Vec) (b x : Vec) : Vec :=
  zip_with PrimFloat.add x (zip_with PrimFloat.sub b (A x)).

Definition richardson (parameters : list string) (A : Vec -> Vec)
    (At : option (Vec -> Vec)) (x0 b : Vec) : Vec * nat :=
  (Nat.iter 2 (richardson_step A b) x0, 2).

#[export] Instance adjoint_backend : AdjointBackend := {|
  backend_name := "dolfin";
  backend_version := "2016.1.0";
  utils_to_annotate := fun annotate params =>
    match annotate with
    | Some false => false
    | _ => negb (stop_annotating params)
    end;
  ufl_str := fun _ => "<expr>";
  dolfin_assign := fun self other h =>
    set_vectors <[ufl_count self := eval h other]> h;
  get_identity_block := fun V =>
    {| block_name := "Identity"; block_dependencies := [];
       block_test_hermitian := false; block_test_derivative := false;
       block_assemble := None; block_derivative_action := None |};
  register_assign := fun _ _ => ret tt;
  mass_lu_solve := fun _ v => v;
  inner_test_dx := fun c => (1, [c]);
  Variable_str := var_name;
  md5_hexdigest := fun s => s;
  str_hash := fun p => pretty (Npos p);
  assemble_vector := fun h f =>
    match f.2 with
    | c :: _ => function_vector h c
    | [] => []
    end;
  PETScKrylovSolver_solve := richardson;
  new_object_id := fun p => (p~1)%positive;
  assemble_action := fun h f x => x;
  assemble_action_of_vector := fun h f x => map (fun xi => (2 * xi)%float) x;
  ufl_adjoint := fun f => f;
  ufl_derivative := fun f c => f;
  replace_second_argument := fun f c => f;
  ufl_action := fun f c => f;
  ufl_scale := fun z f => f;
  rhs_coefficients := fun f =>
    filter (fun c => has_function_space c = true) f.2
|}.

(** A space of dimension two, functions on it, and a state with an empty
    tape that records every value. *)
Definition V : FunctionSpace :=
  {| fs_id := 1; fs_dim := 2; fs_element := "CG1" |}.

Definition fn (n : positive) (name : string) : Coefficient :=
  {| ufl_count := n; coeff_class := ClsFunction; function_space := Some V;
     adj_name := Some name; dolfin_str := "f_" +:+ pretty (Npos n) |}.

Definition u : Coefficient := fn 1 "u".
Definition a : Coefficient := fn 2 "a".
Definition b : Coefficient := fn 3 "b".
Definition y : Coefficient := fn 4 "y".
Definition v : Coefficient := fn 5 "v".

Definition heap0 : Heap :=
  {| vectors :=
       {[ 1%positive := [0; 0]%float; 2%positive := [1; 2]%float;
          3%positive := [3; 4]%float; 4%positive := [0; 0]%float;
          5%positive := [1; 1]%float ]};
     expression_attrs := {[ (9%positive, "t") := PyInt 0 ]};
     current_forms := ∅ |}.

Definition state0 : AdjState :=
  {| adj_variables := {| coeffs := ∅; timestep := 0 |};
     adjointer := {| adj_equations := []; adj_storage := ∅;
                     adj_frozen := false; adj_policy := STORE_ALL;
                     adj_retained := [] |};
     heap := heap0;
     parameters_adjoint :=
       {| record_all := true; symmetric_bcs := false;
          stop_annotating := false; test_hermitian := false;
          test_derivative := false |};
     fsp_lu := ∅;
     stdout := [] |}.

(** The identity operator, with and without [transpmult]. *)
Definition identity_operator : KrylovMatrix :=
  {| km_id := 7; mult := fun _ x => x; transpmult := Some (fun _ x => x);
     dependencies := None; set_dependencies := None;
     km_derivative_action := None |}.

Definition operator_without_transpmult : KrylovMatrix :=
  {| km_id := 8; mult := fun _ x => x; transpmult := None;
     dependencies := None; set_dependencies := None;
     km_derivative_action := None |}.

(** The vector of [u], and a right-hand side assembled from the form of
    [b] that carries one Dirichlet condition: entry 0 is 1. *)
Definition inflow : BC :=
  {| bc_id := 11; bc_is_DirichletBC := true; bc_values := [(0, 1%float)] |}.

Definition noslip : BC :=
  {| bc_id := 12; bc_is_DirichletBC := true; bc_values := [(0, 0%float)] |}.

Definition x_u : PETScVector :=
  {| vec_id := 1; function := Some u; form := None; bcs := None |}.

Definition rhs_vector (conditions : list BC) : PETScVector :=
  {| vec_id := 3; function := None; form := Some (1, [b]);
     bcs := Some conditions |}.

(** A right-hand side assembled from the same form to which no boundary
    condition was applied: it has [.form] and no [.bcs]. *)
Definition rhs_without_bcs : PETScVector :=
  {| vec_id := 3; function := None; form := Some (1, [b]); bcs := None |}.

Definition solver : AdjointPETScKrylovSolver :=
  {| solver_parameters := ["gmres"; "none"] |}.

(** The variables of [u] and [y] at their first version, the sum
    [2*a + 3*b], and an empty assembly cache. *)
Definition u_var : Variable_ :=
  {| var_name := "u"; var_timestep := 0; var_iteration := 0 |}.

Definition y_var : Variable_ :=
  {| var_name := "y"; var_timestep := 0; var_iteration := 0 |}.

Definition two_a_three_b : Expr :=
  ESum (EProduct (EScalarValue 2) (EFunction a))
       (EProduct (EScalarValue 3) (EFunction b)).

Definition cache0 : CacheState :=
  {| cache := ∅; form_compiler := []; verbose := false; printed := [];
     world := 0 |}.

(** Instances of the further backends, and a second backend that is not
    dolfin. *)
#[export] Instance interpolate_backend : InterpolateBackend := {|
  dolfin_interpolate := fun self other h =>
    set_vectors <[ufl_count self := eval h other]> h;
  register_assign_interpolate := fun _ _ => ret tt
|}.

#[export] Instance functional_backend : FunctionalBackend := {|
  derivative_test := fun f u V => (1, u :: f.2)
|}.

Definition test_function : Argument :=
  {| arg_number := 0; arg_element := "CG1" |}.
Definition trial_function : Argument :=
  {| arg_number := 1; arg_element := "CG1" |}.

#[export] Instance arguments_backend : ArgumentsBackend := {|
  extract_arguments := fun f => take f.1 [test_function; trial_function]
|}.

#[export] Instance solver_parameters_backend : SolverParametersBackend := {|
  lu_solver_defaults := [("reuse_factorization", PValue (PyBool false))];
  krylov_solver_defaults := [("maximum_iterations", PValue (PyInt 100))];
  has_lu_solver_method := fun name =>
    match name with
    | PValue (PyStr "mumps") => true
    | _ => false
    end
|}.

#[export] Instance timeform_backend : TimeFormBackend := {|
  form_mul := fun _ f => f;
  form_neg := fun f => f
|}.

Definition firedrake_backend : AdjointBackend := {|
  backend_name := "firedrake";
  backend_version := backend_version;
  utils_to_annotate := utils_to_annotate;
  ufl_str := ufl_str;
  dolfin_assign := dolfin_assign;
  get_identity_block := get_identity_block;
  register_assign := register_assign;
  mass_lu_solve := mass_lu_solve;
  inner_test_dx := inner_test_dx;
  Variable_str := Variable_str;
  md5_hexdigest := md5_hexdigest;
  str_hash := str_hash;
  assemble_vector := assemble_vector;
  PETScKrylovSolver_solve := PETScKrylovSolver_solve;
  new_object_id := new_object_id;
  assemble_action := assemble_action;
  assemble_action_of_vector := assemble_action_of_vector;
  ufl_adjoint := ufl_adjoint;
  ufl_derivative := ufl_derivative;
  replace_second_argument := replace_second_argument;
  ufl_action := ufl_action;
  ufl_scale := ufl_scale;
  rhs_coefficients := rhs_coefficients
|}.

(** The state with symmetric boundary conditions requested. *)
Definition state_symmetric : AdjState :=
  {| adj_variables := adj_variables state0;
     adjointer := adjointer state0;
     heap := heap0;
     parameters_adjoint :=
       {| record_all := true; symmetric_bcs := true;
          stop_annotating := false; test_hermitian := false;
          test_derivative := false |};
     fsp_lu := ∅;
     stdout := [] |}.

(** A second space that prints as [V] does, and the state in which its LU
    solver is the one stored under that name. *)
Definition V_twin : FunctionSpace :=
  {| fs_id := 7; fs_dim := 2; fs_element := "CG1" |}.

Definition state_symmetric_cached : AdjState :=
  {| adj_variables := adj_variables state0;
     adjointer := adjointer state0;
     heap := heap0;
     parameters_adjoint := parameters_adjoint state_symmetric;
     fsp_lu := {[ FunctionSpace_str V := V_twin ]};
     stdout := [] |}.

(** [LinComRHS([a, b], [2.0, 3.0], V)], with the variables of [a] and
    [b]. *)
Definition a_var : Variable_ :=
  {| var_name := "a"; var_timestep := 0; var_iteration := 0 |}.
Definition b_var : Variable_ :=
  {| var_name := "b"; var_timestep := 0; var_iteration := 0 |}.

Definition lincom_rhs : LinComRHS :=
  {| functions := [EFunction a; EFunction b]; weights := [2; 3]%float;
     fn_space := V; deps := [a_var; b_var] |}.

(** Forms of rank 0 and 2 with one coefficient each, and caches holding
    an assembled matrix and a solver for [(2, [a])] and for [(2, [b])]. *)
Definition assembly_key (form : simple_form) : CacheKey :=
  (form, [], None).
Definition solver_key (form : simple_form) : SolverKey :=
  (FKForm form, [], None, None, None).

Definition caches0 : Caches nat :=
  {| assembly_cache :=
       {| cache := {[ assembly_key (2, [a]) := 0; assembly_key (2, [b]) := 1 ]};
          form_compiler := []; verbose := false; printed := [];
          world := 2 |};
     linear_solver_cache :=
       {[ solver_key (2, [a]) := 10; solver_key (2, [b]) := 11 ]} |}.

End Example.

(** * Properties *)

(** ** functional.py *)

Section functional_properties.
Context {BE : Backend}.

Lemma FinalFunctional_dependencies_activated {Adjointer : Type}
    (reg : CoeffStore) (adjointer : Adjointer) (timestep : nat)
    (self : FinalFunctional) :
  activated self = true ->
  FinalFunctional_dependencies reg adjointer timestep self = (Ok [], self).
Proof. intros Hact. unfold FinalFunctional_dependencies. by rewrite Hact. Qed.

Lemma FinalFunctional_dependencies_run_activated {Adjointer : Type}
    (calls : list (CoeffStore * Adjointer * nat)) (self : FinalFunctional) :
  activated self = true ->
  FinalFunctional_dependencies_run calls self
  = (replicate (length calls) (Ok []), self).
Proof.
  intros Hact. induction calls as [|[[reg adjointer] timestep] calls IH].
  - reflexivity.
  - cbn [FinalFunctional_dependencies_run length replicate].
    rewrite FinalFunctional_dependencies_activated by done.
    by rewrite IH.
Qed.

(** C10.  On a new [FinalFunctional], the first call of [dependencies]
    returns the variables of the form's coefficients that have a function
    space, and every later call returns the empty list, whatever registry,
    adjointer and timestep each call is given: the first call sets
    [activated], and the object ends the run with [activated] set. *)
Theorem FinalFunctional_dependencies_first_call_only {Adjointer : Type}
    (form : Form) (reg : CoeffStore) (adjointer : Adjointer) (timestep : nat)
    (calls : list (CoeffStore * Adjointer * nat)) :
  FinalFunctional_dependencies_run ((reg, adjointer, timestep) :: calls)
    (FinalFunctional_init form)
  = (Ok (map (fun coeff => CoeffStore_current reg (dolfin_adjoint_str coeff))
             (filter (fun coeff => has_function_space coeff = true)
                     (extract_coefficients form)))
       :: replicate (length calls) (Ok []),
     {| ff_form := form; activated := true |}).
Proof.
  cbn [FinalFunctional_dependencies_run].
  unfold FinalFunctional_dependencies at 1. cbn.
  by rewrite FinalFunctional_dependencies_run_activated.
Qed.

(** [FinalFunctional.__call__], the sibling of [TimeFunctional.__call__],
    does assemble the form with the supplied values. *)
Lemma FinalFunctional_call_assembles (self : FinalFunctional)
    (dependencies : list Variable_) (values : list (Vector Coefficient))
    (w : World) :
  FinalFunctional_call self dependencies values w
  = TimeFunctional_call_intended {| tf_form := ff_form self |} 0
      dependencies values w.
Proof. reflexivity. Qed.

(** C6.  [TimeFunctional.__call__] raises [NameError] for every timestep,
    dependency list and list of values, and leaves the state as it was: it
    never returns the assembled value. *)
Theorem TimeFunctional_call_raises_NameError (self : TimeFunctional)
    (timestep : nat) (dependencies : list Variable_)
    (values : list (Vector Coefficient)) (w : World) :
  TimeFunctional_call self timestep dependencies values w
  = (Raise (NameError "global name 'dolfin_dependencies' is not defined"), w).
Proof. reflexivity. Qed.

End functional_properties.

(** ** Reasoning in the monad *)

Lemma bind_Ok_inv {S A B} (m : M S A) (k : A -> M S B) (s s' : S) (b : B) :
  (m ≫= k) s = (Ok b, s') ->
  exists a s1, m s = (Ok a, s1) /\ k a s1 = (Ok b, s').
Proof.
  unfold mbind, M_bind, bind. destruct (m s) as [[a|e] s1]; intros Heq.
  - by exists a, s1.
  - discriminate.
Qed.

Lemma bind_Ok {S A B} (m : M S A) (k : A -> M S B) (s s1 : S) (a : A) :
  m s = (Ok a, s1) -> (m ≫= k) s = k a s1.
Proof. intros Hm. unfold mbind, M_bind, bind. by rewrite Hm. Qed.

Lemma bind_Raise {S A B} (m : M S A) (k : A -> M S B) (s s1 : S) (e : exn) :
  m s = (Raise e, s1) -> (m ≫= k) s = (Raise e, s1).
Proof. intros Hm. unfold mbind, M_bind, bind. by rewrite Hm. Qed.

Lemma fmap_Ok_inv {S A B} (f : A -> B) (m : M S A) (s s' : S) (b : B) :
  (f <$> m) s = (Ok b, s') -> exists a, m s = (Ok a, s') /\ b = f a.
Proof.
  unfold fmap, M_fmap, bind. destruct (m s) as [[a|e] s1]; intros Heq.
  - exists a. unfold ret in Heq. by simplify_eq.
  - discriminate.
Qed.

Lemma run_eq {S A} (p : result A * S) (r : result A) :
  p.1 = r -> p = (r, p.2).
Proof. intros <-. by destruct p. Qed.

(** Splits a successful run of a [≫=] in a hypothesis into its steps. *)
Ltac inv_bind H :=
  let a := fresh "a" in
  let s := fresh "s" in
  let Hm := fresh "Hm" in
  apply bind_Ok_inv in H as (a & s & Hm & H).

(** ** The tape *)

Section tape_properties.
Context {BE : Backend} {ABE : AdjointBackend}.

(** What registering initial conditions may do to the state: nothing
    outside the tape; on the tape, known variables stay known, recorded
    values stay recorded, a value is recorded only for a variable that is
    known afterwards, and a variable that becomes known has a value. *)
Definition tape_step (s s' : AdjState) : Prop :=
  heap s' = heap s
  /\ parameters_adjoint s' = parameters_adjoint s
  /\ adj_variables s' = adj_variables s
  /\ (forall v, variable_known (adjointer s) v = true ->
               variable_known (adjointer s') v = true)
  /\ (forall v, variable_known (adjointer s') v = false ->
               adj_storage (adjointer s') !! v = adj_storage (adjointer s) !! v)
  /\ (forall v, is_Some (adj_storage (adjointer s) !! v) ->
               is_Some (adj_storage (adjointer s') !! v))
  /\ (forall v, variable_known (adjointer s') v = true ->
               variable_known (adjointer s) v = true
               \/ is_Some (adj_storage (adjointer s') !! v)).

Lemma tape_step_refl (s : AdjState) : tape_step s s.
Proof. unfold tape_step. naive_solver. Qed.

Lemma tape_step_trans (s1 s2 s3 : AdjState) :
  tape_step s1 s2 -> tape_step s2 s3 -> tape_step s1 s3.
Proof.
  intros (Hh1 & Hp1 & Hv1 & Hk1 & Hu1 & Hs1 & Hn1)
         (Hh2 & Hp2 & Hv2 & Hk2 & Hu2 & Hs2 & Hn2).
  repeat split.
  - congruence.
  - congruence.
  - congruence.
  - auto.
  - intros v Hv. rewrite Hu2 by done. apply Hu1.
    destruct (variable_known (adjointer s2) v) eqn:Hk; [|done].
    enough (variable_known (adjointer s3) v = true) by congruence. auto.
  - auto.
  - intros v Hv. destruct (Hn2 v Hv) as [Hk|?]; [|by right].
    destruct (Hn1 v Hk) as [?|?]; [by left|right; auto].
Qed.

Lemma tape_step_materialized (s s' : AdjState) :
  tape_step s s' ->
  tape_materialized (adjointer s) -> tape_materialized (adjointer s').
Proof.
  intros (_ & _ & _ & _ & _ & Hs & Hn) Hinv v Hv.
  destruct (Hn v Hv) as [Hk|?]; [|done]. apply Hs, Hinv, Hk.
Qed.

Lemma variable_known_app (adj : Adjointer) (eqn : Equation) (v : Variable_)
    (st : gmap Variable_ MemoryStorage) (fr : bool) (po : storage_policy)
    (re : list Variable_) :
  variable_known
    {| adj_equations := adj_equations adj ++ [eqn]; adj_storage := st;
       adj_frozen := fr; adj_policy := po; adj_retained := re |} v
  = variable_known adj v || bool_decide (v = eq_var eqn).
Proof.
  unfold variable_known. cbn. rewrite map_app. cbn.
  apply eq_true_iff_eq.
  rewrite orb_true_iff, !bool_decide_eq_true, elem_of_app, list_elem_of_singleton.
  done.
Qed.

Lemma register_equation_Ok (eqn : Equation) (s s' : AdjState)
    (cs : checkpoint_handle) :
  register_equation eqn s = (Ok cs, s') ->
  variable_known (adjointer s) (eq_var eqn) = false
  /\ adj_frozen (adjointer s) = false
  /\ s' = set_adjointer (fun adj =>
            {| adj_equations := adj_equations adj ++ [eqn];
               adj_storage := adj_storage adj; adj_frozen := adj_frozen adj;
               adj_policy := adj_policy adj;
               adj_retained := adj_retained adj |}) s.
Proof.
  unfold register_equation.
  destruct (adj_frozen (adjointer s)); [discriminate|].
  destruct (variable_known (adjointer s) (eq_var eqn)); [discriminate|].
  intros [= _ <-]. done.
Qed.

Lemma register_equation_Raise (eqn : Equation) (s s' : AdjState) (e : exn) :
  register_equation eqn s = (Raise e, s') -> s' = s.
Proof.
  unfold register_equation.
  destruct (adj_frozen (adjointer s)); [by intros [= _ <-]|].
  destruct (variable_known (adjointer s) (eq_var eqn)); [by intros [= _ <-]|].
  discriminate.
Qed.

Lemma do_checkpoint_run (cs : checkpoint_handle) (v : Variable_)
    (s : AdjState) :
  exists s', do_checkpoint cs v s = (Ok tt, s')
    /\ heap s' = heap s
    /\ parameters_adjoint s' = parameters_adjoint s
    /\ adj_variables s' = adj_variables s
    /\ adj_equations (adjointer s') = adj_equations (adjointer s)
    /\ adj_storage (adjointer s') = adj_storage (adjointer s).
Proof. destruct cs; eexists; cbn; done. Qed.

Lemma register_initial_condition_step (coeff : Expr) (dep : Variable_)
    (s s' : AdjState) (r : result unit) :
  register_initial_condition coeff dep s = (r, s') -> tape_step s s'.
Proof.
  unfold register_initial_condition. intros Hrun.
  rewrite (bind_Ok _ _ s s (heap s)) in Hrun by done.
  destruct coeff as [f| | | | | | | |]; try (injection Hrun as _ <-; apply tape_step_refl).
  destruct (function_space f) as [V|]; [|injection Hrun as _ <-; apply tape_step_refl].
  match type of Hrun with
  | (register_equation ?eqn ≫= _) _ = _ =>
      destruct (register_equation eqn s) as [[cs|e] s1] eqn:Hreg
  end.
  2: { rewrite (bind_Raise _ _ s s1 e) in Hrun by done.
       injection Hrun as _ <-.
       apply register_equation_Raise in Hreg as ->. apply tape_step_refl. }
  rewrite (bind_Ok _ _ s s1 cs) in Hrun by done.
  apply register_equation_Ok in Hreg as (Hunk & _ & ->). cbn in Hunk.
  match type of Hrun with
  | (record_variable ?v ?st ≫= _) ?s0 = _ =>
      rewrite (bind_Ok _ _ s0 (snd (record_variable v st s0)) tt) in Hrun
        by reflexivity
  end.
  destruct (do_checkpoint_run cs dep
              (snd (record_variable dep
                      {| stored := function_vector (heap s) f |}
                      (set_adjointer (fun adj =>
                         {| adj_equations := adj_equations adj ++
                              [{| eq_var := dep;
                                  eq_blocks := [get_identity_block V];
                                  eq_targets := [dep];
                                  eq_rhs := RHS_Initial (EFunction f)
                                    (function_vector (heap s) f) |}];
                            adj_storage := adj_storage adj;
                            adj_frozen := adj_frozen adj;
                            adj_policy := adj_policy adj;
                            adj_retained := adj_retained adj |}) s))))
    as (s2 & Hcp & Hh & Hp & Hv & Heq & Hst).
  rewrite Hcp in Hrun. injection Hrun as _ <-.
  assert (Hknown : forall v, variable_known (adjointer s2) v
            = variable_known (adjointer s) v || bool_decide (v = dep)).
  { intros v. unfold variable_known. rewrite Heq. cbn.
    rewrite map_app. cbn. apply eq_true_iff_eq.
    rewrite orb_true_iff, !bool_decide_eq_true, elem_of_app,
      list_elem_of_singleton. done. }
  repeat split; try done.
  - intros v Hk. rewrite Hknown, Hk. done.
  - intros v Hk. rewrite Hknown in Hk. apply orb_false_iff in Hk as [_ Hne].
    apply bool_decide_eq_false in Hne. rewrite Hst. cbn.
    by rewrite lookup_insert_ne.
  - intros v Hsome. rewrite Hst. cbn.
    destruct (decide (dep = v)) as [->|Hne].
    + rewrite lookup_insert_eq. eauto.
    + by rewrite lookup_insert_ne.
  - intros v Hk. rewrite Hknown in Hk. apply orb_true_iff in Hk as [?|Heqv].
    + by left.
    + right. apply bool_decide_eq_true in Heqv as ->. rewrite Hst. cbn.
      rewrite lookup_insert_eq. eauto.
Qed.

Lemma register_initial_conditions_step (coeffdeps : list (Expr * Variable_))
    (linear : bool) (s s' : AdjState) (r : result unit) :
  register_initial_conditions coeffdeps linear s = (r, s') -> tape_step s s'.
Proof.
  unfold register_initial_conditions.
  revert s. induction coeffdeps as [|[coeff dep] l IH]; intros s Hrun.
  - injection Hrun as _ <-. apply tape_step_refl.
  - cbn [for_each] in Hrun. unfold bind at 1 in Hrun.
    match type of Hrun with
    | match ?m s with _ => _ end = _ => destruct (m s) as [[[]|e] s1] eqn:Hhead
    end.
    + apply (tape_step_trans s s1 s'); [|by apply IH].
      unfold mbind, M_bind, bind, adjointer_variable_known, gets in Hhead.
      cbn in Hhead.
      destruct (variable_known (adjointer s) dep).
      * injection Hhead as <-. apply tape_step_refl.
      * by eapply register_initial_condition_step.
    + injection Hrun as _ <-.
      unfold mbind, M_bind, bind, adjointer_variable_known, gets in Hhead.
      cbn in Hhead.
      destruct (variable_known (adjointer s) dep).
      * discriminate.
      * by eapply register_initial_condition_step.
Qed.

End tape_properties.

(** ** function.py *)

Section function_properties.
Context {BE : Backend} {ABE : AdjointBackend}.

(** C9.  [Function.assign(self, self)] returns at once, whatever
    [annotate] is: the result is [None] and the whole state (registry,
    tape, storage, vectors, printed text) is the state before the call. *)
Theorem dolfin_adjoint_assign_self_is_noop (self : Coefficient)
    (annotate : option bool) (s : AdjState) :
  dolfin_adjoint_assign self (EFunction self) annotate s = (Ok tt, s).
Proof.
  unfold dolfin_adjoint_assign.
  rewrite bool_decide_eq_true_2 by reflexivity.
  reflexivity.
Qed.

Lemma existsb_never {A} (p : A -> bool) (l : list A) :
  existsb (fun x => p x && false) l = false.
Proof. induction l as [|x l IH]; cbn; [done|]. by rewrite andb_false_r. Qed.

(** The registering part of the assignment, when it returns: the space of
    [self], the new variable, the registry after [next], and the equation
    that ends the tape. *)
Lemma assign_register_inv (self : Coefficient) (other : Expr)
    (annotate : option bool) (functions : list Expr) (weights : list float)
    (self_var : Variable_) (s s' : AdjState) :
  dolfin_adjoint_assign_register self other annotate functions weights
    self_var s = (Ok tt, s') ->
  exists V dep eqs,
    function_space self = Some V
    /\ heap s' = dolfin_assign self other (heap s)
    /\ parameters_adjoint s' = parameters_adjoint s
    /\ adj_equations (adjointer s')
       = eqs
         ++ [{| eq_var := dep; eq_blocks := [get_identity_block V];
                eq_targets := [dep];
                eq_rhs := RHS_LinCom
                  {| functions := functions; weights := weights;
                     fn_space := V;
                     deps := map (fun function =>
                                    CoeffStore_current (adj_variables s')
                                      (py_str function)) functions |} |}].
Proof.
  intros Hrun. unfold dolfin_adjoint_assign_register in Hrun.
  inv_bind Hrun. injection Hm as <- <-.
  inv_bind Hrun. injection Hm as <- <-.
  inv_bind Hrun.
  assert (Hs0 : heap s0 = heap s
                /\ parameters_adjoint s0 = parameters_adjoint s).
  { destruct (negb _); injection Hm as _ <-; done. }
  clear Hm. destruct Hs0 as (Hh0 & Hp0).
  inv_bind Hrun. injection Hm as _ <-.
  inv_bind Hrun. destruct (function_space self) as [V|]; [|discriminate].
  injection Hm as <- <-.
  inv_bind Hrun. unfold adj_variables_next in Hm.
  destruct (CoeffStore_next _ _) as [dep reg] eqn:Hnext.
  injection Hm as <- <-.
  inv_bind Hrun.
  assert (Hrec : heap s1 = dolfin_assign self other (heap s)
                 /\ parameters_adjoint s1 = parameters_adjoint s
                 /\ adj_variables s1 = reg).
  { destruct (record_all (parameters_adjoint s)); injection Hm as _ <-;
      cbn; by rewrite Hh0. }
  clear Hm. destruct Hrec as (Hh1 & Hp1 & Hv1).
  inv_bind Hrun. injection Hm as <- <-.
  inv_bind Hrun. apply register_initial_conditions_step in Hm.
  inv_bind Hrun. apply register_equation_Ok in Hm0 as (Hunk & _ & ->).
  match type of Hrun with
  | do_checkpoint ?cs ?vv ?st = _ =>
      destruct (do_checkpoint_run cs vv st)
        as (s4 & Hcp & Hh & Hp & Hv & Heq & Hst)
  end.
  rewrite Hcp in Hrun. injection Hrun as <-.
  destruct Hm as (Hh2 & Hp2 & Hv2 & _).
  cbn in *.
  exists V, dep, (adj_equations (adjointer s2)). split_and!; try done.
  - congruence.
  - congruence.
  - rewrite Heq. by rewrite Hv, Hv2.
Qed.

Lemma extract_two_a_plus_three_b (a b : Coefficient) (other : Expr) :
  other ∈ two_a_plus_three_b a b ->
  _check_and_extract_functions other None = Ok [(a, 2%float); (b, 3%float)]
  \/ _check_and_extract_functions other None
     = Ok [(b, 3%float); (a, 2%float)].
Proof.
  intros Hin. unfold two_a_plus_three_b in Hin. cbn in Hin.
  repeat (apply elem_of_cons in Hin as [->|Hin]);
    [vm_compute; auto ..|by apply elem_of_nil in Hin].
Qed.

Lemma contract_loop_two (f g : Coefficient) (wf wg : float)
    (V : FunctionSpace) :
  function_space f = Some V -> function_space g = Some V -> f <> g ->
  contract_loop [(f, wf); (g, wg)] [] [] None = Ok ([f; g], [wf; wg]).
Proof.
  intros Hf Hg Hne. cbn. rewrite Hf. cbn.
  rewrite bool_decide_eq_true_2 by done. cbn.
  rewrite Hg, bool_decide_eq_true_2 by done. cbn.
  rewrite decide_False by done. reflexivity.
Qed.

Lemma contract_two_a_plus_three_b (a b y : Coefficient) (V : FunctionSpace)
    (other : Expr) (s : AdjState) :
  other ∈ two_a_plus_three_b a b ->
  function_space a = Some V -> function_space b = Some V ->
  a <> b -> a <> y -> b <> y ->
  _check_and_contract_linear_comb other y None s
  = (Ok [(a, 2%float); (b, 3%float)], s)
  \/ _check_and_contract_linear_comb other y None s
     = (Ok [(b, 3%float); (a, 2%float)], s).
Proof.
  intros Hin Ha Hb Hab Hay Hby. unfold _check_and_contract_linear_comb.
  destruct (extract_two_a_plus_three_b a b other Hin) as [-> | ->];
    [left|right].
  - unfold mbind, M_bind, bind, lift_result.
    rewrite (contract_loop_two a b _ _ V) by done. cbn.
    rewrite !decide_False by done. reflexivity.
  - unfold mbind, M_bind, bind, lift_result.
    rewrite (contract_loop_two b a _ _ V) by done. cbn.
    rewrite !decide_False by done. reflexivity.
Qed.

Lemma assign_sum_reaches_register (y : Coefficient) (t1 t2 : Expr)
    (lincom : list (Coefficient * float)) (s : AdjState) :
  backend_name = "dolfin" ->
  utils_to_annotate (Some true) (parameters_adjoint s) = true ->
  _check_and_contract_linear_comb (ESum t1 t2) y None s = (Ok lincom, s) ->
  dolfin_adjoint_assign y (ESum t1 t2) (Some true) s
  = (print ("Annotating assign for "
            +:+ Variable_str (CoeffStore_current (adj_variables s)
                                (dolfin_adjoint_str y))) ;;
     dolfin_adjoint_assign_register y (ESum t1 t2) (Some true)
       (map (fun fw => EFunction fw.1) lincom) (map snd lincom)
       (CoeffStore_current (adj_variables s) (dolfin_adjoint_str y))) s.
Proof.
  intros Hname Hann Hlin. unfold dolfin_adjoint_assign.
  rewrite (bind_Ok _ _ s s (parameters_adjoint s)) by done.
  rewrite Hann. cbn [negb].
  rewrite Hname. rewrite bool_decide_eq_true_2 by done. cbn [negb].
  erewrite bind_Ok; last first.
  { erewrite bind_Ok by exact Hlin. reflexivity. }
  change (is_not_True (Some true)) with false. cbn [negb andb].
  replace (match function_space y with Some _ => false | None => false end)
    with false by (by destruct (function_space y)).
  unfold mbind, M_bind, bind, adj_variables_get, gets, print, modify.
  rewrite existsb_never, !map_map. reflexivity.
Qed.

(** Assigning [w * cv], for a weight other than 1, to a Function that is
    not [cv] is the plain assignment, annotation on or off: the value is
    not a Function and nobody insisted. *)
Lemma assign_scalar_mul (out cv : Coefficient) (w : float) (s : AdjState) :
  PrimFloat.eqb w 1 = false ->
  out <> cv ->
  backend_name = "dolfin" ->
  is_Some (function_space cv) ->
  dolfin_adjoint_assign out (scalar_mul w cv) None s
  = (Ok tt, set_heap (fun _ => dolfin_assign out (scalar_mul w cv) (heap s)) s).
Proof.
  intros Hw Hne Hname [V HV]. unfold dolfin_adjoint_assign, scalar_mul.
  rewrite Hw.
  rewrite (bind_Ok _ _ s s (parameters_adjoint s)) by done.
  destruct (utils_to_annotate None (parameters_adjoint s)); cbn [negb].
  2: reflexivity.
  rewrite Hname, bool_decide_eq_true_2 by done. cbn [negb].
  erewrite bind_Ok; last first.
  { erewrite bind_Ok; [reflexivity|].
    unfold _check_and_contract_linear_comb.
    unfold mbind, M_bind, bind, lift_result. cbn.
    rewrite HV. cbn. rewrite bool_decide_eq_true_2 by done. cbn.
    rewrite decide_False by (by intros ->). reflexivity. }
  reflexivity.
Qed.

Lemma backend_Function_fresh (V : FunctionSpace) (h : Heap)
    (cv : Coefficient) :
  ufl_count cv ∈ dom (vectors h) ->
  exists out h1, backend_Function V h = (Ok out, h1) /\ out <> cv.
Proof.
  intros Hin. eexists _, _. split; [reflexivity|].
  intros <-. cbn in Hin. by apply is_fresh in Hin.
Qed.

Lemma LinComRHS_derivative_action_weight (rhs : LinComRHS)
    (values : list (Vector Coefficient)) (variable : Variable_)
    (idx : nat) (w : float) (cv : Vector Coefficient) (hermitian : bool)
    (s : AdjState) :
  list_find (fun d => d = variable) (deps rhs) = Some (idx, variable) ->
  weights rhs !! idx = Some w ->
  PrimFloat.eqb w 1 = false ->
  symmetric_bcs (parameters_adjoint s) = false ->
  backend_name = "dolfin" ->
  is_Some (function_space (data cv)) ->
  ufl_count (data cv) ∈ dom (vectors (heap s)) ->
  exists out h1,
    backend_Function (fn_space rhs) (heap s) = (Ok out, h1)
    /\ LinComRHS_derivative_action rhs (LinComRHS_dependencies rhs) values
         variable cv hermitian s
       = (Ok (mkVector (inl out)),
          set_heap (fun _ => dolfin_assign out (scalar_mul w (data cv)) h1) s).
Proof.
  intros Hidx Hw Hw1 Hsym Hname Hfs Hin.
  destruct (backend_Function_fresh (fn_space rhs) (heap s) (data cv) Hin)
    as (out & h1 & Hnew & Hne).
  exists out, h1. split; [done|].
  unfold LinComRHS_derivative_action, LinComRHS_dependencies.
  rewrite Hidx.
  rewrite (bind_Ok _ _ s s idx) by done.
  rewrite (bind_Ok _ _ s s (parameters_adjoint s)) by done.
  rewrite Hsym. cbn [andb].
  rewrite (bind_Ok _ _ s s tt) by done.
  erewrite bind_Ok; last first.
  { erewrite bind_Ok; last first.
    { unfold in_heap. rewrite Hnew. reflexivity. }
    rewrite Hw.
    erewrite bind_Ok by reflexivity.
    erewrite bind_Ok; last first.
    { apply assign_scalar_mul; done. }
    reflexivity. }
  cbn. reflexivity.
Qed.

Lemma two_a_plus_three_b_is_sum (a b : Coefficient) (other : Expr) :
  other ∈ two_a_plus_three_b a b -> exists t1 t2, other = ESum t1 t2.
Proof.
  intros Hin. unfold two_a_plus_three_b in Hin. cbn in Hin.
  repeat (apply elem_of_cons in Hin as [->|Hin]);
    [eauto ..|by apply elem_of_nil in Hin].
Qed.

Lemma CoeffStore_current_inj (reg : CoeffStore) (n1 n2 : string) :
  CoeffStore_current reg n1 = CoeffStore_current reg n2 -> n1 = n2.
Proof. by intros [= ->]. Qed.

(** C2.  After the assignment [y = 2*a + 3*b] was annotated (the caller
    insisted with [annotate=True], as an assignment of an expression needs),
    the right-hand side of the registered equation has the variable of [a]
    among its dependencies, and its [derivative_action] with respect to
    that variable, for every contraction vector [v] and with symmetric
    boundary conditions off, returns a new Function assigned [2.0 * v].
    This holds for every order of the operands of the sum and of the two
    products.  [a] and [b] are two Functions of one space with different
    names, and [y] is neither. *)
Theorem lincom_derivative_action_returns_weight_times_contraction
    (a b y : Coefficient) (V : FunctionSpace) (other : Expr)
    (s s' : AdjState) :
  other ∈ two_a_plus_three_b a b ->
  function_space a = Some V -> function_space b = Some V ->
  a <> y -> b <> y ->
  dolfin_adjoint_str a <> dolfin_adjoint_str b ->
  backend_name = "dolfin" ->
  utils_to_annotate (Some true) (parameters_adjoint s) = true ->
  dolfin_adjoint_assign y other (Some true) s = (Ok tt, s') ->
  exists eqn rhs,
    last (adj_equations (adjointer s')) = Some eqn
    /\ eq_rhs eqn = RHS_LinCom rhs
    /\ let variable :=
         CoeffStore_current (adj_variables s') (dolfin_adjoint_str a) in
       variable ∈ LinComRHS_dependencies rhs
       /\ forall values cv hermitian s2,
            symmetric_bcs (parameters_adjoint s2) = false ->
            is_Some (function_space (data cv)) ->
            ufl_count (data cv) ∈ dom (vectors (heap s2)) ->
            exists out h1,
              backend_Function (fn_space rhs) (heap s2) = (Ok out, h1)
              /\ LinComRHS_derivative_action rhs
                   (LinComRHS_dependencies rhs) values variable cv
                   hermitian s2
                 = (Ok (mkVector (inl out)),
                    set_heap (fun _ =>
                      dolfin_assign out (scalar_mul 2 (data cv)) h1) s2).
Proof.
  intros Hin Ha Hb Hay Hby Hstr Hname Hann Hrun.
  assert (Hab : a <> b) by (by intros ->).
  destruct (two_a_plus_three_b_is_sum a b other Hin) as (t1 & t2 & ->).
  destruct (contract_two_a_plus_three_b a b y V _ s Hin Ha Hb Hab Hay Hby)
    as [Hlin|Hlin];
    rewrite (assign_sum_reaches_register y t1 t2 _ s Hname Hann Hlin) in Hrun;
    inv_bind Hrun; clear Hm;
    apply assign_register_inv in Hrun
      as (V' & dep & eqs & HV' & Hh & Hp & Heqs);
    eexists _, _; rewrite Heqs, last_snoc; (split; [reflexivity|]);
    (split; [reflexivity|]); intros variable; subst variable; split.
  - cbn. apply elem_of_cons. by left.
  - intros values cv hermitian s2 Hsym Hfs Hdom.
    apply (LinComRHS_derivative_action_weight _ values _ 0); try done.
    cbn. by rewrite decide_True.
  - cbn. apply elem_of_cons. right. apply elem_of_cons. by left.
  - intros values cv hermitian s2 Hsym Hfs Hdom.
    apply (LinComRHS_derivative_action_weight _ values _ 1); try done.
    cbn. rewrite decide_False.
    + by rewrite decide_True.
    + intros Heq. apply CoeffStore_current_inj in Heq. congruence.
Qed.


End function_properties.

(** ** matrix_free.py *)

Section matrix_free_properties.
Context {BE : Backend} {ABE : AdjointBackend}.

(** C3 (as the code has it).  When [A] has no [transpmult], the annotated
    solve raises libadjoint's [LibadjointErrorInvalidInputs] with the
    message that asks for a [.transpmult] method, and the state is the
    state before the call: no equation was registered, no variable
    allocated, and the forward solve has not touched the vector of [x]. *)
Theorem solve_without_transpmult_fails_at_registration
    (self : AdjointPETScKrylovSolver) (A : KrylovMatrix) (x b : PETScVector)
    (s : AdjState) :
  transpmult A = None ->
  AdjointPETScKrylovSolver_solve self A x b true s
  = (Raise (LibadjointErrorInvalidInputs transpmult_missing), s).
Proof.
  intros HA. unfold AdjointPETScKrylovSolver_solve.
  apply bind_Raise.
  unfold fmap, M_fmap. apply bind_Raise.
  unfold AdjointPETScKrylovSolver_annotate. rewrite HA. reflexivity.
Qed.

Lemma print_step (msg : string) (s : AdjState) :
  exists s', print msg s = (Ok tt, s') /\ tape_step s s'.
Proof. eexists. split; [reflexivity|]. unfold tape_step. cbn. naive_solver. Qed.

Lemma annotate_Ok_inv (self : AdjointPETScKrylovSolver) (A : KrylovMatrix)
    (x b : PETScVector) (s s' : AdjState) (var : Variable_) :
  AdjointPETScKrylovSolver_annotate self A x b s = (Ok var, s') ->
  exists At f F deps s1,
    transpmult A = Some At /\ function x = Some f /\ form b = Some F
    /\ (0 < length deps -> is_Some (set_dependencies A))
    /\ tape_step s s1
    /\ var = (CoeffStore_next (adj_variables s1) (dolfin_adjoint_str f)).1
    /\ variable_known (adjointer s1) var = false
    /\ adj_equations (adjointer s')
       = adj_equations (adjointer s1)
         ++ [{| eq_var := var;
                eq_blocks :=
                  [make_diag_block self A x b
                     (md5_hexdigest (str_hash (km_id A))) deps
                     (parameters_adjoint s) (expression_attrs (heap s))];
                eq_targets := [var]; eq_rhs := RHS_Form F |}]
    /\ adj_storage (adjointer s') = adj_storage (adjointer s1)
    /\ heap s' = heap s
    /\ parameters_adjoint s' = parameters_adjoint s.
Proof.
  unfold AdjointPETScKrylovSolver_annotate. intros Hrun.
  destruct (transpmult A) as [At|] eqn:HAt.
  2: { rewrite bool_decide_eq_false_2 in Hrun by (by intros [? ?]). discriminate. }
  rewrite bool_decide_eq_true_2 in Hrun by eauto. cbn [negb] in Hrun.
  inv_bind Hrun. destruct (function x) as [f|] eqn:Hf; [|discriminate].
  injection Hm as <- <-.
  inv_bind Hrun. destruct (form b) as [F|] eqn:HF; [|discriminate].
  injection Hm as <- <-.
  inv_bind Hrun. destruct a as [coeffs deps].
  assert (Hstep0 : tape_step s s0).
  { destruct (dependencies A).
    - injection Hm as _ _ <-. apply tape_step_refl.
    - destruct (print_step "A has no .dependencies method; assuming no nonlinear dependencies of the matrix-free operator." s) as (sp & Hp & Hsp).
      rewrite (bind_Ok _ _ s sp tt) in Hm by done. injection Hm as _ _ <-. done. }
  clear Hm.
  inv_bind Hrun.
  assert (Hset : (0 < length deps -> is_Some (set_dependencies A)) /\ s1 = s0).
  { destruct (decide (0 < length deps)).
    - destruct (set_dependencies A); cbn in Hm; [|discriminate].
      injection Hm as _ <-. eauto.
    - injection Hm as _ <-. split; [lia|done]. }
  destruct Hset as [Hset ->]. clear Hm.
  inv_bind Hrun. injection Hm as <- <-.
  inv_bind Hrun. injection Hm as <- <-.
  inv_bind Hrun. apply register_initial_conditions_step in Hm.
  inv_bind Hrun.
  unfold adj_variables_next in Hm0.
  destruct (CoeffStore_next (adj_variables s1) (dolfin_adjoint_str f))
    as [v reg] eqn:Hnext.
  injection Hm0 as <- <-.
  inv_bind Hrun. injection Hm0 as <- <-.
  inv_bind Hrun. apply register_equation_Ok in Hm0 as (Hunk & _ & ->).
  inv_bind Hrun.
  lazymatch type of Hm0 with
  | do_checkpoint ?cs ?vv ?st = _ =>
      destruct (do_checkpoint_run cs vv st) as (s4 & Hcp & Hh & Hp & Hv & Heq & Hst)
  end.
  rewrite Hcp in Hm0. injection Hm0 as _ <-. injection Hrun as <- <-.
  pose proof (tape_step_trans _ _ _ Hstep0 Hm) as Hstep.
  destruct Hstep as (Hh1 & Hp1 & Hrest).
  destruct Hstep0 as (Hh0 & Hp0 & _).
  exists At, f, F, deps, s1.
  rewrite Hnext. cbn in *.
  split_and!; try done.
  - rewrite Heq. unfold freeze_dict. rewrite Hh1, Hp0. done.
  - congruence.
  - congruence.
Qed.


Lemma MatrixFree_solve_eq (self : MatrixFree) (var : Variable_)
    (b : Vector Form) (h : Heap) :
  let n := fresh (dom (vectors h)) in
  let xnew :=
    {| ufl_count := n; coeff_class := ClsFunction;
       function_space := Some (mf_fn_space self); adj_name := None;
       dolfin_str := "f_" +:+ pretty (Npos n) |} in
  let zero := replicate (fs_dim (mf_fn_space self)) 0%float in
  let h1 := set_vectors <[n := zero]> h in
  MatrixFree_solve self var b h
  = (Ok (mkVector xnew),
     set_vectors
       <[n := (PETScKrylovSolver_solve (mf_solver_parameters self)
                 (mult (mf_data self) h1)
                 ((fun transpmult => transpmult h1)
                    <$> transpmult (mf_data self))
                 zero
                 (foldl (fun rhs bc => bc_apply_vector bc rhs)
                    (assemble_vector h1 (data b)) (mf_bcs self))).1]> h1).
Proof.
  intros n xnew zero h1. unfold MatrixFree_solve.
  unfold mbind, M_bind, bind, backend_Function. cbn.
  fold n. fold zero. fold h1.
  replace (function_vector h1 _) with zero.
  2: { unfold function_vector, h1. cbn. by rewrite lookup_insert_eq. }
  destruct (PETScKrylovSolver_solve _ _ _ _ _) as [solution iterations].
  reflexivity.
Qed.

Lemma diag_assembly_cb_hermitian (self : AdjointPETScKrylovSolver)
    (A : KrylovMatrix) (x b : PETScVector)
    (frozen : gmap (positive * string) pyval) (deps : list Variable_)
    (values : list (Vector Coefficient)) (h : Heap)
    (At : Heap -> Vec -> Vec) (f : Coefficient) (V : FunctionSpace)
    (bl : list BC) :
  transpmult A = Some At -> function x = Some f ->
  function_space f = Some V -> bcs b = Some bl ->
  (0 < length deps -> is_Some (set_dependencies A)) ->
  exists h',
    diag_assembly_cb self A x b frozen deps values true 1 h
    = (Ok ({| mf_data :=
                {| km_id := new_object_id (km_id A); mult := At;
                   transpmult := Some (mult A);
                   dependencies := dependencies A;
                   set_dependencies := set_dependencies A;
                   km_derivative_action := km_derivative_action A |};
              mf_fn_space := V;
              mf_bcs := map homogenize
                          (filter (fun bc => bc_is_DirichletBC bc = true) bl);
              mf_solver_parameters := solver_parameters self |},
           mkVector (None, V)), h').
Proof.
  intros HAt Hf HV Hb Hset. unfold diag_assembly_cb.
  rewrite bool_decide_eq_true_2 by done. cbn [negb].
  unfold mbind, M_bind, bind, modify, lift_result, transpose_copy,
    x_function_space.
  rewrite HAt, Hf, HV, Hb.
  destruct (decide (0 < length deps)) as [Hpos|Hpos].
  - destruct (Hset Hpos) as [sd Hsd]. rewrite Hsd. cbn. eauto.
  - cbn. eauto.
Qed.

(** Where [b] carries boundary conditions, the adjoint is the solve with
    the transposed operator.  An annotated matrix-free solve that
    registers puts on the tape one equation for the new variable, with one
    block whose assembly callback is [diag_assembly_cb].  Called in the
    adjoint direction ([hermitian = true]) on such a [b], that
    callback returns a [MatrixFree] whose operator is a copy of [A] with
    [mult] and [transpmult] swapped and whose boundary conditions are the
    homogenized Dirichlet conditions of [b]; and [MatrixFree.solve] on it
    is one run of the Krylov solver from a zero guess, given the operator
    as the two actions [A.transpmult] and [A.mult] (the only way
    [PETScKrylovSolver_solve] sees an operator: no inverse is formed or
    applied), on the assembled right-hand side with those conditions
    applied. *)
Theorem matrix_free_adjoint_is_transposed_krylov_solve
    (self : AdjointPETScKrylovSolver) (A : KrylovMatrix) (x b : PETScVector)
    (s s' : AdjState) (var : Variable_) :
  AdjointPETScKrylovSolver_annotate self A x b s = (Ok var, s') ->
  exists At eqn blk cb,
    transpmult A = Some At
    /\ last (adj_equations (adjointer s')) = Some eqn
    /\ eq_var eqn = var /\ eq_blocks eqn = [blk]
    /\ block_assemble blk = Some cb
    /\ forall values h f V bl,
         function x = Some f -> function_space f = Some V ->
         bcs b = Some bl ->
         exists M h',
           cb (block_dependencies blk) values true 1%Z h
           = (Ok (M, mkVector (None, V)), h')
           /\ mult (mf_data M) = At
           /\ transpmult (mf_data M) = Some (mult A)
           /\ mf_bcs M
              = map homogenize
                  (filter (fun bc => bc_is_DirichletBC bc = true) bl)
           /\ forall var' rhs h2,
                exists xnew h3,
                  h3 = set_vectors
                         <[ufl_count xnew := replicate (fs_dim V) 0%float]> h2
                  /\ MatrixFree_solve M var' rhs h2
                     = (Ok (mkVector xnew),
                        set_vectors
                          <[ufl_count xnew :=
                              (PETScKrylovSolver_solve (solver_parameters self)
                                 (At h3) (Some (mult A h3))
                                 (replicate (fs_dim V) 0%float)
                                 (foldl (fun r bc => bc_apply_vector bc r)
                                    (assemble_vector h3 (data rhs))
                                    (mf_bcs M))).1]> h3).
Proof.
  intros Hrun.
  apply annotate_Ok_inv in Hrun
    as (At & f & F & deps & s1 & HAt & Hf & HF & Hset & _ & _ & _ & Heqs & _).
  eexists At, _, _, _. split; [done|].
  rewrite Heqs, last_snoc. split; [done|]. cbn.
  split_and!; try done.
  intros values h f' V bl Hf' HV Hb.
  assert (f' = f) as -> by congruence.
  destruct (diag_assembly_cb_hermitian self A x b (expression_attrs (heap s))
              deps values h At f V bl) as [h' Hcb]; try done.
  eexists _, h'. split; [exact Hcb|]. cbn. split_and!; try done.
  intros var' rhs h2.
  exists {| ufl_count := fresh (dom (vectors h2)); coeff_class := ClsFunction;
            function_space := Some V; adj_name := None;
            dolfin_str := "f_" +:+ pretty (Npos (fresh (dom (vectors h2)))) |}.
  eexists. split; [reflexivity|].
  rewrite MatrixFree_solve_eq. reflexivity.
Qed.

Lemma diag_assembly_cb_without_bcs (self : AdjointPETScKrylovSolver)
    (A : KrylovMatrix) (x b : PETScVector)
    (frozen : gmap (positive * string) pyval) (deps : list Variable_)
    (values : list (Vector Coefficient)) (hermitian : bool) (h : Heap)
    (f : Coefficient) (V : FunctionSpace) :
  is_Some (transpmult A) -> function x = Some f ->
  function_space f = Some V -> bcs b = None ->
  (0 < length deps -> is_Some (set_dependencies A)) ->
  exists h',
    diag_assembly_cb self A x b frozen deps values hermitian 1 h
    = (Raise (Exn "AttributeError" "bcs"), h').
Proof.
  intros [At HAt] Hf HV Hb Hset. unfold diag_assembly_cb.
  rewrite bool_decide_eq_true_2 by done. cbn [negb].
  unfold mbind, M_bind, bind, modify, lift_result, transpose_copy,
    x_function_space.
  rewrite HAt, Hf, HV, Hb.
  destruct (decide (0 < length deps)) as [Hpos|Hpos].
  - destruct (Hset Hpos) as [sd Hsd]. rewrite Hsd.
    destruct hermitian; cbn; eauto.
  - destruct hermitian; cbn; eauto.
Qed.

(** C1.  The adjoint of a registered solve is not always a solve with the
    transposed operator: registration asks [b] for [.form] but not for
    [.bcs], which [down_cast] copies only when it is there, and the
    assembly callback reads [b.bcs] in either direction.  For every solve
    that registers with a [b] without [.bcs], the assembly callback of the
    block on the tape raises [AttributeError], in the adjoint direction as
    in the forward one, and returns no operator. *)
Theorem registered_solve_without_bcs_has_no_adjoint
    (self : AdjointPETScKrylovSolver) (A : KrylovMatrix) (x b : PETScVector)
    (s s' : AdjState) (var : Variable_) :
  AdjointPETScKrylovSolver_annotate self A x b s = (Ok var, s') ->
  bcs b = None ->
  exists eqn blk cb,
    last (adj_equations (adjointer s')) = Some eqn
    /\ eq_var eqn = var /\ eq_blocks eqn = [blk]
    /\ block_assemble blk = Some cb
    /\ forall values hermitian h f V,
         function x = Some f -> function_space f = Some V ->
         exists h',
           cb (block_dependencies blk) values hermitian 1%Z h
           = (Raise (Exn "AttributeError" "bcs"), h').
Proof.
  intros Hrun Hb.
  apply annotate_Ok_inv in Hrun
    as (At & f & F & deps & s1 & HAt & Hf & HF & Hset & _ & _ & _ & Heqs & _).
  eexists _, _, _.
  rewrite Heqs, last_snoc. split; [done|]. cbn.
  split_and!; try done.
  intros values hermitian h f' V Hf' HV.
  apply (diag_assembly_cb_without_bcs self A x b _ deps values hermitian h
           f' V); eauto.
Qed.


Lemma modify_bind {S B} (f : S -> S) (k : unit -> M S B) (s : S) :
  (modify f ≫= k) s = k tt (f s).
Proof. reflexivity. Qed.

Lemma update_expressions_idemp (frozen : gmap (positive * string) pyval)
    (h : Heap) :
  update_expressions frozen (update_expressions frozen h)
  = update_expressions frozen h.
Proof.
  unfold update_expressions, set_expression_attrs. cbn. f_equal.
  by rewrite (assoc_L (∪)), (idemp_L (∪)).
Qed.

Lemma update_expressions_differ_only (frozen : gmap (positive * string) pyval)
    (h1 h2 : Heap) :
  differ_only_in_frozen frozen h1 h2 ->
  update_expressions frozen h1 = update_expressions frozen h2.
Proof.
  intros (Hv & Hc & Ha). unfold update_expressions, set_expression_attrs.
  rewrite Hv, Hc. f_equal. apply map_eq. intros k.
  rewrite !lookup_union. destruct (frozen !! k) as [v|] eqn:Hk.
  - by destruct (expression_attrs h1 !! k), (expression_attrs h2 !! k).
  - by rewrite Ha.
Qed.

Lemma update_expressions_lookup (frozen : gmap (positive * string) pyval)
    (h : Heap) (k : positive * string) (v : pyval) :
  frozen !! k = Some v ->
  expression_attrs (update_expressions frozen h) !! k = Some v.
Proof. intros Hk. cbn. by apply lookup_union_Some_l. Qed.

Lemma diag_assembly_cb_restores_first (self : AdjointPETScKrylovSolver)
    (A : KrylovMatrix) (x b : PETScVector)
    (frozen : gmap (positive * string) pyval) (deps : list Variable_)
    (values : list (Vector Coefficient)) (hermitian : bool) (h : Heap) :
  diag_assembly_cb self A x b frozen deps values hermitian 1 h
  = diag_assembly_cb self A x b frozen deps values hermitian 1
      (update_expressions frozen h).
Proof.
  unfold diag_assembly_cb. rewrite bool_decide_eq_true_2 by done. cbn [negb].
  rewrite !modify_bind. by rewrite update_expressions_idemp.
Qed.

Lemma diag_derivative_action_restores_first (A : KrylovMatrix)
    (frozen : gmap (positive * string) pyval) (deps : list Variable_)
    (values : list (Vector Coefficient)) (variable : Variable_)
    (contraction_vector : Vector Coefficient) (hermitian : bool)
    (input : Vector Coefficient) (coefficient : Z) (h : Heap) :
  diag_derivative_action A frozen deps values variable contraction_vector
    hermitian input coefficient h
  = diag_derivative_action A frozen deps values variable contraction_vector
      hermitian input coefficient (update_expressions frozen h).
Proof.
  unfold diag_derivative_action.
  rewrite !modify_bind. by rewrite update_expressions_idemp.
Qed.

(** C5.  An annotated matrix-free solve that registers takes, at
    registration, a snapshot of the attribute values of the tracked
    expressions ([freeze_dict]), and both callbacks of the registered block
    write the snapshot back before anything else: running a callback is
    running it on the heap with the snapshot restored, where every
    attribute has the value it had at registration.  So the callbacks give
    the same result and leave the same heap on two heaps that differ only
    in what later mutation made of the attributes of the snapshot. *)
Theorem frozen_expressions_are_restored_before_evaluation
    (self : AdjointPETScKrylovSolver) (A : KrylovMatrix) (x b : PETScVector)
    (s s' : AdjState) (var : Variable_) :
  AdjointPETScKrylovSolver_annotate self A x b s = (Ok var, s') ->
  let frozen := freeze_dict (heap s) in
  exists eqn blk cb,
    last (adj_equations (adjointer s')) = Some eqn
    /\ eq_var eqn = var /\ eq_blocks eqn = [blk]
    /\ block_assemble blk = Some cb
    /\ (forall h k v,
          expression_attrs (heap s) !! k = Some v ->
          expression_attrs (update_expressions frozen h) !! k = Some v)
    /\ (forall deps values hermitian h,
          cb deps values hermitian 1%Z h
          = cb deps values hermitian 1%Z (update_expressions frozen h))
    /\ (forall da deps values variable contraction_vector hermitian input
               coefficient h,
          block_derivative_action blk = Some da ->
          da deps values variable contraction_vector hermitian input
             coefficient h
          = da deps values variable contraction_vector hermitian input
               coefficient (update_expressions frozen h))
    /\ (forall h1 h2 deps values hermitian,
          differ_only_in_frozen frozen h1 h2 ->
          cb deps values hermitian 1%Z h1 = cb deps values hermitian 1%Z h2)
    /\ (forall h1 h2 da deps values variable contraction_vector hermitian
               input coefficient,
          differ_only_in_frozen frozen h1 h2 ->
          block_derivative_action blk = Some da ->
          da deps values variable contraction_vector hermitian input
             coefficient h1
          = da deps values variable contraction_vector hermitian input
               coefficient h2).
Proof.
  intros Hrun frozen.
  apply annotate_Ok_inv in Hrun
    as (At & f & F & deps & s1 & HAt & Hf & HF & Hset & _ & _ & _ & Heqs & _).
  eexists _, _, _. rewrite Heqs, last_snoc. split; [done|]. cbn.
  split_and!; try done.
  - intros h k v Hk. by apply update_expressions_lookup.
  - intros. apply diag_assembly_cb_restores_first.
  - intros da deps' values variable cv hermitian input coefficient h Hda.
    cbn in Hda. destruct (decide (0 < length deps)); [|discriminate].
    injection Hda as <-. apply diag_derivative_action_restores_first.
  - intros h1 h2 deps' values hermitian Hdiff.
    rewrite (diag_assembly_cb_restores_first _ _ _ _ _ _ _ _ h1),
      (diag_assembly_cb_restores_first _ _ _ _ _ _ _ _ h2).
    by rewrite (update_expressions_differ_only _ h1 h2).
  - intros h1 h2 da deps' values variable cv hermitian input coefficient
      Hdiff Hda.
    cbn in Hda. destruct (decide (0 < length deps)); [|discriminate].
    injection Hda as <-.
    rewrite (diag_derivative_action_restores_first _ _ _ _ _ _ _ _ _ h1),
      (diag_derivative_action_restores_first _ _ _ _ _ _ _ _ _ h2).
    by rewrite (update_expressions_differ_only _ h1 h2).
Qed.


Lemma solve_records_variable (self : AdjointPETScKrylovSolver)
    (A : KrylovMatrix) (x b : PETScVector) (s s' : AdjState) (out : nat) :
  record_all (parameters_adjoint s) = true ->
  AdjointPETScKrylovSolver_solve self A x b true s = (Ok out, s') ->
  exists var f eqn,
    function x = Some f
    /\ last (adj_equations (adjointer s')) = Some eqn
    /\ eq_var eqn = var
    /\ heap s' = (PETScKrylovSolver_forward self A x b (heap s)).2
    /\ adj_storage (adjointer s') !! var
       = Some {| stored := function_vector (heap s') f |}
    /\ (tape_materialized (adjointer s) -> tape_materialized (adjointer s')).
Proof.
  intros Hrec Hrun. unfold AdjointPETScKrylovSolver_solve in Hrun.
  inv_bind Hrun. apply fmap_Ok_inv in Hm as (var & Hann & ->).
  apply annotate_Ok_inv in Hann
    as (At & f & F & deps & s1 & HAt & Hf & HF & Hset & Hstep & Hvar & Hunk
        & Heqs & Hst & Hh & Hp).
  inv_bind Hrun.
  unfold in_heap in Hm.
  destruct (PETScKrylovSolver_forward self A x b (heap s0)) as [r h1] eqn:Hfw.
  injection Hm as -> <-.
  inv_bind Hrun. injection Hrun as _ <-.
  unfold mbind, M_bind, bind, gets in Hm. cbn in Hm.
  rewrite Hp, Hrec, Hf in Hm. cbn in Hm.
  injection Hm as _ <-. cbn.
  exists var, f. eexists. rewrite Heqs, last_snoc.
  split_and!; try done.
  - by rewrite <- Hh, Hfw.
  - by rewrite lookup_insert_eq.
  - intros Hinv v Hv. cbn.
    pose proof (tape_step_materialized _ _ Hstep Hinv) as Hinv1.
    rewrite variable_known_app in Hv. cbn in Hv.
    apply orb_true_iff in Hv as [Hv|Hv].
    + destruct (decide (var = v)) as [->|Hne].
      * rewrite lookup_insert_eq. eauto.
      * rewrite lookup_insert_ne by done. rewrite Hst. by apply Hinv1.
    + apply bool_decide_eq_true in Hv as ->. rewrite lookup_insert_eq. eauto.
Qed.


Lemma diag_assembly_cb_forward (self : AdjointPETScKrylovSolver)
    (A : KrylovMatrix) (x b : PETScVector)
    (frozen : gmap (positive * string) pyval) (deps : list Variable_)
    (values : list (Vector Coefficient)) (h : Heap)
    (f : Coefficient) (V : FunctionSpace) (bl : list BC) :
  function x = Some f -> function_space f = Some V -> bcs b = Some bl ->
  (0 < length deps -> is_Some (set_dependencies A)) ->
  (diag_assembly_cb self A x b frozen deps values false 1 h).1
  = Ok ({| mf_data := A; mf_fn_space := V; mf_bcs := bl;
           mf_solver_parameters := solver_parameters self |},
        mkVector (None, V)).
Proof.
  intros Hf HV Hb Hset. unfold diag_assembly_cb.
  rewrite bool_decide_eq_true_2 by done. cbn [negb].
  unfold mbind, M_bind, bind, modify, lift_result, x_function_space.
  rewrite Hf, HV, Hb.
  destruct (decide (0 < length deps)) as [Hpos|Hpos].
  - destruct (Hset Hpos) as [sd Hsd]. rewrite Hsd. reflexivity.
  - reflexivity.
Qed.

Lemma diag_assembly_cb_heap (self : AdjointPETScKrylovSolver)
    (A : KrylovMatrix) (x b : PETScVector)
    (frozen : gmap (positive * string) pyval) (deps : list Variable_)
    (values : list (Vector Coefficient)) (h : Heap)
    (f : Coefficient) (V : FunctionSpace) (bl : list BC)
    (At : Heap -> Vec -> Vec) :
  transpmult A = Some At ->
  function x = Some f -> function_space f = Some V -> bcs b = Some bl ->
  (0 < length deps -> is_Some (set_dependencies A)) ->
  (diag_assembly_cb self A x b frozen deps values true 1 h).2
  = (diag_assembly_cb self A x b frozen deps values false 1 h).2.
Proof.
  intros HAt Hf HV Hb Hset. unfold diag_assembly_cb.
  rewrite bool_decide_eq_true_2 by done. cbn [negb].
  unfold mbind, M_bind, bind, modify, lift_result, x_function_space,
    transpose_copy.
  rewrite HAt, Hf, HV, Hb.
  destruct (decide (0 < length deps)) as [Hpos|Hpos].
  - destruct (Hset Hpos) as [sd Hsd]. rewrite Hsd. reflexivity.
  - reflexivity.
Qed.

Lemma bc_apply_vector_homogenize (bc : BC) (rhs : Vec) :
  Forall (fun iv => iv.2 = 0%float) (bc_values bc) ->
  bc_apply_vector (homogenize bc) rhs = bc_apply_vector bc rhs.
Proof.
  unfold bc_apply_vector, homogenize. cbn.
  generalize (bc_values bc). intros l Hl. revert rhs.
  induction Hl as [|[i z] l Hz Hl IH]; intros rhs.
  - reflexivity.
  - cbn in Hz. subst z. cbn. apply IH.
Qed.

Lemma apply_homogenized_bcs (bl : list BC) (rhs : Vec) :
  Forall (fun bc => bc_is_DirichletBC bc = true
                    /\ Forall (fun iv => iv.2 = 0%float) (bc_values bc)) bl ->
  foldl (fun rhs bc => bc_apply_vector bc rhs) rhs
    (map homogenize (filter (fun bc => bc_is_DirichletBC bc = true) bl))
  = foldl (fun rhs bc => bc_apply_vector bc rhs) rhs bl.
Proof.
  intros Hbl. revert rhs. induction Hbl as [|bc bl [Hd Hz] Hbl IH]; intros rhs.
  - reflexivity.
  - rewrite filter_cons_True by done. cbn [map foldl].
    rewrite bc_apply_vector_homogenize by done. apply IH.
Qed.

(** C4 (as the code has it).  For an operator whose [transpmult] is its
    [mult], and a [b] all of whose boundary conditions are Dirichlet
    conditions with value zero, the assembly callback gives in both
    directions a [MatrixFree] with the same two actions, and
    [MatrixFree.solve] gives for every right-hand side and heap the same
    result on the two.  (The adjoint direction homogenizes the Dirichlet
    conditions of [b] and drops the others, so with another condition the
    right-hand sides of the two solves can differ.) *)
Theorem symmetric_operator_same_solve_with_homogeneous_bcs
    (self : AdjointPETScKrylovSolver) (A : KrylovMatrix) (x b : PETScVector)
    (frozen : gmap (positive * string) pyval) (deps : list Variable_)
    (values : list (Vector Coefficient)) (h : Heap)
    (f : Coefficient) (V : FunctionSpace) (bl : list BC) :
  transpmult A = Some (mult A) ->
  function x = Some f -> function_space f = Some V -> bcs b = Some bl ->
  (0 < length deps -> is_Some (set_dependencies A)) ->
  Forall (fun bc => bc_is_DirichletBC bc = true
                    /\ Forall (fun iv => iv.2 = 0%float) (bc_values bc)) bl ->
  exists Mt Mf h',
    diag_assembly_cb self A x b frozen deps values true 1 h
    = (Ok (Mt, mkVector (None, V)), h')
    /\ diag_assembly_cb self A x b frozen deps values false 1 h
       = (Ok (Mf, mkVector (None, V)), h')
    /\ mult (mf_data Mt) = mult (mf_data Mf)
    /\ transpmult (mf_data Mt) = transpmult (mf_data Mf)
    /\ forall var rhs h2,
         MatrixFree_solve Mt var rhs h2 = MatrixFree_solve Mf var rhs h2.
Proof.
  intros HAt Hf HV Hb Hset Hbl.
  destruct (diag_assembly_cb_hermitian self A x b frozen deps values h
              (mult A) f V bl) as [h' Ht]; try done.
  pose proof (diag_assembly_cb_forward self A x b frozen deps values h f V bl
                Hf HV Hb Hset) as Hfw.
  pose proof (diag_assembly_cb_heap self A x b frozen deps values h f V bl
                (mult A) HAt Hf HV Hb Hset) as Hheap.
  rewrite Ht in Hheap. cbn in Hheap.
  destruct (diag_assembly_cb self A x b frozen deps values false 1 h)
    as [r hf]. cbn in Hfw, Hheap. subst r hf.
  eexists _, _, h'. split_and!; try done.
  intros var rhs h2. rewrite !MatrixFree_solve_eq. cbn.
  rewrite HAt. cbn. rewrite apply_homogenized_bcs by done. reflexivity.
Qed.


End matrix_free_properties.

(** ** The policy that records every value *)

Section record_all_properties.
Context {BE : Backend} {ABE : AdjointBackend}.

Lemma assign_register_records_variable (self : Coefficient) (other : Expr)
    (annotate : option bool) (functions : list Expr) (weights : list float)
    (self_var : Variable_) (s s' : AdjState) :
  record_all (parameters_adjoint s) = true ->
  dolfin_adjoint_assign_register self other annotate functions weights
    self_var s = (Ok tt, s') ->
  exists dep eqn,
    last (adj_equations (adjointer s')) = Some eqn
    /\ eq_var eqn = dep
    /\ heap s' = dolfin_assign self other (heap s)
    /\ adj_storage (adjointer s') !! dep
       = Some {| stored := function_vector (heap s') self |}
    /\ (tape_materialized (adjointer s) -> tape_materialized (adjointer s')).
Proof.
  intros Hrec Hrun. unfold dolfin_adjoint_assign_register in Hrun.
  inv_bind Hrun. injection Hm as <- <-.
  inv_bind Hrun. injection Hm as <- <-.
  inv_bind Hrun.
  assert (Hs0 : heap s0 = heap s /\ adjointer s0 = adjointer s
                /\ parameters_adjoint s0 = parameters_adjoint s).
  { destruct (negb _); injection Hm as _ <-; done. }
  clear Hm. destruct Hs0 as (Hh0 & Ha0 & Hp0).
  inv_bind Hrun. injection Hm as _ <-.
  inv_bind Hrun. destruct (function_space self) as [V|]; [|discriminate].
  injection Hm as <- <-.
  inv_bind Hrun. unfold adj_variables_next in Hm.
  destruct (CoeffStore_next _ _) as [dep reg] eqn:Hnext.
  injection Hm as <- <-.
  inv_bind Hrun. rewrite Hrec in Hm. injection Hm as _ <-.
  inv_bind Hrun. injection Hm as <- <-.
  inv_bind Hrun. apply register_initial_conditions_step in Hm.
  inv_bind Hrun. apply register_equation_Ok in Hm0 as (Hunk & _ & ->).
  cbn in Hunk.
  match type of Hrun with
  | do_checkpoint ?cs ?vv ?st = _ =>
      destruct (do_checkpoint_run cs vv st)
        as (s4 & Hcp & Hh & Hp & Hv & Heq & Hst)
  end.
  rewrite Hcp in Hrun. injection Hrun as <-.
  destruct Hm as (Hh1 & Hp1 & Hv1 & Hk1 & Hu1 & Hs1 & Hn1).
  cbn in *.
  exists dep. eexists. rewrite Heq, last_snoc.
  split_and!; try done.
  - rewrite Hh, Hh1, Hh0. done.
  - rewrite Hst, Hu1 by done. rewrite lookup_insert_eq.
    by rewrite Hh, Hh1.
  - intros Hinv v Hv'. rewrite Hst.
    unfold variable_known in Hv'. rewrite Heq in Hv'.
    apply bool_decide_eq_true in Hv'. rewrite map_app in Hv'. cbn in Hv'.
    apply elem_of_app in Hv' as [Hv'|Hv'].
    + destruct (Hn1 v) as [Hk|?]; [by apply bool_decide_eq_true| |done].
      apply Hs1. destruct (decide (dep = v)) as [->|Hne].
      * rewrite lookup_insert_eq. eauto.
      * rewrite lookup_insert_ne by done. rewrite Ha0. apply Hinv.
        rewrite <- Ha0. exact Hk.
    + apply list_elem_of_singleton in Hv' as ->. apply Hs1.
      rewrite lookup_insert_eq. eauto.
Qed.


End record_all_properties.

(** ** caches.py *)

Section caches_properties.
Context {BE : Backend}.

Lemma cache_info_run (msg : string) (s : CacheState) :
  exists s', cache_info msg s = (Ok tt, s')
    /\ cache s' = cache s /\ world s' = world s
    /\ form_compiler s' = form_compiler s.
Proof. unfold cache_info. destruct (verbose s); eexists; done. Qed.

Lemma AssemblyCache_key_Ok (form : Form) (p : Parameters) (bcs : list BC)
    (sym zc : bool) (key : CacheKey) :
  AssemblyCache_key form p bcs sym zc = Ok key ->
  forallb bc_is_DirichletBC bcs = true
  /\ key = (form_key form, parameters_key p,
            if decide (length bcs = 0) then None
            else Some (map bc_id bcs, sym, zc)).
Proof.
  unfold AssemblyCache_key, bc_key.
  destruct (forallb bc_is_DirichletBC bcs); [|discriminate].
  destruct (decide (length bcs = 0)); cbn; intros [= <-]; done.
Qed.

(** A call whose key is in the cache returns the cached object; the cache,
    the numerical state and the global parameters are untouched. *)
Lemma AssemblyCache_assemble_hit (form : Form) (fcp : Parameters)
    (bcs : list BC) (sym zc : bool) (s : CacheState) (key : CacheKey)
    (t : Tensor) :
  AssemblyCache_key form (parameters_update (form_compiler s) fcp) bcs sym zc
  = Ok key ->
  cache s !! key = Some t ->
  (length bcs <> 0 -> form_rank form = 2) ->
  exists s', AssemblyCache_assemble form fcp bcs sym zc s = (Ok t, s')
    /\ cache s' = cache s /\ world s' = world s
    /\ form_compiler s' = form_compiler s.
Proof.
  intros Hkey Hhit Hrank. unfold AssemblyCache_assemble.
  destruct (AssemblyCache_key_Ok _ _ _ _ _ _ Hkey) as [Hbcs _].
  rewrite Hbcs. cbn [negb].
  unfold mbind, M_bind, bind, gets, lift_result, cache_info.
  rewrite Hkey.
  destruct (decide (length bcs = 0)) as [Hlen|Hlen].
  - rewrite Hhit. destruct (verbose s); cbn; rewrite Hhit; eauto.
  - rewrite Hrank by done. rewrite bool_decide_eq_true_2 by done. cbn [negb].
    rewrite Hhit. destruct (verbose s); cbn; rewrite Hhit; eauto.
Qed.

Lemma AssemblyCache_assemble_inv (form : Form) (fcp : Parameters)
    (bcs : list BC) (sym zc : bool) (s s' : CacheState) (r : result Tensor) :
  AssemblyCache_assemble form fcp bcs sym zc s = (r, s') ->
  cache s ⊆ cache s'
  /\ form_compiler s' = form_compiler s
  /\ forall t, r = Ok t ->
       exists key,
         AssemblyCache_key form (parameters_update (form_compiler s) fcp)
           bcs sym zc = Ok key
         /\ cache s' !! key = Some t
         /\ (length bcs <> 0 -> form_rank form = 2).
Proof.
  unfold AssemblyCache_assemble.
  destruct (forallb bc_is_DirichletBC bcs) eqn:Hbcs; cbn [negb].
  2: { intros [= <- <-]. split_and!; [done..|]. intros t [=]. }
  unfold mbind, M_bind, bind, gets, lift_result, cache_info, in_world,
    modify, ret, raise.
  destruct (AssemblyCache_key form _ bcs sym zc) as [key|e] eqn:Hkey.
  2: { intros [= <- <-]. split_and!; [done..|]. intros t [=]. }
  intros Hrun.
  repeat (case_match; simplify_eq; cbn in *; simplify_map_eq);
    (split_and!;
     [ try done; try (by apply insert_subseteq)
     | done
     | intros ? ?; simplify_eq; eexists; split_and!; eauto;
       try (by intros; apply bool_decide_eq_true; destruct (bool_decide _));
       try (by rewrite lookup_insert_eq) ]).
  all: intros Hne; try done.
  all: match goal with
       | Hb : negb (bool_decide _) = false |- _ =>
           apply negb_false_iff, bool_decide_eq_true in Hb; done
       | Hb : bool_decide _ = true |- _ =>
           by apply bool_decide_eq_true in Hb
       end.
Qed.

Lemma clear_keys_run (dep : Coefficient) (keys : list CacheKey)
    (s : CacheState) :
  exists s', clear_keys dep keys s = (Ok tt, s')
    /\ world s' = world s /\ form_compiler s' = form_compiler s
    /\ forall key,
         cache s' !! key
         = if decide (key ∈ keys /\ dep ∈ extract_coefficients key.1.1)
           then None else cache s !! key.
Proof.
  unfold clear_keys. revert s.
  induction keys as [|k keys IH]; intros s.
  - exists s. by split_and!.
  - cbn [for_each]. unfold bind at 1.
    destruct (bool_decide (dep ∈ extract_coefficients k.1.1)) eqn:Hdep.
    + cbn. destruct (IH (set_cache (delete k) s)) as (s' & Hrun & Hw & Hf & Hl).
      exists s'. split_and!; try done. intros key. rewrite Hl. cbn.
      apply bool_decide_eq_true in Hdep.
      destruct (decide (key = k)) as [Heq|Hne].
      * subst key. rewrite lookup_delete_eq.
        rewrite (decide_True (P := k ∈ k :: keys /\ _)).
        -- by destruct (decide _).
        -- split; [apply elem_of_cons; by left|done].
      * rewrite lookup_delete_ne by done.
        apply decide_ext. rewrite elem_of_cons. intuition congruence.
    + cbn. destruct (IH s) as (s' & Hrun & Hw & Hf & Hl).
      exists s'. split_and!; try done. intros key. rewrite Hl.
      apply bool_decide_eq_false in Hdep.
      apply decide_ext. rewrite elem_of_cons. intuition (subst; done).
Qed.

Lemma clear_one_run (dep : Coefficient) (s : CacheState) :
  exists s',
    (keys ← gets (fun s => (map_to_list (cache s)).*1) ;
     clear_keys dep keys) s = (Ok tt, s')
    /\ world s' = world s /\ form_compiler s' = form_compiler s
    /\ forall key,
         cache s' !! key
         = if decide (dep ∈ extract_coefficients key.1.1)
           then None else cache s !! key.
Proof.
  destruct (clear_keys_run dep (map_to_list (cache s)).*1 s)
    as (s' & Hrun & Hw & Hf & Hl).
  exists s'. split_and!; try done. intros key. rewrite Hl.
  destruct (decide (dep ∈ extract_coefficients key.1.1)) as [Hdep|Hdep].
  - destruct (cache s !! key) as [t|] eqn:Hk.
    + rewrite decide_True; [done|]. split; [|done].
      apply list_elem_of_fmap. exists (key, t). split; [done|].
      by apply elem_of_map_to_list.
    + by destruct (decide _).
  - rewrite decide_False; [done|]. by intros [_ ?].
Qed.

Lemma for_each_cache {A} (xs : list A) (body : A -> M CacheState unit) :
  (forall x s r s', body x s = (r, s') -> cache s' = cache s) ->
  forall s r s', for_each xs body s = (r, s') -> cache s' = cache s.
Proof.
  intros Hbody. induction xs as [|x xs IH]; intros s r s' Hrun.
  - by inversion Hrun.
  - cbn [for_each] in Hrun. unfold bind in Hrun.
    destruct (body x s) as [[[]|e] s1] eqn:Hx.
    + apply IH in Hrun. apply Hbody in Hx. congruence.
    + inversion Hrun; subst. by eapply Hbody.
Qed.

Lemma AssemblyCache_info_cache (s : CacheState) r s' :
  AssemblyCache_info s = (r, s') -> cache s' = cache s.
Proof.
  unfold AssemblyCache_info, mbind, M_bind, bind, gets, lift_result,
    dolfin_info, modify.
  destruct (foldl _ _ _) as [counts|e]; [|by inversion 1].
  intros Hrun. eapply for_each_cache in Hrun; [exact Hrun|].
  intros [i n] s0 r0 s0'. by inversion 1.
Qed.

Lemma clear_args_run (args : list Coefficient) (s : CacheState) :
  exists s',
    for_each args (fun dep =>
      keys ← gets (fun s => (map_to_list (cache s)).*1) ;
      clear_keys dep keys) s = (Ok tt, s')
    /\ world s' = world s /\ form_compiler s' = form_compiler s
    /\ forall key,
         cache s' !! key
         = if decide (Exists (fun dep => dep ∈ extract_coefficients key.1.1)
                        args)
           then None else cache s !! key.
Proof.
  revert s. induction args as [|dep args IH]; intros s.
  - exists s. by split_and!.
  - destruct (clear_one_run dep s) as (s1 & Hrun1 & Hw1 & Hf1 & Hl1).
    destruct (IH s1) as (s' & Hrun & Hw & Hf & Hl).
    exists s'. cbn [for_each]. unfold bind at 1.
    unfold clear_keys in *. rewrite Hrun1. split_and!; try congruence.
    intros key. rewrite Hl, Hl1.
    destruct (decide (dep ∈ extract_coefficients key.1.1)) as [Hd|Hd].
    + rewrite (decide_True (P := Exists _ (dep :: args)))
        by (by apply Exists_cons_hd).
      by destruct (decide _).
    + apply decide_ext. rewrite Exists_cons. tauto.
Qed.

Lemma clear_check_Ok (args : list Coefficient) (s : CacheState) :
  Forall (fun dep => is_Constant_or_Function dep = true) args ->
  for_each args (fun dep =>
    if is_Constant_or_Function dep then ret tt
    else raise (InvalidArgumentException
                  "Arguments must be Constant s or Function s")) s
  = (Ok tt, s).
Proof.
  induction 1 as [|dep args Hd _ IH]; [done|].
  cbn [for_each]. by rewrite Hd.
Qed.

Lemma clear_check_Raise (args : list Coefficient) (s : CacheState) :
  Exists (fun dep => is_Constant_or_Function dep = false) args ->
  for_each args (fun dep =>
    if is_Constant_or_Function dep then ret tt
    else raise (InvalidArgumentException
                  "Arguments must be Constant s or Function s")) s
  = (Raise (InvalidArgumentException
              "Arguments must be Constant s or Function s"), s).
Proof.
  induction args as [|dep args IH]; intros Hex.
  - by apply Exists_nil in Hex.
  - cbn [for_each].
    destruct (is_Constant_or_Function dep) eqn:Hd; [|done].
    apply Exists_cons in Hex as [Hex|Hex]; [congruence|].
    unfold bind. cbn. by apply IH.
Qed.

(** A call whose key is not in the cache runs the assembly: [assemble], or
    with boundary conditions [assemble_symmetric_bcs] or [assemble]
    followed by [apply_bcs]; what that returns is stored under the key and
    returned, and an exception of the assembly leaves the cache as it
    was. *)
Lemma AssemblyCache_assemble_miss (form : Form) (fcp : Parameters)
    (bcs : list BC) (sym zc : bool) (s : CacheState) (key : CacheKey)
    (r : result Tensor) (w' : World) :
  AssemblyCache_key form (parameters_update (form_compiler s) fcp) bcs sym zc
  = Ok key ->
  cache s !! key = None ->
  (length bcs <> 0 -> form_rank form = 2) ->
  (if decide (length bcs = 0) then
     ts_assemble form (parameters_update (form_compiler s) fcp)
   else if sym && negb zc then
     assemble_symmetric_bcs form bcs
       (parameters_update (form_compiler s) fcp)
   else
     mat ← ts_assemble form (parameters_update (form_compiler s) fcp) ;
     apply_bcs mat bcs None sym ;;
     ret mat) (world s) = (r, w') ->
  exists s',
    AssemblyCache_assemble form fcp bcs sym zc s = (r, s')
    /\ world s' = w'
    /\ cache s' = match r with
                  | Ok t => <[key := t]> (cache s)
                  | Raise _ => cache s
                  end.
Proof.
  intros Hkey Hmiss Hrank Hasm. unfold AssemblyCache_assemble.
  destruct (AssemblyCache_key_Ok _ _ _ _ _ _ Hkey) as [Hbcs _].
  rewrite Hbcs. cbn [negb].
  unfold mbind, M_bind, bind, gets, lift_result, cache_info, in_world,
    modify, ret in *.
  rewrite Hkey.
  destruct (decide (length bcs = 0)) as [Hlen|Hlen].
  - rewrite Hmiss.
    destruct (verbose s); cbn; rewrite Hasm; destruct r as [t|e]; cbn;
      rewrite ?lookup_insert_eq; eexists; split_and!; done.
  - rewrite Hrank by done. rewrite bool_decide_eq_true_2 by done. cbn [negb].
    rewrite Hmiss.
    destruct (sym && negb zc).
    + destruct (verbose s); cbn; rewrite Hasm; destruct r as [t|e]; cbn;
        rewrite ?lookup_insert_eq; eexists; split_and!; done.
    + destruct (verbose s); cbn;
        destruct (ts_assemble form _ (world s)) as [[mat|e] w1]; cbn;
        simplify_eq; cbn; try (eexists; split_and!; done);
        destruct (apply_bcs mat bcs None sym w1) as [[[]|e] w2]; cbn;
        simplify_eq; cbn; rewrite ?lookup_insert_eq;
        eexists; split_and!; done.
Qed.
(** C7. [AssemblyCache.assemble] is keyed by the structural key alone: a
    call whose key (form key, key of the updated form compiler parameters,
    boundary condition key) is not in the cache assembles the form and
    stores the object under the key; once a call has returned, any later
    call whose key is the same returns the object cached then and leaves
    the cache and the numerical state untouched, whatever the coefficient
    values have become in the meantime.  [assemble] and [info] remove no
    entry; [clear()] empties the cache, and [clear(dep, ...)] removes
    exactly the entries whose form has one of the arguments among its
    extracted coefficients (an argument that is neither a Constant nor a
    Function is refused, and then nothing is removed). *)
Theorem AssemblyCache_keyed_by_structure_and_cleared_explicitly :
  (* a call whose key is not cached assembles, stores the object under the
     key and returns it *)
  (forall form fcp bcs sym zc s key r w',
     AssemblyCache_key form (parameters_update (form_compiler s) fcp)
       bcs sym zc = Ok key ->
     cache s !! key = None ->
     (length bcs <> 0 -> form_rank form = 2) ->
     (if decide (length bcs = 0) then
        ts_assemble form (parameters_update (form_compiler s) fcp)
      else if sym && negb zc then
        assemble_symmetric_bcs form bcs
          (parameters_update (form_compiler s) fcp)
      else
        mat ← ts_assemble form (parameters_update (form_compiler s) fcp) ;
        apply_bcs mat bcs None sym ;;
        ret mat) (world s) = (r, w') ->
     exists s',
       AssemblyCache_assemble form fcp bcs sym zc s = (r, s')
       /\ world s' = w'
       /\ cache s' = match r with
                     | Ok t => <[key := t]> (cache s)
                     | Raise _ => cache s
                     end)
  (* a call with the key of an earlier call returns the object cached then,
     whatever the numerical state has become *)
  /\ (forall form fcp bcs sym zc s t s1,
        AssemblyCache_assemble form fcp bcs sym zc s = (Ok t, s1) ->
        forall w' form' fcp' bcs' sym' zc',
          AssemblyCache_key form' (parameters_update (form_compiler s1) fcp')
            bcs' sym' zc'
          = AssemblyCache_key form (parameters_update (form_compiler s1) fcp)
              bcs sym zc ->
          (length bcs' <> 0 -> form_rank form' = 2) ->
          exists s2,
            AssemblyCache_assemble form' fcp' bcs' sym' zc' (set_world w' s1)
            = (Ok t, s2)
            /\ cache s2 = cache s1 /\ world s2 = w')
  (* assemble and info remove nothing *)
  /\ (forall form fcp bcs sym zc s r s',
        AssemblyCache_assemble form fcp bcs sym zc s = (r, s') ->
        cache s ⊆ cache s')
  /\ (forall s r s', AssemblyCache_info s = (r, s') -> cache s' = cache s)
  (* clear() empties the cache *)
  /\ (forall s, AssemblyCache_clear [] s = (Ok tt, set_cache (fun _ => ∅) s))
  (* clear(dep, ...) removes the entries whose form has one of the
     arguments among its coefficients, and no other *)
  /\ (forall args s,
        args <> [] ->
        Forall (fun dep => is_Constant_or_Function dep = true) args ->
        exists s',
          AssemblyCache_clear args s = (Ok tt, s')
          /\ world s' = world s
          /\ forall key,
               cache s' !! key
               = if decide (Exists (fun dep =>
                                      dep ∈ extract_coefficients key.1.1)
                               args)
                 then None else cache s !! key)
  (* an argument of another class is refused and nothing is removed *)
  /\ (forall args s,
        Exists (fun dep => is_Constant_or_Function dep = false) args ->
        AssemblyCache_clear args s
        = (Raise (InvalidArgumentException
                    "Arguments must be Constant s or Function s"), s)).
Proof.
  split_and!.
  - intros form fcp bcs sym zc s key r w'. apply AssemblyCache_assemble_miss.
  - intros form fcp bcs sym zc s t s1 Hrun w' form' fcp' bcs' sym' zc'
      Hkey Hrank.
    apply AssemblyCache_assemble_inv in Hrun as (_ & Hf & Hok).
    destruct (Hok t eq_refl) as (key & Hk & Hlook & _).
    rewrite <- Hf in Hk. rewrite Hk in Hkey.
    destruct (AssemblyCache_assemble_hit form' fcp' bcs' sym' zc'
                (set_world w' s1) key t) as (s2 & Hrun2 & Hc & Hw & _);
      try done.
    exists s2. by split_and!.
  - intros form fcp bcs sym zc s r s' Hrun.
    by apply AssemblyCache_assemble_inv in Hrun as (? & _).
  - intros s r s'. apply AssemblyCache_info_cache.
  - reflexivity.
  - intros args s Hne Hok. unfold AssemblyCache_clear.
    destruct (decide (length args = 0)) as [Hlen|Hlen].
    { by destruct args. }
    destruct (clear_args_run args s) as (s' & Hrun & Hw & _ & Hl).
    exists s'. split_and!; try done.
    unfold mbind, M_bind, bind. rewrite clear_check_Ok by done. exact Hrun.
  - intros args s Hex. unfold AssemblyCache_clear.
    destruct (decide (length args = 0)) as [Hlen|Hlen].
    { destruct args; [by apply Exists_nil in Hex|done]. }
    unfold mbind, M_bind, bind. by rewrite clear_check_Raise.
Qed.

End caches_properties.

(** * Properties of the rest of the sources *)

Section extraction_properties.
Context {BE : Backend} {ABE : AdjointBackend}.

Lemma result_bind_not_limit {A B} (r : result A) (k : A -> result B) :
  r ≫= k <> Raise recursion_limit ->
  r <> Raise recursion_limit.
Proof. intros Hk ->. by apply Hk. Qed.

Lemma check_mul_and_division_unfold (n : nat) (e : Expr)
    (lc : list (Coefficient * float)) (sw : float) (mi : option MultiIndex) :
  _check_mul_and_division_fuel (S n) e lc sw mi
  = '(sw', expr) ← split_scalar e sw ;
    '(expr, mi2) ← unpack_indexed expr mi ;
    dispatch_operand (_check_mul_and_division_fuel n)
      (_check_and_extract_functions_fuel n) expr lc sw' mi mi2.
Proof. reflexivity. Qed.

Lemma dispatch_operand_stable
    (G F G' F' : Expr -> list (Coefficient * float) -> float ->
                 option MultiIndex -> result (list (Coefficient * float)))
    (expr : Expr) (lc : list (Coefficient * float)) (sw : float)
    (mi mi2 : option MultiIndex) :
  (forall e lc sw mi r, F e lc sw mi = r -> r <> Raise recursion_limit ->
                        F' e lc sw mi = r) ->
  (forall e lc sw mi r, G e lc sw mi = r -> r <> Raise recursion_limit ->
                        G' e lc sw mi = r) ->
  dispatch_operand G F expr lc sw mi mi2 <> Raise recursion_limit ->
  dispatch_operand G' F' expr lc sw mi mi2
  = dispatch_operand G F expr lc sw mi mi2.
Proof.
  intros HF HG Hr. unfold dispatch_operand in *.
  destruct expr; try reflexivity.
  - cbn in *. by apply HG.
  - cbn in *. by apply HG.
  - cbn in *. by apply HF.
  - destruct mi2 as [mi2|]; [|reflexivity].
    destruct (same_multi_index mi0 mi2); [|reflexivity].
    cbn in *. destruct expr; try reflexivity.
    + by apply HG.
    + by apply HG.
    + by apply HF.
Qed.

Lemma extract_fuel_stable (n : nat) :
  (forall e lc sw mi r,
     _check_and_extract_functions_fuel n e lc sw mi = r ->
     r <> Raise recursion_limit ->
     _check_and_extract_functions_fuel (S n) e lc sw mi = r)
  /\ (forall e lc sw mi r,
        _check_mul_and_division_fuel n e lc sw mi = r ->
        r <> Raise recursion_limit ->
        _check_mul_and_division_fuel (S n) e lc sw mi = r).
Proof.
  induction n as [|n [IHF IHG]].
  - split; intros e lc sw mi r <- Hr; by destruct Hr.
  - split.
    + intros e lc sw mi r <- Hr.
      destruct e; try reflexivity;
        change (_check_and_extract_functions_fuel (S (S n)) ?e lc sw mi)
          with (_check_and_extract_functions_fuel (S (S n)) e lc sw mi).
      * apply (IHG (EProduct e1 e2)); [reflexivity|exact Hr].
      * apply (IHG (EDivision e1 e2)); [reflexivity|exact Hr].
      * change (_check_and_extract_functions_fuel (S n) (ESum e1 e2) lc sw mi)
          with (_check_and_extract_functions_fuel n e1 lc sw mi ≫= fun lc1 =>
                _check_and_extract_functions_fuel n e2 lc1 sw mi) in *.
        change (_check_and_extract_functions_fuel (S (S n)) (ESum e1 e2) lc sw mi)
          with (_check_and_extract_functions_fuel (S n) e1 lc sw mi ≫= fun lc1 =>
                _check_and_extract_functions_fuel (S n) e2 lc1 sw mi).
        rewrite (IHF e1 lc sw mi _ eq_refl)
          by (by eapply result_bind_not_limit).
        destruct (_check_and_extract_functions_fuel n e1 lc sw mi)
          as [lc1|err]; [|reflexivity].
        cbn in *. by apply IHF.
      * apply (IHG e lc sw (Some mi0)); [reflexivity|exact Hr].
    + intros e lc sw mi r <- Hr.
      rewrite !check_mul_and_division_unfold in *.
      destruct (split_scalar e sw) as [[sw' expr]|err]; [|reflexivity].
      cbn in *.
      destruct (unpack_indexed expr mi) as [[expr' mi2]|err]; [|reflexivity].
      cbn in *.
      by apply dispatch_operand_stable.
Qed.

Lemma expr_size_pos (e : Expr) : 0 < expr_size e.
Proof. destruct e; cbn; lia. Qed.

Lemma py_float_not_limit (e : Expr) {B} (k : float -> result B) :
  (forall x, k x <> Raise recursion_limit) ->
  py_float e ≫= k <> Raise recursion_limit.
Proof.
  intros Hk. destruct e; cbn; try done.
  destruct (decide _); cbn; [apply Hk|done].
Qed.

Lemma split_scalar_size (e : Expr) (sw sw' : float) (expr : Expr) :
  split_scalar e sw = Ok (sw', expr) -> expr_size expr + 2 <= expr_size e.
Proof.
  unfold split_scalar. intros Hs.
  destruct e as [| | |op0 op1|op0 op1| | | |]; try discriminate.
  - pose proof (expr_size_pos op0). pose proof (expr_size_pos op1).
    repeat case_match; try discriminate;
      destruct (py_float _); cbn in Hs; simplify_eq; cbn; lia.
  - pose proof (expr_size_pos op1).
    repeat case_match; try discriminate;
      destruct (py_float _); cbn in Hs; simplify_eq; cbn; lia.
Qed.

Lemma split_scalar_not_limit (e : Expr) (sw : float) :
  split_scalar e sw <> Raise recursion_limit.
Proof.
  unfold split_scalar.
  destruct e as [| | |op0 op1|op0 op1| | | |]; try done.
  - repeat case_match; try done; by apply py_float_not_limit.
  - repeat case_match; try done; by apply py_float_not_limit.
Qed.

Lemma unpack_indexed_size (expr : Expr) (mi : option MultiIndex)
    (expr' : Expr) (mi2 : option MultiIndex) :
  unpack_indexed expr mi = Ok (expr', mi2) -> expr_size expr' <= expr_size expr.
Proof.
  unfold unpack_indexed. intros Hu.
  repeat case_match; simplify_eq; cbn; lia.
Qed.

Lemma unpack_indexed_not_limit (expr : Expr) (mi : option MultiIndex) :
  unpack_indexed expr mi <> Raise recursion_limit.
Proof. unfold unpack_indexed. by repeat case_match. Qed.

Lemma extract_fuel_adequate (n : nat) :
  (forall e lc sw mi,
     2 * expr_size e <= n ->
     _check_and_extract_functions_fuel n e lc sw mi <> Raise recursion_limit)
  /\ (forall e lc sw mi,
        2 * expr_size e <= S n ->
        _check_mul_and_division_fuel n e lc sw mi <> Raise recursion_limit).
Proof.
  induction n as [|n [IHF IHG]].
  - split; intros e lc sw mi Hn; pose proof (expr_size_pos e); lia.
  - split.
    + intros e lc sw mi Hn. destruct e; try done.
      * apply IHG. lia.
      * apply IHG. lia.
      * change (_check_and_extract_functions_fuel (S n) (ESum e1 e2) lc sw mi)
          with (_check_and_extract_functions_fuel n e1 lc sw mi ≫= fun lc1 =>
                _check_and_extract_functions_fuel n e2 lc1 sw mi).
        cbn in Hn.
        destruct (_check_and_extract_functions_fuel n e1 lc sw mi)
          as [lc1|err] eqn:H1; cbn.
        -- apply IHF. lia.
        -- intros Heq. apply (IHF e1 lc sw mi); [lia|]. exact (eq_trans H1 Heq).
      * apply (IHG e lc sw (Some mi0)). cbn in Hn. lia.
    + intros e lc sw mi Hn. rewrite check_mul_and_division_unfold.
      destruct (split_scalar e sw) as [[sw' expr]|err] eqn:Hs; cbn.
      2:{ intros [= ->]. by apply (split_scalar_not_limit e sw). }
      apply split_scalar_size in Hs.
      destruct (unpack_indexed expr mi) as [[expr' mi2]|err] eqn:Hu; cbn.
      2:{ intros [= ->]. by apply (unpack_indexed_not_limit expr mi). }
      apply unpack_indexed_size in Hu.
      unfold dispatch_operand. destruct expr'; try done; cbn in *.
      * apply IHG. cbn. lia.
      * apply IHG. cbn. lia.
      * apply IHF. cbn. lia.
      * destruct mi2 as [mi2|]; [|done].
        destruct (same_multi_index mi0 mi2); [|done].
        cbn. destruct expr'; try done.
        -- apply IHG. cbn in *. lia.
        -- apply IHG. cbn in *. lia.
        -- apply IHF. cbn in *. lia.
Qed.

(** More fuel than the expression needs changes nothing. *)
Lemma extract_fuel_enough (n : nat) (e : Expr)
    (lc : list (Coefficient * float)) (sw : float) (mi : option MultiIndex) :
  2 * expr_size e <= n ->
  _check_and_extract_functions_fuel n e lc sw mi
  = _check_and_extract_functions_from e lc sw mi.
Proof.
  unfold _check_and_extract_functions_from.
  induction n as [|n IH]; intros Hn.
  - pose proof (expr_size_pos e). lia.
  - destruct (decide (2 * expr_size e = S n)) as [->|Hne]; [done|].
    rewrite <- IH by lia.
    apply (extract_fuel_stable n); [done|].
    apply extract_fuel_adequate. lia.
Qed.

Lemma check_mul_fuel_enough (n m : nat) (e : Expr)
    (lc : list (Coefficient * float)) (sw : float) (mi : option MultiIndex) :
  2 * expr_size e <= S n -> n <= m ->
  _check_mul_and_division_fuel m e lc sw mi
  = _check_mul_and_division_fuel n e lc sw mi.
Proof.
  intros Hn Hm. induction Hm as [|m Hm IH]; [done|].
  rewrite <- IH. apply (extract_fuel_stable m); [done|].
  rewrite IH. by apply extract_fuel_adequate.
Qed.

Lemma extract_from_mul (e : Expr) (lc : list (Coefficient * float))
    (sw : float) (mi : option MultiIndex) :
  match e with EProduct _ _ | EDivision _ _ => True | _ => False end ->
  _check_and_extract_functions_from e lc sw mi
  = _check_mul_and_division_fuel (2 * expr_size e - 1) e lc sw mi.
Proof.
  unfold _check_and_extract_functions_from. pose proof (expr_size_pos e).
  replace (2 * expr_size e) with (S (2 * expr_size e - 1)) at 1 by lia.
  by destruct e.
Qed.

Lemma dispatch_operand_from (n : nat) (e : Expr)
    (lc : list (Coefficient * float)) (sw : float) (mi : option MultiIndex) :
  is_Function_or_algebra e = true -> 2 * expr_size e <= n ->
  dispatch_operand (_check_mul_and_division_fuel n)
    (_check_and_extract_functions_fuel n) e lc sw mi None
  = _check_and_extract_functions_from e lc sw mi.
Proof.
  intros He Hn. destruct e; try discriminate; cbn [dispatch_operand mbind
    result_bind].
  - reflexivity.
  - rewrite extract_from_mul by done. apply check_mul_fuel_enough; lia.
  - rewrite extract_from_mul by done. apply check_mul_fuel_enough; lia.
  - by apply extract_fuel_enough.
Qed.

Lemma extract_from_split (e expr : Expr) (lc : list (Coefficient * float))
    (sw sw' : float) (mi : option MultiIndex) :
  match e with EProduct _ _ | EDivision _ _ => True | _ => False end ->
  split_scalar e sw = Ok (sw', expr) ->
  multi_index_true mi = false ->
  is_Function_or_algebra expr = true ->
  _check_and_extract_functions_from e lc sw mi
  = _check_and_extract_functions_from expr lc sw' mi.
Proof.
  intros He Hs Hmi Hexpr. rewrite extract_from_mul by done.
  pose proof (split_scalar_size _ _ _ _ Hs) as Hsize.
  replace (2 * expr_size e - 1) with (S (2 * expr_size e - 2)) by lia.
  rewrite check_mul_and_division_unfold, Hs. cbn.
  unfold unpack_indexed. rewrite Hmi. cbn.
  apply dispatch_operand_from; [done|lia].
Qed.

(** X1.  The extraction of the linear combination follows the expression:
    a Function contributes itself with the weight collected so far, a Sum
    the contributions of its first operand followed by those of its
    second, and a Product with or a Division by a number what its other
    operand contributes with the weight multiplied or divided by the
    number, whichever side of the Product the number is on. *)
Theorem check_and_extract_functions_follows_expression :
  (forall e mi,
     _check_and_extract_functions e mi
     = _check_and_extract_functions_from e [] 1 mi)
  /\ (forall f lc sw mi,
        _check_and_extract_functions_from (EFunction f) lc sw mi
        = Ok (lc ++ [(f, sw)]))
  /\ (forall a b lc sw mi,
        _check_and_extract_functions_from (ESum a b) lc sw mi
        = lc1 ← _check_and_extract_functions_from a lc sw mi ;
          _check_and_extract_functions_from b lc1 sw mi)
  /\ (forall w e lc sw mi,
        multi_index_true mi = false ->
        is_Function_or_algebra e = true ->
        _check_and_extract_functions_from (EProduct (EScalarValue w) e)
          lc sw mi
        = _check_and_extract_functions_from e lc (sw * w) mi
        /\ _check_and_extract_functions_from (EProduct e (EScalarValue w))
             lc sw mi
           = _check_and_extract_functions_from e lc (sw * w) mi
        /\ _check_and_extract_functions_from (EDivision e (EScalarValue w))
             lc sw mi
           = _check_and_extract_functions_from e lc (sw / w) mi).
Proof.
  split_and!.
  - reflexivity.
  - reflexivity.
  - intros a b lc sw mi. unfold _check_and_extract_functions_from at 1.
    cbn [expr_size].
    replace (2 * S (expr_size a + expr_size b))
      with (S (2 * (expr_size a + expr_size b) + 1)) by lia.
    change (_check_and_extract_functions_fuel (S ?n) (ESum a b) lc sw mi)
      with (_check_and_extract_functions_fuel n a lc sw mi ≫= fun lc1 =>
            _check_and_extract_functions_fuel n b lc1 sw mi).
    rewrite extract_fuel_enough by lia.
    destruct (_check_and_extract_functions_from a lc sw mi); [|done].
    cbn. apply extract_fuel_enough. lia.
  - intros w e lc sw mi Hmi He. split_and!.
    + by apply extract_from_split.
    + apply extract_from_split; try done. by destruct e.
    + by apply extract_from_split.
Qed.

Lemma extract_from_split_Raise (e : Expr) (lc : list (Coefficient * float))
    (sw : float) (mi : option MultiIndex) (err : exn) :
  match e with EProduct _ _ | EDivision _ _ => True | _ => False end ->
  split_scalar e sw = Raise err ->
  _check_and_extract_functions_from e lc sw mi = Raise err.
Proof.
  intros He Hs. rewrite extract_from_mul by done.
  pose proof (expr_size_pos e).
  replace (2 * expr_size e - 1) with (S (2 * expr_size e - 2)) by lia.
  by rewrite check_mul_and_division_unfold, Hs.
Qed.

(** X2.  What is not a linear combination is refused with the
    [AssertionError] of [_assign_error]: a Product neither operand of which
    is a number (so every product of two Functions), a Division by
    anything but a [ScalarValue] or a [Constant], and an expression that is
    a bare number, a bare [Constant], an [Indexed] or an object of another
    class. *)
Theorem check_and_extract_functions_refuses_nonlinear
    (lc : list (Coefficient * float)) (sw : float)
    (mi : option MultiIndex) :
  (forall a b,
     is_scalar_operand a = false -> is_scalar_operand b = false ->
     _check_and_extract_functions_from (EProduct a b) lc sw mi
     = Raise (AssertionError ""))
  /\ (forall e d,
        match d with EScalarValue _ | EConstant _ => False | _ => True end ->
        _check_and_extract_functions_from (EDivision e d) lc sw mi
        = Raise (AssertionError ""))
  /\ (forall e,
        match e with
        | EScalarValue _ | EConstant _ | EIndexed _ _ | EOther _ => True
        | _ => False
        end ->
        _check_and_extract_functions_from e lc sw mi
        = Raise (AssertionError "")).
Proof.
  split_and!.
  - intros a b Ha Hb. apply extract_from_split_Raise; [done|].
    unfold split_scalar. fold (is_scalar_operand a) (is_scalar_operand b).
    by rewrite Ha, Hb.
  - intros e d Hd. apply extract_from_split_Raise; [done|].
    by destruct d.
  - intros e He. by destruct e.
Qed.

(** X3.  A [Constant] is taken as the number of a Product when its
    [value_size()] is 1, but as the number of a Division only when its
    [value_rank()] is 1: a scalar Constant [c] (size 1, rank 0) gives
    [c * e] the weight multiplied by its value, in either order of the
    operands, while [e / c] is refused with [AssertionError]; and dividing
    by a Constant never succeeds, since one of rank 1 is not converted by
    [float]. *)
Theorem scalar_Constant_multiplies_but_does_not_divide
    (c : Constant) (e : Expr) (lc : list (Coefficient * float)) (sw : float)
    (mi : option MultiIndex) :
  (value_size c = 1 -> value_rank c = 0 ->
   multi_index_true mi = false -> is_Function_or_algebra e = true ->
   _check_and_extract_functions_from (EProduct (EConstant c) e) lc sw mi
   = _check_and_extract_functions_from e lc (sw * constant_value c) mi
   /\ _check_and_extract_functions_from (EProduct e (EConstant c)) lc sw mi
      = _check_and_extract_functions_from e lc (sw * constant_value c) mi)
  /\ (value_rank c <> 1 ->
      _check_and_extract_functions_from (EDivision e (EConstant c)) lc sw mi
      = Raise (AssertionError ""))
  /\ (exists err,
        _check_and_extract_functions_from (EDivision e (EConstant c)) lc sw mi
        = Raise err).
Proof.
  split_and!.
  - intros Hsize Hrank Hmi He. split.
    + apply extract_from_split; try done.
      cbn. rewrite bool_decide_eq_true_2 by done.
      by rewrite decide_True.
    + apply extract_from_split; try done.
      unfold split_scalar. fold (is_scalar_operand e).
      replace (is_scalar_operand e) with false by (by destruct e).
      cbn. rewrite bool_decide_eq_true_2 by done.
      by rewrite decide_True.
  - intros Hrank. apply extract_from_split_Raise; [done|].
    cbn. by rewrite bool_decide_eq_false_2.
  - destruct (decide (value_rank c = 1)) as [Hrank|Hrank].
    + eexists. apply extract_from_split_Raise; [done|].
      cbn. rewrite bool_decide_eq_true_2 by done.
      rewrite decide_False by lia. reflexivity.
    + eexists. apply extract_from_split_Raise; [done|].
      cbn. rewrite bool_decide_eq_false_2 by done. reflexivity.
Qed.

(** X4.  A number times a [ComponentTensor], reached without a multi-index
    (as from [Function.assign]), does not end in [_assign_error]: the
    branch compares with [multi_index2], which is only bound when a
    multi-index was passed, so the call raises [UnboundLocalError]; and
    when a multi-index was passed and the two do not match, it calls
    [_error], a name that is not defined. *)
Theorem number_times_ComponentTensor_reads_unbound_names
    (w : float) (e : Expr) (mi' : MultiIndex)
    (lc : list (Coefficient * float)) (sw : float) :
  (forall mi,
     multi_index_true mi = false ->
     _check_and_extract_functions_from
       (EProduct (EScalarValue w) (EComponentTensor e mi')) lc sw mi
     = Raise (Exn "UnboundLocalError"
                "local variable 'multi_index2' referenced before assignment"))
  /\ (forall mi mi2,
        multi_index_true (Some mi) = true ->
        same_multi_index mi mi2 = true ->
        same_multi_index mi' mi2 = false ->
        _check_and_extract_functions_from
          (EProduct (EScalarValue w) (EIndexed (EComponentTensor e mi') mi2))
          lc sw (Some mi)
        = Raise (NameError "global name '_error' is not defined")).
Proof.
  split.
  - intros mi Hmi. rewrite extract_from_mul by done.
    cbn [expr_size].
    replace (2 * S (1 + S (expr_size e)) - 1) with (S (2 * expr_size e + 4))
      by lia.
    rewrite check_mul_and_division_unfold. cbn.
    unfold unpack_indexed. by rewrite Hmi.
  - intros mi mi2 Hmi Hsame Hdiff. rewrite extract_from_mul by done.
    cbn [expr_size].
    replace (2 * S (1 + S (S (expr_size e))) - 1)
      with (S (2 * expr_size e + 6)) by lia.
    rewrite check_mul_and_division_unfold. cbn.
    unfold unpack_indexed. rewrite Hmi, Hsame. cbn. by rewrite Hdiff.
Qed.

End extraction_properties.

Section contraction_properties.
Context {BE : Backend} {ABE : AdjointBackend}.

Lemma contract_loop_spec (linear_comb : list (Coefficient * float))
    (funcs : list Coefficient) (weights : list float)
    (funcspace : option FunctionSpace)
    (funcs' : list Coefficient) (weights' : list float) :
  NoDup funcs -> length funcs = length weights ->
  contract_loop linear_comb funcs weights funcspace = Ok (funcs', weights') ->
  NoDup funcs' /\ length funcs' = length weights'
  /\ (forall f, f ∈ funcs' <-> f ∈ funcs \/ f ∈ (linear_comb.*1)).
Proof.
  revert funcs weights funcspace.
  induction linear_comb as [|[func weight] linear_comb IH];
    intros funcs weights funcspace Hnd Hlen Hrun.
  - cbn in Hrun. simplify_eq. split_and!; try done.
    intros f. rewrite elem_of_nil. tauto.
  - cbn [contract_loop] in Hrun.
    destruct (match funcspace with
              | Some V => Ok V
              | None => match function_space func with
                        | Some V => Ok V
                        | None => Raise (Exn "AttributeError" "function_space")
                        end
              end) as [V|err]; [|discriminate].
    cbn in Hrun.
    destruct (bool_decide (function_space func = Some V)); [|discriminate].
    cbn in Hrun.
    destruct (list_find (fun g => g = func) funcs) as [[ind g]|] eqn:Hfind.
    + apply list_find_Some in Hfind as (Hg & -> & _).
      apply IH in Hrun as (Hnd' & Hlen' & Hin); try done.
      2:{ by rewrite length_alter. }
      split_and!; try done. intros f. rewrite Hin, fmap_cons, elem_of_cons.
      cbn. split; [tauto|]. intros [?|[->|?]]; try tauto.
      left. by eapply list_elem_of_lookup_2.
    + apply list_find_None in Hfind.
      apply IH in Hrun as (Hnd' & Hlen' & Hin).
      * split_and!; try done. intros f.
        rewrite Hin, fmap_cons, elem_of_cons, elem_of_app,
          list_elem_of_singleton. cbn. tauto.
      * apply NoDup_app. split_and!; try done.
        -- intros f Hf ->%list_elem_of_singleton.
           rewrite Forall_forall in Hfind. by apply (Hfind func).
        -- apply NoDup_singleton.
      * rewrite !length_app. cbn. lia.
Qed.

Lemma zip_fst_eq {A B} (l : list A) (k : list B) :
  length l = length k -> (zip l k).*1 = l.
Proof. intros Hlen. apply fst_zip. lia. Qed.

(** X5.  [_check_and_contract_linear_comb] returns each Function once:
    the Functions of the result are those of the extracted combination,
    and where the assigned Function [self] is one of them, a new copy of
    it stands in its place, so [self] is never among the Functions of the
    right-hand side.  When [self] does not occur the state is left as it
    was. *)
Theorem contracted_linear_combination_excludes_self
    (expr : Expr) (self : Coefficient) (mi : option MultiIndex)
    (s s' : AdjState) (lincom : list (Coefficient * float)) :
  ufl_count self ∈ dom (vectors (heap s)) ->
  _check_and_contract_linear_comb expr self mi s = (Ok lincom, s') ->
  exists linear_comb,
    _check_and_extract_functions expr mi = Ok linear_comb
    /\ (self ∉ lincom.*1)
    /\ (forall f, f ∈ (linear_comb.*1) -> f <> self -> f ∈ (lincom.*1))
    /\ (self ∉ (linear_comb.*1) ->
        s' = s /\ NoDup (lincom.*1)
        /\ forall f, f ∈ (lincom.*1) <-> f ∈ (linear_comb.*1)).
Proof.
  intros Hself Hrun. unfold _check_and_contract_linear_comb in Hrun.
  apply bind_Ok_inv in Hrun as (linear_comb & s1 & Hm & Hrun).
  unfold lift_result in Hm. injection Hm as Hextract <-.
  exists linear_comb. split; [done|].
  apply bind_Ok_inv in Hrun as ([funcs weights] & s1 & Hm & Hrun).
  unfold lift_result in Hm. injection Hm as Hloop <-.
  apply contract_loop_spec in Hloop as (Hnd & Hlen & Hin);
    [|apply NoDup_nil_2|done].
  apply bind_Ok_inv in Hrun as (funcs' & s1 & Hm & Hrun).
  unfold ret in Hrun. injection Hrun as <- <-.
  destruct (list_find (fun func => func = self) funcs) as [[ind g]|] eqn:Hfind.
  - apply list_find_Some in Hfind as (Hg & -> & _).
    apply bind_Ok_inv in Hm as (copy & s2 & Hcp & Hm).
    unfold ret in Hm. injection Hm as <- <-.
    unfold Function_copy in Hcp.
    apply bind_Ok_inv in Hcp as (params & s3 & Hp & Hcp).
    unfold gets in Hp. injection Hp as <- <-.
    apply bind_Ok_inv in Hcp as (a & s3 & Hh & Hcp).
    unfold in_heap, backend_Function_copy in Hh. cbn in Hh.
    injection Hh as Ha _.
    apply bind_Ok_inv in Hcp as (u & s4 & _ & Hcp).
    unfold ret in Hcp. injection Hcp as -> _.
    assert (Hcopy : copy <> self).
    { intros <-. apply (is_fresh (dom (vectors (heap s)))).
      by rewrite <- Ha in Hself. }
    rewrite zip_fst_eq by (by rewrite length_insert).
    split_and!.
    + intros [i Hi]%list_elem_of_lookup.
      destruct (decide (i = ind)) as [->|Hne].
      * rewrite list_lookup_insert_eq in Hi
          by (by eapply lookup_lt_Some). by simplify_eq.
      * rewrite list_lookup_insert_ne in Hi by done.
        by apply Hne, (NoDup_lookup funcs i ind self).
    + intros f Hf Hne.
      assert (f ∈ funcs) as [i Hi]%list_elem_of_lookup.
      { apply Hin. by right. }
      apply list_elem_of_lookup. exists i.
      rewrite list_lookup_insert_ne; [done|]. intros ->. by simplify_eq.
    + intros Hnot. destruct Hnot.
      destruct (proj1 (Hin self)) as [Hnil|?];
        [by eapply list_elem_of_lookup_2| |done].
      by apply elem_of_nil in Hnil.
  - unfold ret in Hm. injection Hm as <- <-.
    rewrite zip_fst_eq by done.
    apply list_find_None in Hfind. rewrite Forall_forall in Hfind.
    split_and!.
    + intros Hs. by apply (Hfind self).
    + intros f Hf _. apply Hin. by right.
    + intros _. split_and!; try done.
      intros f. rewrite Hin, elem_of_nil. tauto.
Qed.

End contraction_properties.

Section assign_properties.
Context {BE : Backend} {ABE : AdjointBackend}.

(** X6.  The cases in which [Function.assign] does not annotate and is
    dolfin's own [assign], leaving the tape, the registry and the output
    as they were: annotation is off; or the caller did not insist and the
    right-hand side is not a Function (nor a Sum or Product, which are
    first examined); or the right-hand side is a Function of a space that
    prints differently, an interpolation, and then even when the caller
    insisted with [annotate=True]. *)
Theorem assign_without_annotation_is_dolfin_assign
    (self : Coefficient) (s : AdjState) :
  (forall other annotate,
     match other with
     | EFunction f => ufl_count f <> ufl_count self
     | _ => True
     end ->
     utils_to_annotate annotate (parameters_adjoint s) = false ->
     dolfin_adjoint_assign self other annotate s
     = (Ok tt, set_heap (dolfin_assign self other) s))
  /\ (forall other annotate,
        match other with
        | EFunction _ | ESum _ _ | EProduct _ _ => False
        | _ => True
        end ->
        annotate <> Some true ->
        dolfin_adjoint_assign self other annotate s
        = (Ok tt, set_heap (dolfin_assign self other) s))
  /\ (forall g annotate V V',
        ufl_count g <> ufl_count self ->
        function_space self = Some V -> function_space g = Some V' ->
        FunctionSpace_str V <> FunctionSpace_str V' ->
        dolfin_adjoint_assign self (EFunction g) annotate s
        = (Ok tt, set_heap (dolfin_assign self (EFunction g)) s)).
Proof.
  split_and!.
  - intros other annotate Hother Hann. unfold dolfin_adjoint_assign.
    replace (match other with
             | EFunction f => bool_decide (ufl_count f = ufl_count self)
             | _ => false
             end) with false
      by (destruct other; try done; by rewrite bool_decide_eq_false_2).
    unfold mbind, M_bind, bind, gets. by rewrite Hann.
  - intros other annotate Hother Hann. unfold dolfin_adjoint_assign.
    assert (His : is_not_True annotate = true).
    { unfold is_not_True. by rewrite bool_decide_eq_false_2. }
    destruct other; try done;
      unfold mbind, M_bind, bind, gets, mret, M_ret, ret;
      (destruct (utils_to_annotate annotate (parameters_adjoint s));
       cbn; [by rewrite His|done]).
  - intros g annotate V V' Hg HV HV' Hstr. unfold dolfin_adjoint_assign.
    rewrite bool_decide_eq_false_2 by done.
    unfold mbind, M_bind, bind, gets, mret, M_ret, ret.
    destruct (utils_to_annotate annotate (parameters_adjoint s)); cbn;
      [|done].
    rewrite HV, HV'. by rewrite bool_decide_eq_false_2.
Qed.

(** X7.  On a backend other than dolfin, assigning a Sum or a Product
    while annotation is on raises [LibadjointErrorNotImplemented] before
    anything is assigned or annotated, also when the caller did not ask
    for annotation ([annotate=None]). *)
Theorem assign_linear_combination_not_implemented_off_dolfin
    (self : Coefficient) (other : Expr) (annotate : option bool)
    (s : AdjState) :
  backend_name <> "dolfin" ->
  match other with ESum _ _ | EProduct _ _ => True | _ => False end ->
  utils_to_annotate annotate (parameters_adjoint s) = true ->
  dolfin_adjoint_assign self other annotate s
  = (Raise (LibadjointErrorNotImplemented
       "Cannot use Function.assign(linear combination of other Functions) yet."),
     s).
Proof.
  intros Hname Hother Hann. unfold dolfin_adjoint_assign.
  destruct other; try done;
    unfold mbind, M_bind, bind, gets; rewrite Hann; cbn;
    by rewrite bool_decide_eq_false_2.
Qed.

(** X8.  An assignment [self.assign(g)] between two Functions of one
    space, neither of which has a variable on the tape, is not annotated
    unless the caller insists: the registry forgets both, the assignment
    is dolfin's own, and no equation is registered.  (Initial conditions
    are annotated by the solve that first uses them.) *)
Theorem assign_of_unknown_functions_is_not_annotated
    (self g : Coefficient) (annotate : option bool) (V V' : FunctionSpace)
    (s : AdjState) :
  ufl_count g <> ufl_count self ->
  annotate <> Some true ->
  utils_to_annotate annotate (parameters_adjoint s) = true ->
  function_space self = Some V -> function_space g = Some V' ->
  FunctionSpace_str V = FunctionSpace_str V' ->
  variable_known (adjointer s)
    (CoeffStore_current (adj_variables s) (dolfin_adjoint_str self)) = false ->
  variable_known (adjointer s)
    (CoeffStore_current (adj_variables s) (dolfin_adjoint_str g)) = false ->
  exists s',
    dolfin_adjoint_assign self (EFunction g) annotate s = (Ok tt, s')
    /\ adjointer s' = adjointer s
    /\ heap s' = dolfin_assign self (EFunction g) (heap s)
    /\ adj_variables s'
       = CoeffStore_forget
           (CoeffStore_forget (adj_variables s) (dolfin_adjoint_str g))
           (dolfin_adjoint_str self).
Proof.
  intros Hg Hann Hto HV HV' Hstr Hself Hgk. unfold dolfin_adjoint_assign.
  rewrite bool_decide_eq_false_2 by done.
  assert (His : is_not_True annotate = true).
  { unfold is_not_True. by rewrite bool_decide_eq_false_2. }
  unfold mbind, M_bind, bind, gets, mret, M_ret, ret, adj_variables_get,
    print, modify, for_each, adj_variables_forget, in_heap.
  rewrite Hto. cbn. rewrite HV, HV'.
  rewrite bool_decide_eq_true_2 by done. cbn.
  rewrite Hself, Hgk, His. cbn.
  eexists. split; [reflexivity|]. by cbn.
Qed.

End assign_properties.

Section interpolate_properties.
Context {BE : Backend} {ABE : AdjointBackend} {IBE : InterpolateBackend}.

(** X9.  [Function.interpolate] annotates only when the caller passes
    [annotate=True]: with any other value it is dolfin's own [interpolate]
    and the tape, the registry and the output stay as they were, whatever
    the global annotation setting; with [annotate=True] while
    [stop_annotating] is set it raises [AssertionError] before
    interpolating; and with [annotate=True] otherwise, a call that returns
    has interpolated, registered the assignment, and recorded the new
    value of [self] for its current variable, whether or not [record_all]
    is set. *)
Theorem interpolate_annotates_only_on_request
    (self : Coefficient) (other : Expr) (s : AdjState) :
  (forall annotate,
     annotate <> Some true ->
     Function_interpolate self other annotate s
     = (Ok tt, set_heap (dolfin_interpolate self other) s))
  /\ (stop_annotating (parameters_adjoint s) = true ->
      Function_interpolate self other (Some true) s
      = (Raise (AssertionError
           "The user insisted on annotation, but stop_annotating is True."),
         s))
  /\ (forall s',
        stop_annotating (parameters_adjoint s) = false ->
        Function_interpolate self other (Some true) s = (Ok tt, s') ->
        exists s1,
          register_assign_interpolate self other
            (set_heap (dolfin_interpolate self other) s) = (Ok tt, s1)
          /\ heap s' = heap s1
          /\ adj_equations (adjointer s') = adj_equations (adjointer s1)
          /\ adj_storage (adjointer s')
             = <[CoeffStore_current (adj_variables s1)
                   (dolfin_adjoint_str self) :=
                   {| stored := function_vector (heap s1) self |}]>
                 (adj_storage (adjointer s1))).
Proof.
  split_and!.
  - intros annotate Hann.
    unfold Function_interpolate, dolfin_adjoint_interpolate.
    unfold mbind, M_bind, bind, gets, in_heap, modify, ret.
    rewrite bool_decide_eq_false_2 by done. reflexivity.
  - intros Hstop. unfold Function_interpolate.
    unfold mbind, M_bind, bind, gets. by rewrite Hstop.
  - intros s' Hstop Hrun.
    unfold Function_interpolate, dolfin_adjoint_interpolate in Hrun.
    unfold mbind, M_bind, bind, gets, in_heap, modify, ret,
      adj_variables_get, record_variable in Hrun.
    rewrite Hstop, bool_decide_eq_true_2 in Hrun by done. cbn in Hrun.
    change (set_heap _ s)
      with (set_heap (dolfin_interpolate self other) s) in Hrun.
    destruct (register_assign_interpolate self other _) as [[[]|err] s1]
      eqn:Hreg; [|discriminate Hrun].
    injection Hrun as <-. by exists s1.
Qed.

End interpolate_properties.

Section LinComRHS_properties.
Context {BE : Backend} {ABE : AdjointBackend}.

(** X10.  With symmetric boundary conditions on and a dolfin newer than
    1.2.0, [LinComRHS.derivative_action] with respect to the dependency
    at position [idx] returns the form [inner(riesz, v)*dx] of a new
    Function [riesz] on the space [V] of the contraction vector.  Its
    vector is what an LU solver gives for [weights[idx]] times the
    contraction vector: when [fsp_lu] has no entry under [str(V)], the
    solver of the mass matrix of [V], which is then entered under
    [str(V)]; when it has one, the solver stored there, made for whichever
    space first printed as [V] does, and [fsp_lu] stays as it was. *)
Theorem lincom_derivative_action_symmetric_bcs
    (self : LinComRHS) (dependencies : list Variable_)
    (values : list (Vector Coefficient)) (variable : Variable_)
    (cv : Vector Coefficient) (hermitian : bool) (s : AdjState)
    (idx : nat) (weight : float) (V : FunctionSpace) :
  symmetric_bcs (parameters_adjoint s) = true ->
  String.ltb "1.2.0" backend_version = true ->
  dependencies !! idx = Some variable ->
  (forall j, j < idx -> dependencies !! j <> Some variable) ->
  weights self !! idx = Some weight ->
  function_space (data cv) = Some V ->
  exists riesz h1 s',
    backend_Function V (heap s) = (Ok riesz, h1)
    /\ LinComRHS_derivative_action self dependencies values variable cv
         hermitian s
       = (Ok (mkVector (inr (inner_test_dx riesz))), s')
    /\ match fsp_lu s !! FunctionSpace_str V with
       | None =>
           function_vector (heap s') riesz
           = mass_lu_solve V
               (map (fun x => (weight * x)%float)
                  (function_vector h1 (data cv)))
           /\ fsp_lu s' = <[FunctionSpace_str V := V]> (fsp_lu s)
       | Some V' =>
           function_vector (heap s') riesz
           = mass_lu_solve V'
               (map (fun x => (weight * x)%float)
                  (function_vector h1 (data cv)))
           /\ fsp_lu s' = fsp_lu s
       end
    /\ adjointer s' = adjointer s /\ adj_variables s' = adj_variables s.
Proof.
  intros Hsym Hver Hidx Hfirst Hw HV.
  assert (Hfind : list_find (fun d => d = variable) dependencies
                  = Some (idx, variable)).
  { apply list_find_Some. split_and!; try done.
    intros j y Hj Hlt ->. by apply (Hfirst j). }
  assert (Hleb : String.leb backend_version "1.2.0" = false).
  { unfold String.ltb, String.leb in *.
    rewrite String.compare_antisym.
    destruct (String.compare "1.2.0" backend_version); try discriminate.
    reflexivity. }
  unfold LinComRHS_derivative_action.
  unfold mbind, M_bind, bind, gets, in_heap, modify, ret, print,
    backend_Function.
  rewrite Hfind, Hsym, Hver, Hleb, HV. cbn.
  destruct (fsp_lu s !! FunctionSpace_str V) as [V'|] eqn:Hlu; cbn;
    rewrite Hw; cbn; eexists _, _, _; (split; [reflexivity|]);
    (split; [reflexivity|]); cbn; split_and!; try done;
    unfold function_vector; cbn; by rewrite lookup_insert_eq.
Qed.

(** X11.  The failures of [LinComRHS] that come from its list arguments:
    [__call__] with no value (or on an object with no weight) raises
    [IndexError] from [agh[0]], and [derivative_action] for a variable that
    is not among the dependencies raises [ValueError] from [index]; both
    leave the state as it was (no Function has been created). *)
Theorem LinComRHS_list_errors (self : LinComRHS)
    (dependencies : list Variable_) (s : AdjState) :
  (forall values,
     weights self = [] \/ values = [] ->
     LinComRHS_call self dependencies values s
     = (Raise (Exn "IndexError" "list index out of range"), s))
  /\ (forall values variable cv hermitian,
        variable ∉ dependencies ->
        LinComRHS_derivative_action self dependencies values variable cv
          hermitian s
        = (Raise (Exn "ValueError" "variable is not in list"), s)).
Proof.
  split.
  - intros values Hempty. unfold LinComRHS_call.
    replace (zip (weights self) values) with (@nil (float * Vector Coefficient)).
    + reflexivity.
    + destruct Hempty as [-> | ->]; [done|]. by destruct (weights self).
  - intros values variable cv hermitian Hnot.
    unfold LinComRHS_derivative_action.
    replace (list_find (fun d => d = variable) dependencies)
      with (@None (nat * Variable_)); [reflexivity|].
    symmetry. apply list_find_None, Forall_forall. by intros d Hd ->.
Qed.

End LinComRHS_properties.

Section matrix_free_extra_properties.
Context {BE : Backend} {ABE : AdjointBackend}.

(** X12.  With [annotate=False], [AdjointPETScKrylovSolver.solve] is the
    forward solve of [PETScKrylovSolver] and nothing else: it asks nothing
    of [A], [x] and [b] (an operator without [transpmult] will do), returns
    the iteration count, overwrites the vector of [x], and leaves the tape,
    the registry and the output as they were. *)
Theorem solve_without_annotation_is_forward_solve
    (self : AdjointPETScKrylovSolver) (A : KrylovMatrix) (x b : PETScVector)
    (s : AdjState) :
  exists solution iterations,
    PETScKrylovSolver_solve (solver_parameters self) (mult A (heap s))
      ((fun transpmult => transpmult (heap s)) <$> transpmult A)
      (default [] (vectors (heap s) !! vec_id x))
      (default [] (vectors (heap s) !! vec_id b))
    = (solution, iterations)
    /\ AdjointPETScKrylovSolver_solve self A x b false s
       = (Ok iterations,
          set_heap (fun _ => set_vectors <[vec_id x := solution]> (heap s))
            s).
Proof.
  unfold AdjointPETScKrylovSolver_solve.
  unfold in_heap, PETScKrylovSolver_forward.
  unfold mbind, M_bind, bind, ret, get, modify, mret, M_ret. cbn.
  destruct (PETScKrylovSolver_solve _ _ _ _ _) as [solution iterations].
  by exists solution, iterations.
Qed.

(** X13.  The checks of an annotated solve after the one for
    [transpmult], in their order: an [x] without [.function], then a [b]
    without [.form], raise [LibadjointErrorInvalidInputs] with their
    messages; then an operator whose [dependencies()] has a coefficient
    with a function space but which has no [set_dependencies] raises the
    [AssertionError] of the [assert].  In each case the state is as before
    the call: nothing was registered and the forward solve has not run. *)
Theorem annotated_solve_input_checks
    (self : AdjointPETScKrylovSolver) (A : KrylovMatrix) (x b : PETScVector)
    (s : AdjState) :
  is_Some (transpmult A) ->
  (function x = None ->
   AdjointPETScKrylovSolver_solve self A x b true s
   = (Raise (LibadjointErrorInvalidInputs
        "Your x has to come from code like down_cast(my_function.vector())."),
      s))
  /\ (is_Some (function x) -> form b = None ->
      AdjointPETScKrylovSolver_solve self A x b true s
      = (Raise (LibadjointErrorInvalidInputs
           "Your b has to have the .form attribute: was it assembled with from dolfin_adjoint import *?"),
         s))
  /\ (forall A_dependencies,
        is_Some (function x) -> is_Some (form b) ->
        dependencies A = Some A_dependencies ->
        Exists (fun coeff => has_function_space coeff = true)
          (A_dependencies (heap s)) ->
        set_dependencies A = None ->
        AdjointPETScKrylovSolver_solve self A x b true s
        = (Raise (AssertionError
             "Need a set_dependencies method to replace your values, if you have nonlinear dependencies ... "),
           s)).
Proof.
  intros HA. split_and!.
  - intros Hx. unfold AdjointPETScKrylovSolver_solve.
    apply bind_Raise. unfold fmap, M_fmap. apply bind_Raise.
    unfold AdjointPETScKrylovSolver_annotate.
    rewrite bool_decide_eq_true_2 by done. cbn [negb].
    by rewrite Hx.
  - intros [f Hx] Hb. unfold AdjointPETScKrylovSolver_solve.
    apply bind_Raise. unfold fmap, M_fmap. apply bind_Raise.
    unfold AdjointPETScKrylovSolver_annotate.
    rewrite bool_decide_eq_true_2 by done. cbn [negb].
    by rewrite Hx, Hb.
  - intros A_dependencies [f Hx] [F Hb] Hdeps Hex Hset.
    unfold AdjointPETScKrylovSolver_solve.
    apply bind_Raise. unfold fmap, M_fmap. apply bind_Raise.
    unfold AdjointPETScKrylovSolver_annotate.
    rewrite bool_decide_eq_true_2 by done. cbn [negb].
    rewrite Hx, Hb, Hdeps, Hset.
    unfold mbind, M_bind, bind, ret, get. cbn.
    rewrite length_map.
    destruct (filter (fun coeff => has_function_space coeff = true)
                (A_dependencies (heap s))) as [|c cs] eqn:Hfilter.
    + apply Exists_exists in Hex as (c & Hc & Hfs).
      assert (c ∈ filter (fun coeff => has_function_space coeff = true)
                    (A_dependencies (heap s))) as Hin
        by (by apply list_elem_of_filter).
      rewrite Hfilter in Hin. by apply elem_of_nil in Hin.
    + cbn. rewrite decide_True by lia. reflexivity.
Qed.

(** X14.  In the forward direction ([hermitian = False]) the assembly
    callback returns the operator [A] itself, not a copy, with the boundary
    conditions of [b] as they are (none is homogenized or dropped), the
    function space of [x] and the parameters of the solver; and called
    with a coefficient other than 1 it raises the [AssertionError] of its
    first line without restoring the expressions or touching the
    operator. *)
Theorem assembly_callback_forward_direction
    (self : AdjointPETScKrylovSolver) (A : KrylovMatrix) (x b : PETScVector)
    (frozen : gmap (positive * string) pyval) (deps : list Variable_)
    (values : list (Vector Coefficient)) (h : Heap) :
  (forall f V bl,
     function x = Some f -> function_space f = Some V -> bcs b = Some bl ->
     (0 < length deps -> is_Some (set_dependencies A)) ->
     exists h',
       diag_assembly_cb self A x b frozen deps values false 1 h
       = (Ok ({| mf_data := A; mf_fn_space := V; mf_bcs := bl;
                 mf_solver_parameters := solver_parameters self |},
              mkVector (None, V)), h')
       /\ h' = match set_dependencies A with
               | Some A_set_dependencies =>
                   if decide (0 < length deps)
                   then A_set_dependencies deps (map data values)
                          (update_expressions frozen h)
                   else update_expressions frozen h
               | None => update_expressions frozen h
               end)
  /\ (forall hermitian coefficient,
        coefficient <> 1%Z ->
        diag_assembly_cb self A x b frozen deps values hermitian
          coefficient h
        = (Raise (AssertionError ""), h)).
Proof.
  split.
  - intros f V bl Hf HV Hb Hset. unfold diag_assembly_cb.
    rewrite bool_decide_eq_true_2 by done. cbn [negb].
    unfold mbind, M_bind, bind, modify, lift_result, x_function_space, ret.
    rewrite Hf, HV, Hb.
    destruct (decide (0 < length deps)) as [Hpos|Hpos].
    + destruct (Hset Hpos) as [sd Hsd]. rewrite Hsd. eauto.
    + eexists. split; [reflexivity|]. by destruct (set_dependencies A).
  - intros hermitian coefficient Hc. unfold diag_assembly_cb.
    by rewrite bool_decide_eq_false_2.
Qed.

(** X15.  [AdjointKrylovMatrix.set_dependencies] always substitutes into
    the original form: it pairs the values, by position, with all the
    coefficients of the original form (its argument [dependencies] is not
    read) and stores the result as the current form, so a second call
    replaces the effect of the first.  After it, [mult] applies the
    assembled action of the substituted form on a Function holding the
    vector, and [transpmult] the assembled action of its adjoint on the
    vector itself; both then apply the boundary conditions of the operator
    as they are (neither homogenizes them).  [dependencies()] is
    unaffected, and other operators and all vectors are untouched. *)
Theorem AdjointKrylovMatrix_set_dependencies_substitutes_original
    (id : positive) (a : Form) (bl : list BC) (h : Heap) :
  (forall deps1 values1 deps2 values2,
     AdjointKrylovMatrix_set_dependencies id a deps2 values2
       (AdjointKrylovMatrix_set_dependencies id a deps1 values1 h)
     = AdjointKrylovMatrix_set_dependencies id a deps2 values2 h)
  /\ (forall deps values x,
        let h' := AdjointKrylovMatrix_set_dependencies id a deps values h in
        AdjointKrylovMatrix_mult id a bl h' x
        = foldl (fun y bc => bc_apply_vector bc y)
            (assemble_action h'
               (replace a (dict_zip (extract_coefficients a) values)) x) bl
        /\ AdjointKrylovMatrix_transpmult id a bl h' x
           = foldl (fun y bc => bc_apply_vector bc y)
               (assemble_action_of_vector h'
                  (ufl_adjoint
                     (replace a (dict_zip (extract_coefficients a) values)))
                  x) bl
        /\ AdjointKrylovMatrix_dependencies a h'
           = AdjointKrylovMatrix_dependencies a h
        /\ vectors h' = vectors h
        /\ forall id', id' <> id ->
             current_forms h' !! id' = current_forms h !! id').
Proof.
  split_and!.
  - intros. unfold AdjointKrylovMatrix_set_dependencies, set_current_forms.
    cbn. by rewrite insert_insert_eq.
  - intros deps values x h'. split_and!; try done.
    + unfold AdjointKrylovMatrix_mult, AdjointKrylovMatrix_current_form.
      subst h'. cbn. by rewrite lookup_insert_eq.
    + unfold AdjointKrylovMatrix_transpmult, AdjointKrylovMatrix_current_form.
      subst h'. cbn. by rewrite lookup_insert_eq.
    + intros id' Hne. subst h'. cbn. by rewrite lookup_insert_ne.
Qed.

End matrix_free_extra_properties.

Section functional_extra_properties.
Context {BE : Backend} {FBE : FunctionalBackend}.

Lemma dict_zip_take `{Countable K} {V} (ks : list K) (vs : list V) :
  dict_zip ks vs
  = dict_zip (take (length vs) ks) (take (length ks) vs).
Proof.
  unfold dict_zip. do 2 f_equal.
  rewrite (zip_with_take_l' _ (length vs) ks)
    by (rewrite length_take; lia).
  by rewrite zip_with_take_r' by lia.
Qed.

(** X16.  [FinalFunctional.__call__] does not read its argument
    [dependencies], nor the flag [activated], and pairs the coefficients of
    the form that have a function space with the values by position, up to
    the shorter of the two lists: values beyond the coefficients are
    ignored, coefficients beyond the values stay in the form, and no
    mismatch of the numbers is reported. *)
Theorem FinalFunctional_call_pairs_by_position
    (self : FinalFunctional) (dependencies dependencies' : list Variable_)
    (values : list (Vector Coefficient)) (flag : bool) (w : World) :
  exists coefficients,
    coefficients
    = filter (fun dep => has_function_space dep = true)
        (extract_coefficients (ff_form self))
    /\ FinalFunctional_call self dependencies values w
       = dolfin_assemble
           (replace (ff_form self)
              (dict_zip (take (length values) coefficients)
                 (take (length coefficients) (map data values)))) w
    /\ FinalFunctional_call self dependencies values w
       = FinalFunctional_call
           {| ff_form := ff_form self; activated := flag |}
           dependencies' (take (length coefficients) values) w.
Proof.
  eexists. split; [reflexivity|].
  set (coefficients := filter _ _).
  unfold FinalFunctional_call. cbn. fold coefficients.
  rewrite (dict_zip_take coefficients (map data values)).
  rewrite length_map. split; [done|].
  rewrite (dict_zip_take coefficients (map data (take _ values))).
  rewrite length_map, length_take, <- !fmap_take.
  rewrite take_take.
  destruct (decide (length values <= length coefficients)) as [Hle|Hgt].
  - rewrite Nat.min_r by lia. rewrite Nat.min_id.
    by rewrite (take_ge values) by lia.
  - rewrite Nat.min_l by lia. rewrite Nat.min_id.
    by rewrite !(take_ge coefficients) by lia.
Qed.

(** X17.  The two [derivative] methods are one function of the form:
    they raise [ValueError] when the variable is not among the
    dependencies and [IndexError] when no value stands at its position,
    and otherwise differentiate the form, with its coefficients replaced
    by the values, in the direction of the value at the position of the
    variable, against a test function of that value's space.  Unlike
    [TimeFunctional.__call__], [TimeFunctional.derivative] reads the name
    it has bound. *)
Theorem functional_derivatives_agree
    (F : Form) (flag : bool) (variable : Variable_)
    (dependencies : list Variable_) (values : list (Vector Coefficient)) :
  TimeFunctional_derivative {| tf_form := F |} variable dependencies values
  = FinalFunctional_derivative {| ff_form := F; activated := flag |}
      variable dependencies values
  /\ (variable ∉ dependencies ->
      FinalFunctional_derivative {| ff_form := F; activated := flag |}
        variable dependencies values
      = Raise (Exn "ValueError" "variable is not in list"))
  /\ (forall idx,
        dependencies !! idx = Some variable ->
        (forall j, j < idx -> dependencies !! j <> Some variable) ->
        match values !! idx with
        | None =>
            FinalFunctional_derivative
              {| ff_form := F; activated := flag |} variable dependencies
              values
            = Raise (Exn "IndexError" "list index out of range")
        | Some value =>
            forall V,
              function_space (data value) = Some V ->
              FinalFunctional_derivative
                {| ff_form := F; activated := flag |} variable dependencies
                values
              = Ok (mkVector
                      (derivative_test
                         (replace F
                            (dict_zip
                               (filter
                                  (fun dep => has_function_space dep = true)
                                  (extract_coefficients F))
                               (map data values)))
                         (data value) V))
        end).
Proof.
  split_and!.
  - unfold TimeFunctional_derivative, FinalFunctional_derivative. cbn.
    destruct (list_find _ dependencies) as [[idx d]|]; [|done]. cbn.
    destruct (values !! idx) as [value|]; [|done]. cbn.
    by destruct (function_space (data value)).
  - intros Hnot. unfold FinalFunctional_derivative.
    replace (list_find (fun d => d = variable) dependencies)
      with (@None (nat * Variable_)); [reflexivity|].
    symmetry. apply list_find_None, Forall_forall. by intros d Hd ->.
  - intros idx Hidx Hfirst.
    assert (Hfind : list_find (fun d => d = variable) dependencies
                    = Some (idx, variable)).
    { apply list_find_Some. split_and!; try done.
      intros j y Hj Hlt ->. by apply (Hfirst j). }
    unfold FinalFunctional_derivative. rewrite Hfind. cbn.
    destruct (values !! idx) as [value|]; [|done].
    intros V HV. cbn. by rewrite HV.
Qed.

End functional_extra_properties.

(** ** caches.py: the keys *)

Lemma String_leb_iff (a b : string) :
  String.leb a b = true <-> a = b \/ OrderedTypeEx.String_as_OT.lt a b.
Proof.
  unfold String.leb.
  pose proof (OrderedTypeEx.String_as_OT.cmp_eq a b) as Heq.
  pose proof (OrderedTypeEx.String_as_OT.cmp_lt a b) as Hlt.
  unfold OrderedTypeEx.String_as_OT.cmp in *.
  destruct (String.compare a b); split; try done.
  - intros _. left. by apply Heq.
  - intros _. right. by apply Hlt.
  - intros [H|H]; [by apply Heq in H|by apply Hlt in H].
Qed.

Lemma String_leb_trans (a b c : string) :
  String.leb a b = true -> String.leb b c = true -> String.leb a c = true.
Proof.
  rewrite !String_leb_iff. intros [->|Hab] [->|Hbc]; try tauto.
  right. by eapply OrderedTypeEx.String_as_OT.lt_trans.
Qed.

Lemma insert_sorted_Permutation {A} (kv : string * A) (l : list (string * A)) :
  insert_sorted kv l ≡ₚ kv :: l.
Proof.
  induction l as [|kv' l IH]; cbn; [done|].
  destruct (String.leb kv.1 kv'.1); [done|].
  rewrite IH. apply perm_swap.
Qed.

Lemma sorted_items_Permutation {A} (l : list (string * A)) :
  sorted_items l ≡ₚ l.
Proof.
  induction l as [|kv l IH]; cbn; [done|].
  fold (sorted_items l). by rewrite insert_sorted_Permutation, IH.
Qed.

Lemma insert_sorted_StronglySorted {A} (kv : string * A)
    (l : list (string * A)) :
  StronglySorted key_le l -> StronglySorted key_le (insert_sorted kv l).
Proof.
  induction 1 as [|kv' l Hl IH Hall]; cbn.
  - by repeat constructor.
  - destruct (String.leb kv.1 kv'.1) eqn:Hle.
    + constructor; [by constructor|]. constructor; [done|].
      eapply Forall_impl; [exact Hall|]. intros kv'' Hle'.
      by eapply String_leb_trans.
    + constructor; [done|].
      rewrite insert_sorted_Permutation. constructor; [|done].
      unfold key_le. destruct (String.leb_total kv.1 kv'.1); congruence.
Qed.

Lemma sorted_items_StronglySorted {A} (l : list (string * A)) :
  StronglySorted key_le (sorted_items l).
Proof.
  induction l as [|kv l IH]; cbn; [constructor|].
  by apply insert_sorted_StronglySorted.
Qed.

Lemma NoDup_fst_eq {A} (l : list (string * A)) (x1 x2 : string * A) :
  NoDup (l.*1) -> x1 ∈ l -> x2 ∈ l -> x1.1 = x2.1 -> x1 = x2.
Proof.
  intros Hnd [i1 H1]%list_elem_of_lookup [i2 H2]%list_elem_of_lookup Heq.
  assert (i1 = i2) as ->.
  { apply (NoDup_lookup (l.*1) i1 i2 x1.1); [done| |].
    - by rewrite list_lookup_fmap, H1.
    - by rewrite list_lookup_fmap, H2, Heq. }
  congruence.
Qed.

Lemma sorted_items_permutation_invariant {A} (l1 l2 : list (string * A)) :
  l1 ≡ₚ l2 -> NoDup (l1.*1) -> sorted_items l1 = sorted_items l2.
Proof.
  intros Hperm Hnd.
  apply (StronglySorted_unique_strong key_le);
    try apply sorted_items_StronglySorted.
  - intros x1 x2 H1 H2 Hle Hge.
    rewrite sorted_items_Permutation in H1.
    rewrite sorted_items_Permutation, <- Hperm in H2.
    apply (NoDup_fst_eq l1); try done.
    by apply String.leb_antisym.
  - by rewrite !sorted_items_Permutation.
Qed.

(** X18.  [parameters_key] does not depend on the order in which the
    dict holds its items: two dicts with the same items (and, as in any
    dict, no key twice) have the same key. *)
Theorem parameters_key_ignores_item_order (parameters parameters' : Parameters) :
  parameters ≡ₚ parameters' -> NoDup (parameters.*1) ->
  parameters_key parameters = parameters_key parameters'.
Proof.
  intros Hperm Hnd. unfold parameters_key. f_equal.
  apply sorted_items_permutation_invariant.
  - by apply fmap_Permutation.
  - by rewrite <- list_fmap_compose.
Qed.

(** [parameters_key] appends for a nested parameter set the key of
    the set alone, without the name it is stored under: the item of a
    nested set is the same under any name, so two dicts that hold the same
    nested set under different names have the same key. *)
Remark parameters_key_drops_nested_names
    (name name' : string) (items : Parameters) :
  parameters_key_item name (PNested items)
  = parameters_key_item name' (PNested items)
  /\ parameters_key [(name, PNested items)]
     = parameters_key [(name', PNested items)]
  /\ parameters_key [(name, PNested items)] = [PKNested (parameters_key items)].
Proof. by split_and!. Qed.

Section solver_cache_properties.
Context {BE : Backend} {ARGS : ArgumentsBackend}.

(** X19.  [extract_test_and_trial] returns the two arguments of a
    bilinear form with the test function first, whichever way round
    [extract_arguments] lists them: the numbers of the pair it returns are
    consecutive, and a form whose arguments come in the opposite order
    gives the same result (the same pair or the same error). *)
Theorem extract_test_and_trial_orders_the_pair (form form' : Form) :
  (forall test trial,
     extract_test_and_trial form = Ok (test, trial) ->
     (arg_number test + 1 = arg_number trial)%Z
     /\ test ∈ extract_arguments form /\ trial ∈ extract_arguments form)
  /\ (extract_arguments form' = reverse (extract_arguments form) ->
      extract_test_and_trial form' = extract_test_and_trial form)
  /\ (length (extract_arguments form) <> 2 ->
      extract_test_and_trial form
      = Raise (InvalidArgumentException "form must be a bi-linear Form")).
Proof.
  unfold extract_test_and_trial. split_and!.
  - intros test trial Hrun.
    destruct (extract_arguments form) as [|a [|b [|c l]]]; try discriminate.
    destruct (bool_decide (arg_number a > arg_number b)%Z);
      case_bool_decide; simplify_eq;
      (split; [lia|]); rewrite !elem_of_cons; tauto.
  - intros ->.
    destruct (extract_arguments form) as [|a [|b [|c l]]]; try done.
    + cbn. repeat case_bool_decide; try done; lia.
    + assert (Hlen : length (reverse (a :: b :: c :: l)) = S (S (S (length l))))
        by (by rewrite length_reverse).
      destruct (reverse (a :: b :: c :: l)) as [|? [|? [|? ?]]];
        cbn in Hlen; try lia; done.
  - intros Hlen.
    by destruct (extract_arguments form) as [|a [|b [|c l]]].
Qed.

Lemma for_each_ext {S A} (xs : list A) (f g : A -> M S unit) :
  (forall x s, f x s = g x s) ->
  forall s, for_each xs f s = for_each xs g s.
Proof.
  intros Hfg. induction xs as [|x xs IH]; intros s; [done|].
  cbn. unfold bind. rewrite Hfg. destruct (g x s) as [[[]|e] s1]; [|done].
  apply IH.
Qed.

Lemma for_each_delete `{Countable K} {V} (P : K -> bool) (keys : list K)
    (c : gmap K V) :
  exists c',
    for_each keys (fun key => if P key then modify (delete key) else ret tt) c
    = (Ok tt, c')
    /\ forall key,
         c' !! key
         = if decide (key ∈ keys /\ P key = true) then None else c !! key.
Proof.
  revert c. induction keys as [|k keys IH]; intros c.
  - exists c. split; [done|]. intros key.
    rewrite decide_False; [done|]. by intros [?%elem_of_nil _].
  - cbn [for_each]. unfold bind at 1. destruct (P k) eqn:HP; cbn.
    + destruct (IH (delete k c)) as (c' & Hrun & Hl).
      exists c'. split; [done|]. intros key. rewrite Hl.
      destruct (decide (key = k)) as [->|Hne].
      * rewrite lookup_delete_eq.
        rewrite (decide_True (P := k ∈ k :: keys /\ _)).
        -- by destruct (decide _).
        -- split; [apply elem_of_cons; by left|done].
      * rewrite lookup_delete_ne by done.
        apply decide_ext. rewrite elem_of_cons. intuition congruence.
    + destruct (IH c) as (c' & Hrun & Hl).
      exists c'. split; [done|]. intros key. rewrite Hl.
      apply decide_ext. rewrite elem_of_cons. intuition congruence.
Qed.

Lemma for_each_delete_all `{Countable K} {V} (P : K -> bool) (c : gmap K V) :
  exists c',
    for_each (map_to_list c).*1
      (fun key => if P key then modify (delete key) else ret tt) c
    = (Ok tt, c')
    /\ forall key, c' !! key = if P key then None else c !! key.
Proof.
  destruct (for_each_delete P (map_to_list c).*1 c) as (c' & Hrun & Hl).
  exists c'. split; [done|]. intros key. rewrite Hl.
  destruct (P key) eqn:HP.
  - destruct (c !! key) as [v|] eqn:Hk.
    + rewrite decide_True; [done|]. split; [|done].
      apply list_elem_of_fmap. exists (key, v). split; [done|].
      by apply elem_of_map_to_list.
    + by destruct (decide _).
  - rewrite decide_False; [done|]. by intros [_ ?].
Qed.

Lemma check_arguments_Ok {S} (args : list Coefficient) (s : S) :
  Forall (fun dep => is_Constant_or_Function dep = true) args ->
  for_each args (fun dep =>
    if is_Constant_or_Function dep then ret tt
    else raise (InvalidArgumentException
                  "Arguments must be Constant s or Function s")) s
  = (Ok tt, s).
Proof.
  induction 1 as [|dep args Hd _ IH]; [done|].
  cbn [for_each]. by rewrite Hd.
Qed.

Lemma check_arguments_Raise {S} (args : list Coefficient) (s : S) :
  Exists (fun dep => is_Constant_or_Function dep = false) args ->
  for_each args (fun dep =>
    if is_Constant_or_Function dep then ret tt
    else raise (InvalidArgumentException
                  "Arguments must be Constant s or Function s")) s
  = (Raise (InvalidArgumentException
              "Arguments must be Constant s or Function s"), s).
Proof.
  induction args as [|dep args IH]; intros Hex.
  - by apply Exists_nil in Hex.
  - cbn [for_each].
    destruct (is_Constant_or_Function dep) eqn:Hd; [|done].
    apply Exists_cons in Hex as [Hex|Hex]; [congruence|].
    unfold bind. cbn. by apply IH.
Qed.

Lemma SolverCache_clear_run {LinearSolver : Type}
    (c : gmap SolverKey LinearSolver) (args : list Coefficient)
    (dep : Coefficient) :
  Forall (fun d => is_Constant_or_Function d = true) (args ++ [dep]) ->
  exists c',
    SolverCache_clear (args ++ [dep]) c = (Ok tt, c')
    /\ forall key,
         c' !! key = if solver_key_depends dep key then None else c !! key.
Proof.
  intros Hok. unfold SolverCache_clear.
  rewrite decide_False by (rewrite length_app; cbn; lia).
  unfold mbind, M_bind, bind, gets.
  rewrite (check_arguments_Ok (args ++ [dep]) c Hok).
  rewrite last_snoc.
  destruct (for_each_delete_all (solver_key_depends dep) c)
    as (c' & Hrun & Hl).
  exists c'. split; [|done]. rewrite <- Hrun.
  apply for_each_ext. intros key c0. unfold solver_key_depends.
  by destruct (solver_key_form key).
Qed.

(** X20.  [SolverCache.clear()] empties the cache.  With arguments that
    are Constants or Functions, [SolverCache.clear(d1, ..., dn)] removes
    the entries whose form key is a Form with [dn], the last argument,
    among its coefficients, and no other entry: the arguments before the
    last are checked and then ignored, and an entry stored for a
    non-static form (whose form key is the pair of its arguments) is never
    removed.  An argument of another class raises
    [InvalidArgumentException] and nothing is removed. *)
Theorem SolverCache_clear_tests_last_argument {LinearSolver : Type}
    (c : gmap SolverKey LinearSolver) :
  SolverCache_clear [] c = (Ok tt, ∅)
  /\ (forall args dep,
        Forall (fun d => is_Constant_or_Function d = true) (args ++ [dep]) ->
        exists c',
          SolverCache_clear (args ++ [dep]) c = (Ok tt, c')
          /\ forall key,
               c' !! key
               = if solver_key_depends dep key then None else c !! key)
  /\ (forall args,
        Exists (fun d => is_Constant_or_Function d = false) args ->
        SolverCache_clear args c
        = (Raise (InvalidArgumentException
                    "Arguments must be Constant s or Function s"), c)).
Proof.
  split_and!.
  - unfold SolverCache_clear. cbn [length decide]. rewrite decide_True by done.
    destruct (for_each_delete_all (fun _ => true) c) as (c' & Hrun & Hl).
    unfold mbind, M_bind, bind, gets.
    change (for_each (map_to_list c).*1
              (fun key : SolverKey => modify (delete key)) c = (Ok tt, ∅)).
    change (for_each (map_to_list c).*1
              (fun key : SolverKey => modify (delete key)) c = (Ok tt, c'))
      in Hrun.
    rewrite Hrun. f_equal.
    apply map_eq. intros key. by rewrite Hl, lookup_empty.
  - intros args dep Hok. by apply SolverCache_clear_run.
  - intros args Hex. unfold SolverCache_clear.
    destruct (decide (length args = 0)) as [Hlen|Hlen].
    { destruct args; [by apply Exists_nil in Hex|done]. }
    unfold mbind, M_bind, bind. by rewrite check_arguments_Raise.
Qed.

(** X21.  [clear_caches(d1, ..., dn)] clears the two default caches
    differently: the assembly cache loses every entry whose form has one
    of the arguments among its coefficients, the linear solver cache only
    those whose form has the last argument [dn] among them.  A solver for
    a form that depends on an earlier argument alone stays cached. *)
Theorem clear_caches_clears_solvers_for_last_argument_only
    {LinearSolver : Type} (c : Caches LinearSolver)
    (args : list Coefficient) (dep : Coefficient) :
  Forall (fun d => is_Constant_or_Function d = true) (args ++ [dep]) ->
  exists c',
    clear_caches (args ++ [dep]) c = (Ok tt, c')
    /\ (forall key,
          cache (assembly_cache c') !! key
          = if decide (Exists (fun d => d ∈ extract_coefficients key.1.1)
                         (args ++ [dep]))
            then None else cache (assembly_cache c) !! key)
    /\ (forall key,
          linear_solver_cache c' !! key
          = if solver_key_depends dep key then None
            else linear_solver_cache c !! key)
    /\ (forall key form d,
          solver_key_form key = FKForm form ->
          d ∈ args -> d ∈ extract_coefficients form ->
          dep ∉ extract_coefficients form ->
          linear_solver_cache c' !! key = linear_solver_cache c !! key).
Proof.
  intros Hok. unfold clear_caches.
  assert (Hrun : exists a,
    AssemblyCache_clear (args ++ [dep]) (assembly_cache c) = (Ok tt, a)
    /\ forall key,
         cache a !! key
         = if decide (Exists (fun d => d ∈ extract_coefficients key.1.1)
                        (args ++ [dep]))
           then None else cache (assembly_cache c) !! key).
  { unfold AssemblyCache_clear.
    rewrite decide_False by (rewrite length_app; cbn; lia).
    destruct (clear_args_run (args ++ [dep]) (assembly_cache c))
      as (a & Hrun & _ & _ & Hl).
    exists a. split; [|done].
    unfold mbind, M_bind, bind.
    rewrite (clear_check_Ok (args ++ [dep]) (assembly_cache c) Hok).
    exact Hrun. }
  destruct Hrun as (a & -> & Ha).
  destruct (SolverCache_clear_run (linear_solver_cache c) args dep Hok)
    as (l & -> & Hl).
  eexists. split; [reflexivity|]. cbn. split_and!; try done.
  intros key form d Hform Hd Hin Hdep. rewrite Hl.
  unfold solver_key_depends. rewrite Hform.
  by rewrite bool_decide_eq_false_2.
Qed.

End solver_cache_properties.

Section assemble_properties.
Context {BE : Backend}.

(** X22.  [AssemblyCache.assemble] on a key that is not cached, for a
    call without boundary conditions: the form is assembled with the
    updated form compiler parameters; if that returns, the result is
    stored under the key and returned, and no other entry changes; if the
    assembly raises, nothing is stored.  A call with boundary conditions
    on a form whose rank is not 2, and a call with a boundary condition
    that is not a [DirichletBC], raise [InvalidArgumentException] and
    leave the cache and the numerical state as they were. *)
Theorem AssemblyCache_assemble_miss_and_errors
    (form : Form) (fcp : Parameters) (sym zc : bool) (s : CacheState) :
  (forall r w',
     let fcp' := parameters_update (form_compiler s) fcp in
     let key : CacheKey := (form_key form, parameters_key fcp', None) in
     cache s !! key = None ->
     ts_assemble form fcp' (world s) = (r, w') ->
     exists s',
       AssemblyCache_assemble form fcp [] sym zc s = (r, s')
       /\ world s' = w'
       /\ cache s' = match r with
                     | Ok t => <[key := t]> (cache s)
                     | Raise _ => cache s
                     end)
  /\ (forall bcs,
        bcs <> [] -> forallb bc_is_DirichletBC bcs = true ->
        form_rank form <> 2 ->
        AssemblyCache_assemble form fcp bcs sym zc s
        = (Raise (InvalidArgumentException
                    "form must be rank 2 when applying boundary conditions"),
           s))
  /\ (forall bcs,
        forallb bc_is_DirichletBC bcs = false ->
        AssemblyCache_assemble form fcp bcs sym zc s
        = (Raise (InvalidArgumentException
                    "bcs must be a list of DirichletBC s"), s)).
Proof.
  split_and!.
  - intros r w' fcp' key Hmiss Hasm. unfold AssemblyCache_assemble.
    unfold mbind, M_bind, bind, gets, lift_result, AssemblyCache_key, bc_key.
    cbn. destruct (decide (0 = 0)) as [_|?]; [|done]. cbn.
    fold fcp'. fold key. rewrite Hmiss.
    unfold cache_info, in_world, modify.
    destruct (verbose s); cbn; rewrite Hasm; destruct r as [t|e]; cbn;
      rewrite ?lookup_insert_eq; eexists; split_and!; done.
  - intros bcs Hne Hall Hrank. unfold AssemblyCache_assemble.
    rewrite Hall. cbn [negb].
    unfold mbind, M_bind, bind, gets, lift_result, AssemblyCache_key, bc_key.
    rewrite Hall. rewrite decide_False by (by destruct bcs). cbn.
    rewrite decide_False by (by destruct bcs).
    by rewrite bool_decide_eq_false_2.
  - intros bcs Hall. unfold AssemblyCache_assemble. by rewrite Hall.
Qed.

End assemble_properties.

Lemma apply_default_parameters_unfold (parameters : Parameters)
    (default : PyParam) :
  apply_default_parameters parameters default
  = lparameters ← apply_default_first_loop default parameters [] ;
    apply_defaults_loop default lparameters.
Proof.
  unfold apply_default_parameters. cbn. f_equal.
  generalize (@nil (string * PyParam)).
  induction parameters as [|[key value] items IH]; intros lp; [done|].
  cbn -[apply_default_parameters_nested].
  destruct value as [v|sub]; cbn -[apply_default_parameters_nested].
  - apply IH.
  - destruct (default_get default key) as [sd|]; [|done].
    cbn -[apply_default_parameters_nested].
    destruct (apply_default_parameters_nested (PNested sub) sd); [|done].
    cbn -[apply_default_parameters_nested]. apply IH.
Qed.

Lemma dict_lookup_set {A} (k k' : string) (v : A) (d : list (string * A)) :
  dict_lookup k' (dict_set k v d)
  = if decide (k = k') then Some v else dict_lookup k' d.
Proof.
  induction d as [|[k0 v0] d IH]; cbn.
  - by destruct (decide (k = k')).
  - destruct (decide (k0 = k)) as [->|Hne]; cbn.
    + by destruct (decide (k = k')).
    + rewrite IH. destruct (decide (k0 = k')) as [->|?]; [|done].
      by rewrite decide_False.
Qed.

Lemma dict_lookup_is_Some {A} (k : string) (d : list (string * A)) :
  k ∈ d.*1 <-> is_Some (dict_lookup k d).
Proof.
  induction d as [|[k0 v0] d IH]; cbn.
  - rewrite elem_of_nil. split; [done|]. by intros [? ?].
  - rewrite elem_of_cons, IH. destruct (decide (k0 = k)) as [->|Hne].
    + split; eauto.
    + split; [|tauto]. intros [->|?]; done.
Qed.

Lemma dict_lookup_None {A} (k : string) (d : list (string * A)) :
  k ∉ d.*1 <-> dict_lookup k d = None.
Proof. rewrite dict_lookup_is_Some, eq_None_not_Some. done. Qed.

Lemma apply_defaults_loop_lookup (d lp lp' : Parameters) (k : string) :
  apply_defaults_loop (PNested d) lp = Ok lp' ->
  dict_lookup k lp'
  = match dict_lookup k lp with
    | Some v => Some v
    | None => dict_lookup k d
    end.
Proof.
  unfold apply_defaults_loop. intros [= <-]. revert lp.
  induction d as [|[k0 v0] d IH]; intros lp; cbn.
  - by destruct (dict_lookup k lp).
  - rewrite IH. case_bool_decide as Hin; cbn.
    + destruct (dict_lookup k lp) as [v|] eqn:Hk; [done|].
      destruct (decide (k0 = k)) as [->|?]; [|done].
      apply dict_lookup_is_Some in Hin as [v Hv]. congruence.
    + rewrite dict_lookup_set.
      destruct (decide (k0 = k)) as [->|?]; [|done].
      apply dict_lookup_None in Hin. by rewrite Hin.
Qed.

Lemma apply_default_first_loop_lookup (default : PyParam)
    (items lp lp' : Parameters) (k : string) :
  NoDup (items.*1) ->
  apply_default_first_loop default items lp = Ok lp' ->
  match dict_lookup k items with
  | Some value =>
      exists value', applied_item default k value = Ok value'
                     /\ dict_lookup k lp' = Some value'
  | None => dict_lookup k lp' = dict_lookup k lp
  end.
Proof.
  revert lp. induction items as [|[key value] items IH]; intros lp Hnd Hrun.
  - cbn in *. by simplify_eq.
  - apply NoDup_cons in Hnd as [Hkey Hnd].
    cbn -[apply_default_parameters_nested] in Hrun.
    destruct (match value with
              | PValue _ => Ok (dict_set key value lp)
              | PNested _ =>
                  default_get default key ≫= fun sub_default =>
                  apply_default_parameters_nested value sub_default
                  ≫= fun sub => Ok (dict_set key (PNested sub) lp)
              end) as [lp1|] eqn:Hitem; [|discriminate].
    cbn -[apply_default_parameters_nested] in Hrun.
    specialize (IH lp1 Hnd Hrun). cbn [dict_lookup].
    assert (Hlp1 : exists value', applied_item default key value = Ok value'
                                  /\ lp1 = dict_set key value' lp).
    { destruct value as [v|sub]; cbn -[apply_default_parameters_nested] in *.
      - eexists. split; [done|]. by simplify_eq.
      - unfold apply_default_parameters.
        destruct (default_get default key) as [sd|]; [|discriminate].
        cbn -[apply_default_parameters_nested] in *.
        destruct (apply_default_parameters_nested (PNested sub) sd)
          as [sub'|]; [|discriminate].
        cbn in *. eexists. split; [done|]. by simplify_eq. }
    destruct Hlp1 as (value' & Happ & ->).
    destruct (decide (key = k)) as [->|Hne].
    + exists value'. split; [done|].
      apply dict_lookup_None in Hkey. cbn in Hkey.
      rewrite Hkey in IH. rewrite IH.
      rewrite dict_lookup_set. by rewrite decide_True.
    + destruct (dict_lookup k items); [done|].
      rewrite IH, dict_lookup_set. by rewrite decide_False.
Qed.

Lemma apply_default_first_loop_flat (default : PyParam)
    (items lp : Parameters) :
  Forall (fun kv => match kv.2 with PValue _ => True | _ => False end) items ->
  exists lp', apply_default_first_loop default items lp = Ok lp'.
Proof.
  intros Hflat. revert lp.
  induction Hflat as [|[key value] items Hv _ IH]; intros lp; cbn.
  - eauto.
  - destruct value; [|done]. cbn. apply IH.
Qed.

Lemma apply_default_parameters_keeps_explicit_values_aux
    (parameters d : Parameters) :
  NoDup (parameters.*1) ->
  (forall r,
     apply_default_parameters parameters (PNested d) = Ok r ->
     forall key,
       match dict_lookup key parameters with
       | Some (PValue v) => dict_lookup key r = Some (PValue v)
       | Some (PNested sub) =>
           exists sub',
             apply_default_parameters sub
               (from_option id (PNested []) (dict_lookup key d)) = Ok sub'
             /\ dict_lookup key r = Some (PNested sub')
       | None => dict_lookup key r = dict_lookup key d
       end)
  /\ (Forall (fun kv => match kv.2 with PValue _ => True | _ => False end)
        parameters ->
      exists r, apply_default_parameters parameters (PNested d) = Ok r).
Proof.
  intros Hnd. split.
  - intros r Hrun key. rewrite apply_default_parameters_unfold in Hrun.
    destruct (apply_default_first_loop (PNested d) parameters [])
      as [lp|] eqn:Hfirst; [|discriminate].
    cbn in Hrun.
    rewrite (apply_defaults_loop_lookup d lp r key Hrun).
    pose proof (apply_default_first_loop_lookup (PNested d) parameters []
                  lp key Hnd Hfirst) as Hl.
    destruct (dict_lookup key parameters) as [[v|sub]|].
    + destruct Hl as (value' & Happ & ->). cbn in Happ. by simplify_eq.
    + destruct Hl as (value' & Happ & ->).
      cbn -[apply_default_parameters] in Happ.
      destruct (apply_default_parameters sub _) as [sub'|];
        [|discriminate Happ].
      cbn in Happ. simplify_eq. eauto.
    + by rewrite Hl.
  - intros Hflat. rewrite apply_default_parameters_unfold.
    destruct (apply_default_first_loop_flat (PNested d) parameters [] Hflat)
      as [lp ->].
    cbn. eauto.
Qed.

(** Induction on a parameter value and on the values nested in it. *)
Lemma PyParam_nested_ind (P : PyParam -> Prop) :
  (forall v, P (PValue v)) ->
  (forall items, Forall (fun kv => P kv.2) items -> P (PNested items)) ->
  forall p, P p.
Proof.
  intros Hv Hn. fix IH 1. intros [v|items]; [apply Hv|].
  apply Hn. induction items as [|[k p] items IHitems]; constructor.
  - apply IH.
  - apply IHitems.
Qed.

Lemma apply_defaults_loop_dict_Ok (d lp : Parameters) :
  exists lp', apply_defaults_loop (PNested d) lp = Ok lp'.
Proof. unfold apply_defaults_loop. eauto. Qed.

Lemma apply_default_parameters_nested_no_KeyError (value default : PyParam)
    (key : string) :
  apply_default_parameters_nested value default <> Raise (Exn "KeyError" key).
Proof.
  revert default. induction value as [v|items IH] using PyParam_nested_ind;
    intros default; [done|].
  change (apply_default_parameters (items) default
          <> Raise (Exn "KeyError" key)).
  rewrite apply_default_parameters_unfold.
  assert (Hfirst : forall lp,
    apply_default_first_loop default items lp <> Raise (Exn "KeyError" key)).
  { induction IH as [|[k value] items Hvalue _ IHitems]; intros lp; [done|].
    cbn -[apply_default_parameters_nested].
    destruct value as [v|sub]; cbn -[apply_default_parameters_nested].
    - apply IHitems.
    - destruct default as [[]|dd]; try done.
      cbn -[apply_default_parameters_nested].
      destruct (apply_default_parameters_nested (PNested sub) _)
        as [sub'|err] eqn:Hsub; cbn -[apply_default_parameters_nested].
      + apply IHitems.
      + intros [= ->]. by eapply Hvalue. }
  destruct (apply_default_first_loop default items []) as [lp|err] eqn:Hf;
    cbn.
  - destruct default as [[z|str|b]|dd]; cbn; try done.
    by destruct (forallb _ _).
  - intros [= ->]. by eapply Hfirst.
Qed.

Lemma apply_default_parameters_no_KeyError (parameters : Parameters)
    (default : PyParam) (key : string) :
  apply_default_parameters parameters default <> Raise (Exn "KeyError" key).
Proof. apply apply_default_parameters_nested_no_KeyError. Qed.

(** X23.  [apply_default_parameters(parameters, default)] for a dict of
    defaults: a value that [parameters] sets is never replaced by a
    default; a key that [parameters] does not set takes the default, if
    there is one; and a nested dict of [parameters] is completed in the
    same way from the default of its key, or from the empty dict when the
    key has no default.  The call returns whenever [parameters] holds
    plain values only. *)
Theorem apply_default_parameters_keeps_explicit_values
    (parameters d : Parameters) :
  NoDup (parameters.*1) ->
  (forall r,
     apply_default_parameters parameters (PNested d) = Ok r ->
     forall key,
       match dict_lookup key parameters with
       | Some (PValue v) => dict_lookup key r = Some (PValue v)
       | Some (PNested sub) =>
           exists sub',
             apply_default_parameters sub
               (from_option id (PNested []) (dict_lookup key d)) = Ok sub'
             /\ dict_lookup key r = Some (PNested sub')
       | None => dict_lookup key r = dict_lookup key d
       end)
  /\ (Forall (fun kv => match kv.2 with PValue _ => True | _ => False end)
        parameters ->
      exists r, apply_default_parameters parameters (PNested d) = Ok r).
Proof. apply apply_default_parameters_keeps_explicit_values_aux. Qed.

Lemma dict_set_keys {A} (k k' : string) (v : A) (d : list (string * A)) :
  k' ∈ (dict_set k v d).*1 <-> k' = k \/ k' ∈ d.*1.
Proof.
  rewrite !dict_lookup_is_Some, dict_lookup_set.
  destruct (decide (k = k')) as [->|?]; split; eauto.
  intros [->|?]; done.
Qed.

Lemma dict_set_NoDup {A} (k : string) (v : A) (d : list (string * A)) :
  NoDup (d.*1) -> NoDup ((dict_set k v d).*1).
Proof.
  induction d as [|[k0 v0] d IH]; cbn.
  - intros _. apply NoDup_singleton.
  - intros [Hk0 Hnd]%NoDup_cons.
    destruct (decide (k0 = k)) as [->|Hne]; cbn.
    + by apply NoDup_cons.
    + apply NoDup_cons. split; [|by apply IH].
      rewrite dict_set_keys. intros [?|?]; done.
Qed.

Lemma apply_default_first_loop_NoDup (default : PyParam)
    (items lp lp' : Parameters) :
  NoDup (lp.*1) ->
  apply_default_first_loop default items lp = Ok lp' ->
  NoDup (lp'.*1).
Proof.
  revert lp. induction items as [|[key value] items IH]; intros lp Hnd Hrun.
  - cbn in Hrun. by simplify_eq.
  - cbn -[apply_default_parameters_nested] in Hrun.
    destruct value as [v|sub]; cbn -[apply_default_parameters_nested] in Hrun.
    + eapply IH; [|exact Hrun]. by apply dict_set_NoDup.
    + destruct (default_get default key) as [sd|]; [|discriminate].
      cbn -[apply_default_parameters_nested] in Hrun.
      destruct (apply_default_parameters_nested (PNested sub) sd)
        as [sub'|]; [|discriminate].
      cbn -[apply_default_parameters_nested] in Hrun.
      eapply IH; [|exact Hrun]. by apply dict_set_NoDup.
Qed.

Lemma apply_defaults_loop_NoDup (d lp lp' : Parameters) :
  NoDup (lp.*1) ->
  apply_defaults_loop (PNested d) lp = Ok lp' ->
  NoDup (lp'.*1).
Proof.
  unfold apply_defaults_loop. intros Hnd [= <-]. revert lp Hnd.
  induction d as [|[k0 v0] d IH]; intros lp Hnd; cbn; [done|].
  apply IH. case_bool_decide; [done|]. by apply dict_set_NoDup.
Qed.

Lemma apply_default_parameters_NoDup (parameters d r : Parameters) :
  apply_default_parameters parameters (PNested d) = Ok r -> NoDup (r.*1).
Proof.
  rewrite apply_default_parameters_unfold. intros Hrun.
  destruct (apply_default_first_loop (PNested d) parameters [])
    as [lp|] eqn:Hfirst; [|discriminate].
  cbn in Hrun. eapply apply_defaults_loop_NoDup; [|exact Hrun].
  eapply apply_default_first_loop_NoDup; [|exact Hfirst]. apply NoDup_nil_2.
Qed.

Lemma dict_del_lookup {A} (k : string) (d d' : list (string * A)) :
  NoDup (d.*1) ->
  dict_del k d = Ok d' ->
  NoDup (d'.*1)
  /\ forall k',
       dict_lookup k' d' = if decide (k = k') then None else dict_lookup k' d.
Proof.
  revert d'. induction d as [|[k0 v0] d IH]; intros d' Hnd Hdel;
    [discriminate|].
  apply NoDup_cons in Hnd as [Hk0 Hnd]. cbn in Hdel, Hk0.
  destruct (decide (k0 = k)) as [->|Hne].
  - simplify_eq. split; [done|]. intros k'. cbn.
    destruct (decide (k = k')) as [->|?]; [|done].
    by apply dict_lookup_None.
  - destruct (dict_del k d) as [d''|] eqn:Hd; [|discriminate].
    cbn in Hdel. simplify_eq.
    destruct (IH d'' Hnd eq_refl) as [Hnd' Hl]. split.
    + cbn. apply NoDup_cons. split; [|done].
      intros Hin. apply Hk0.
      apply dict_lookup_is_Some in Hin. rewrite Hl in Hin.
      apply dict_lookup_is_Some. by destruct (decide (k = k0)).
    + intros k'. cbn. rewrite Hl.
      destruct (decide (k0 = k')) as [->|?]; [|done].
      by rewrite decide_False.
Qed.

Lemma dict_del_Ok {A} (k : string) (d : list (string * A)) :
  is_Some (dict_lookup k d) -> exists d', dict_del k d = Ok d'.
Proof.
  induction d as [|[k0 v0] d IH]; cbn; [by intros [? ?]|].
  destruct (decide (k0 = k)); [eauto|].
  intros [d' ->]%IH. cbn. eauto.
Qed.

Section solver_parameters_properties.
Context {SPB : SolverParametersBackend}.

(** X24.  What [expand_linear_solver_parameters] returns names the
    linear solver, the one the caller gave if it gave one, and holds the
    parameters of one kind of solver only: for a direct solver (["default"],
    ["lu"] or an LU method of dolfin) the ["lu_solver"] set, without
    ["preconditioner"] and ["krylov_solver"]; for any other solver the
    ["preconditioner"] and the ["krylov_solver"] set, without
    ["lu_solver"].  The three [del] never raise [KeyError]. *)
Theorem expand_linear_solver_parameters_keeps_one_solver
    (linear_solver_parameters default_linear_solver_parameters : Parameters) :
  NoDup (linear_solver_parameters.*1) ->
  (forall r,
     expand_linear_solver_parameters linear_solver_parameters
       default_linear_solver_parameters = Ok r ->
     exists linear_solver,
       dict_lookup "linear_solver" r = Some linear_solver
       /\ (forall v,
             dict_lookup "linear_solver" linear_solver_parameters
             = Some (PValue v) ->
             linear_solver = PValue v)
       /\ if is_lu_linear_solver linear_solver
          then is_Some (dict_lookup "lu_solver" r)
               /\ dict_lookup "preconditioner" r = None
               /\ dict_lookup "krylov_solver" r = None
          else dict_lookup "lu_solver" r = None
               /\ is_Some (dict_lookup "preconditioner" r)
               /\ is_Some (dict_lookup "krylov_solver" r))
  /\ (forall key,
        expand_linear_solver_parameters linear_solver_parameters
          default_linear_solver_parameters <> Raise (Exn "KeyError" key)).
Proof.
  intros Hnd.
  assert (Hshape : forall r1 r2,
    apply_default_parameters linear_solver_parameters
      (PNested default_linear_solver_parameters) = Ok r1 ->
    apply_default_parameters r1 (PNested global_linear_solver_defaults)
    = Ok r2 ->
    NoDup (r2.*1)
    /\ (forall key, key ∈ ["linear_solver"; "preconditioner"; "lu_solver";
                           "krylov_solver"] ->
                    is_Some (dict_lookup key r2))
    /\ (forall v, dict_lookup "linear_solver" linear_solver_parameters
                  = Some (PValue v) ->
                  dict_lookup "linear_solver" r2 = Some (PValue v))).
  { intros r1 r2 H1 H2.
    pose proof (apply_default_parameters_NoDup _ _ _ H1) as Hnd1.
    pose proof (apply_default_parameters_NoDup _ _ _ H2) as Hnd2.
    destruct (apply_default_parameters_keeps_explicit_values_aux
                r1 global_linear_solver_defaults Hnd1) as [Hl2 _].
    destruct (apply_default_parameters_keeps_explicit_values_aux
                linear_solver_parameters default_linear_solver_parameters
                Hnd) as [Hl1 _].
    split_and!; [done| |].
    - intros key Hkey. specialize (Hl2 r2 H2 key).
      destruct (dict_lookup key r1) as [[v|sub]|].
      + by rewrite Hl2.
      + destruct Hl2 as (sub' & _ & ->). done.
      + rewrite Hl2. rewrite !elem_of_cons, elem_of_nil in Hkey.
        destruct Hkey as [->|[->|[->|[->|[]]]]]; by cbn.
    - intros v Hv. specialize (Hl1 r1 H1 "linear_solver").
      rewrite Hv in Hl1. specialize (Hl2 r2 H2 "linear_solver").
      by rewrite Hl1 in Hl2. }
  unfold expand_linear_solver_parameters. split.
  - intros r Hrun.
    destruct (apply_default_parameters linear_solver_parameters _)
      as [r1|] eqn:H1; [|discriminate].
    cbn -[apply_default_parameters] in Hrun.
    destruct (apply_default_parameters r1 _) as [r2|] eqn:H2;
      [|discriminate].
    cbn -[apply_default_parameters] in Hrun.
    destruct (Hshape r1 r2 eq_refl H2) as (Hnd2 & Hkeys & Hls).
    destruct (Hkeys "linear_solver") as [ls Hlsv];
      [rewrite !elem_of_cons; tauto|].
    rewrite Hlsv in Hrun. cbn in Hrun. exists ls.
    destruct (is_lu_linear_solver ls).
    + destruct (dict_del "preconditioner" r2) as [r3|] eqn:Hd1;
        [|discriminate].
      cbn in Hrun.
      destruct (dict_del_lookup "preconditioner" _ _ Hnd2 Hd1)
        as [Hnd3 Hl3].
      destruct (dict_del_lookup "krylov_solver" _ _ Hnd3 Hrun) as [_ Hl4].
      rewrite !Hl4, !Hl3. cbn. split_and!; try done.
      * intros v Hv. apply Hls in Hv. congruence.
      * apply Hkeys. rewrite !elem_of_cons; tauto.
    + destruct (dict_del_lookup "lu_solver" _ _ Hnd2 Hrun) as [_ Hl3].
      rewrite !Hl3. cbn. split_and!; try done.
      * intros v Hv. apply Hls in Hv. congruence.
      * apply Hkeys. rewrite !elem_of_cons; tauto.
      * apply Hkeys. rewrite !elem_of_cons; tauto.
  - intros key Hrun.
    destruct (apply_default_parameters linear_solver_parameters _)
      as [r1|] eqn:H1.
    2:{ cbn in Hrun. injection Hrun as ->.
        by apply apply_default_parameters_no_KeyError in H1. }
    cbn -[apply_default_parameters] in Hrun.
    destruct (apply_default_parameters r1 _) as [r2|] eqn:H2.
    2:{ cbn in Hrun. injection Hrun as ->.
        by apply apply_default_parameters_no_KeyError in H2. }
    cbn -[apply_default_parameters] in Hrun.
    destruct (Hshape r1 r2 eq_refl H2) as (Hnd2 & Hkeys & Hls).
    destruct (Hkeys "linear_solver") as [ls Hlsv];
      [rewrite !elem_of_cons; tauto|].
    rewrite Hlsv in Hrun. cbn in Hrun.
    destruct (is_lu_linear_solver ls).
    + destruct (dict_del_Ok "preconditioner" r2) as [r3 Hd1].
      { apply Hkeys. rewrite !elem_of_cons; tauto. }
      rewrite Hd1 in Hrun. cbn in Hrun.
      destruct (dict_del_lookup "preconditioner" _ _ Hnd2 Hd1)
        as [Hnd3 Hl3].
      destruct (dict_del_Ok "krylov_solver" r3) as [r4 Hd2].
      { rewrite Hl3. cbn. apply Hkeys. rewrite !elem_of_cons; tauto. }
      by rewrite Hd2 in Hrun.
    + destruct (dict_del_Ok "lu_solver" r2) as [r3 Hd1].
      { apply Hkeys. rewrite !elem_of_cons; tauto. }
      by rewrite Hd1 in Hrun.
Qed.

End solver_parameters_properties.

Lemma time_le_spec (stop start : TimePoint) :
  time_le stop start
  = match stop, start with
    | START_TIME, _ => true
    | _, FINISH_TIME => true
    | TimeValue x, TimeValue y => PrimFloat.leb x y
    | _, _ => false
    end.
Proof. by destruct stop, start. Qed.

(** X25.  [timeslice] fills an open end of a slice with [START_TIME] or
    [FINISH_TIME] and refuses the slice, with
    [LibadjointErrorInvalidInputs], exactly when its stop is
    [START_TIME], or its start is [FINISH_TIME], or both are floats with
    the stop not after the start.  What it returns it returns unchanged
    when applied again, so [TimeMeasure.__getitem__], which applies it
    twice, gives what one application gives. *)
Theorem timeslice_orders_and_is_idempotent (key : TimeKey) :
  (forall s,
     key = KeySlice s ->
     let start := from_option id START_TIME (slice_start s) in
     let stop := from_option id FINISH_TIME (slice_stop s) in
     if match stop, start with
        | START_TIME, _ => true
        | _, FINISH_TIME => true
        | TimeValue x, TimeValue y => PrimFloat.leb x y
        | _, _ => false
        end
     then timeslice key
          = Raise (LibadjointErrorInvalidInputs
                     "Zero or negative length time slice.")
     else timeslice key
          = Ok (KeySlice {| slice_start := Some start;
                            slice_stop := Some stop;
                            slice_step := slice_step s |}))
  /\ (forall t, key = KeyPoint t -> timeslice key = Ok key)
  /\ (forall key', timeslice key = Ok key' -> timeslice key' = Ok key')
  /\ TimeMeasure_getitem key = timeslice key.
Proof.
  assert (Hidem : forall key', timeslice key = Ok key' ->
                               timeslice key' = Ok key').
  { intros key' Hrun. destruct key as [s|t]; cbn in Hrun.
    - destruct (time_le _ _) eqn:Hle; [discriminate|].
      injection Hrun as <-. cbn. by rewrite Hle.
    - by injection Hrun as <-. }
  split_and!; try done.
  - intros s -> start stop. subst start stop. cbn.
    destruct (slice_start s) as [[| |y]|], (slice_stop s) as [[| |x]|];
      cbn; try done; by destruct (PrimFloat.leb x y).
  - by intros t ->.
  - unfold TimeMeasure_getitem, TimeMeasure_init.
    destruct (timeslice key) as [key'|] eqn:Hrun; [|done].
    cbn. by apply Hidem.
Qed.

Section timeforms_properties.
Context {BE : Backend} {TFB : TimeFormBackend}.

Lemma TimeForm_div_nonzero (terms : TimeForm) (factor : float) :
  PrimFloat.eqb factor 0 = false ->
  TimeForm_div terms factor = Ok (TimeForm_mul terms (1 / factor)).
Proof.
  intros Hfactor. unfold TimeForm_div, TimeForm_mul.
  induction terms as [|term terms IH]; [done|].
  cbn [mapM map]. rewrite IH.
  unfold TimeTerm_div, py_float_inverse. by rewrite Hfactor.
Qed.

Lemma py_sum_TimeForms_from (self : TimeForm) (timeforms : list TimeForm) :
  foldl (fun (acc : result Operand) (tf : TimeForm) =>
           acc ← acc ; py_add acc tf)
        (Ok (OTimeForm self)) timeforms
  = Ok (OTimeForm (self ++ concat timeforms)).
Proof.
  revert self. induction timeforms as [|tf timeforms IH]; intros self; cbn.
  - by rewrite app_nil_r.
  - rewrite IH. by rewrite <- app_assoc.
Qed.

(** X26.  A [TimeForm] is the sequence of its terms, and its operations
    act on that sequence: [+] appends, so it is associative, and adding
    the number 0 changes nothing; Python's [sum] of a non-empty list of
    TimeForms is the TimeForm of all their terms in order; [-] appends the
    negated terms, which is adding the negation; multiplication and
    negation act term by term, distribute over [+], and leave the time of
    every term as it was.  Division by a number other than zero is
    multiplication by its inverse; division by zero raises
    [ZeroDivisionError] as soon as there is a term to divide, and returns
    the empty TimeForm when there is none. *)
Theorem TimeForm_operations_act_on_the_terms (a b c : TimeForm) :
  (TimeForm_add a (OTimeForm b) = Ok (Some (a ++ b))
   /\ TimeForm_add (a ++ b) (OTimeForm c)
      = TimeForm_add a (OTimeForm (b ++ c))
   /\ TimeForm_add a (ONumber 0) = Ok (Some a)
   /\ TimeForm_radd a (ONumber 0) = Ok (Some a))
  /\ (forall timeforms,
        py_sum_TimeForms (a :: timeforms)
        = Ok (OTimeForm (concat (a :: timeforms)))
        /\ py_sum_TimeForms [] = Ok (ONumber 0))
  /\ (TimeForm_sub a (OTimeForm b) = Some (a ++ TimeForm_neg b)
      /\ Ok (TimeForm_sub a (OTimeForm b))
         = TimeForm_add a (OTimeForm (TimeForm_neg b)))
  /\ (forall factor,
        TimeForm_mul (a ++ b) factor
        = TimeForm_mul a factor ++ TimeForm_mul b factor
        /\ TimeForm_neg (a ++ b) = TimeForm_neg a ++ TimeForm_neg b
        /\ map tt_time (TimeForm_mul a factor) = map tt_time a
        /\ map tt_time (TimeForm_neg a) = map tt_time a)
  /\ (forall factor,
        PrimFloat.eqb factor 0 = false ->
        TimeForm_div a factor = Ok (TimeForm_mul a (1 / factor))
        /\ TimeForm_div (a ++ b) factor
           = Ok (TimeForm_mul a (1 / factor) ++ TimeForm_mul b (1 / factor)))
  /\ (forall factor,
        PrimFloat.eqb factor 0 = true ->
        TimeForm_div [] factor = Ok []
        /\ forall term,
             TimeForm_div (term :: a) factor
             = Raise (Exn "ZeroDivisionError" "float division by zero")).
Proof.
  split_and!; try done.
  - cbn. by rewrite app_assoc.
  - intros timeforms. split; [|done]. unfold py_sum_TimeForms. cbn [foldl].
    cbn -[foldl concat]. apply py_sum_TimeForms_from.
  - intros factor. unfold TimeForm_mul, TimeForm_neg.
    rewrite !map_app, !map_map. by split_and!.
  - intros factor Hfactor.
    assert (Hdiv : forall terms,
              TimeForm_div terms factor
              = Ok (TimeForm_mul terms (1 / factor))).
    { intros terms. by apply TimeForm_div_nonzero. }
    split; [apply Hdiv|]. rewrite Hdiv. unfold TimeForm_mul.
    by rewrite map_app.
  - intros factor Hfactor. split; [done|]. intros term.
    unfold TimeForm_div. cbn [mapM].
    unfold TimeTerm_div, py_float_inverse. by rewrite Hfactor.
Qed.

(** X27.  [TimeForm.is_functional] returns from inside its loop at the
    first term: its answer is that for the first term alone, whatever the
    rank of the forms of the later terms, and for a TimeForm without
    terms it returns nothing ([None]). *)
Theorem TimeForm_is_functional_tests_first_term
    (term : TimeTerm) (terms : TimeForm) :
  TimeForm_is_functional (term :: terms)
  = Some (bool_decide (form_rank (tt_form term) = 0))
  /\ TimeForm_is_functional (term :: terms) = TimeForm_is_functional [term]
  /\ TimeForm_is_functional [] = None.
Proof.
  cbn. split_and!; try done. by case_bool_decide.
Qed.

End timeforms_properties.

(** * The examples, run

    The statements above at the objects of [Example]. *)

Section examples.
Import Example.


#[local] Abbreviation annotated_solve :=
  (AdjointPETScKrylovSolver_annotate solver identity_operator x_u
    (rhs_vector [inflow]) state0)
  (only parsing).

(** The solve with an operator that has no [transpmult], on the empty tape. *)
Lemma solve_without_transpmult_fails_at_registration_witness :
  transpmult operator_without_transpmult = None
  /\ AdjointPETScKrylovSolver_solve solver operator_without_transpmult x_u
       (rhs_vector [inflow]) true state0
     = (Raise (LibadjointErrorInvalidInputs transpmult_missing), state0).
Proof.
  split; [reflexivity|].
  apply (solve_without_transpmult_fails_at_registration solver
           operator_without_transpmult x_u (rhs_vector [inflow]) state0).
  reflexivity.
Defined.

(** The exception of that solve is libadjoint's [LibadjointErrorInvalidInputs]
    with the long message, and not a [ContractError] that says
    [missing transpose]. *)
Lemma solve_without_transpmult_is_not_ContractError :
  transpmult operator_without_transpmult = None
  /\ (AdjointPETScKrylovSolver_solve solver operator_without_transpmult x_u
        (rhs_vector [inflow]) true state0).1
     = Raise (LibadjointErrorInvalidInputs transpmult_missing)
  /\ (AdjointPETScKrylovSolver_solve solver operator_without_transpmult x_u
        (rhs_vector [inflow]) true state0).1
     <> Raise (Exn "ContractError" "missing transpose").
Proof.
  split_and!; [reflexivity|vm_compute; reflexivity|].
  vm_compute. discriminate.
Qed.

(** The identity operator, whose [transpmult] is its [mult], and a [b] with
    the Dirichlet condition that sets entry 0 to 1: the adjoint direction
    solves with the homogenized condition and gives [0; 0], the forward
    direction gives [1; 0]. *)
Lemma symmetric_operator_solves_differ_with_inhomogeneous_bc :
  transpmult identity_operator = Some (mult identity_operator)
  /\ exists Mt Mf h',
       diag_assembly_cb solver identity_operator x_u (rhs_vector [inflow])
         ∅ [] [] true 1 heap0
       = (Ok (Mt, mkVector (None, V)), h')
       /\ diag_assembly_cb solver identity_operator x_u (rhs_vector [inflow])
            ∅ [] [] false 1 heap0
          = (Ok (Mf, mkVector (None, V)), h')
       /\ MatrixFree_solve_values Mt u_var (mkVector ((1, [u]) : Form)) heap0
          = Ok [0; 0]%float
       /\ MatrixFree_solve_values Mf u_var (mkVector ((1, [u]) : Form)) heap0
          = Ok [1; 0]%float
       /\ MatrixFree_solve_values Mt u_var (mkVector ((1, [u]) : Form)) heap0
          <> MatrixFree_solve_values Mf u_var (mkVector ((1, [u]) : Form))
               heap0.
Proof.
  split; [reflexivity|].
  eexists _, _, _. split; [reflexivity|]. split; [reflexivity|].
  split; [vm_compute; reflexivity|]. split; [vm_compute; reflexivity|].
  intros Heq.
  apply (f_equal (fun r : result Vec =>
                    match r with
                    | Ok (x0 :: _) => PrimFloat.eqb x0 1%float
                    | _ => false
                    end)) in Heq.
  vm_compute in Heq. discriminate.
Qed.

#[local] Abbreviation assigned_sum :=
  (dolfin_adjoint_assign y two_a_three_b (Some true) state0)
  (only parsing).

#[local] Abbreviation solved :=
  (AdjointPETScKrylovSolver_solve solver identity_operator x_u
    (rhs_vector [inflow]) true state0)
  (only parsing).

#[local] Abbreviation assigned_a :=
  (dolfin_adjoint_assign_register y (EFunction a) None [EFunction a]
    [1%float] y_var state0)
  (only parsing).


(** The annotation of a solve with the identity operator registers. *)
Lemma matrix_free_adjoint_is_transposed_krylov_solve_witness :
  AdjointPETScKrylovSolver_annotate solver identity_operator x_u
    (rhs_vector [inflow]) state0
  = (Ok u_var, annotated_solve.2)
  /\ exists At eqn blk cb,
       transpmult identity_operator = Some At
       /\ last (adj_equations (adjointer annotated_solve.2)) = Some eqn
       /\ eq_var eqn = u_var /\ eq_blocks eqn = [blk]
       /\ block_assemble blk = Some cb
       /\ forall values h f V bl,
            function x_u = Some f -> function_space f = Some V ->
            bcs (rhs_vector [inflow]) = Some bl ->
            exists M h',
              cb (block_dependencies blk) values true 1%Z h
              = (Ok (M, mkVector (None, V)), h')
              /\ mult (mf_data M) = At
              /\ transpmult (mf_data M) = Some (mult identity_operator)
              /\ mf_bcs M
                 = map homogenize
                     (filter (fun bc => bc_is_DirichletBC bc = true) bl)
              /\ forall var' rhs h2,
                   exists xnew h3,
                     h3 = set_vectors
                            <[ufl_count xnew :=
                                replicate (fs_dim V) 0%float]> h2
                     /\ MatrixFree_solve M var' rhs h2
                        = (Ok (mkVector xnew),
                           set_vectors
                             <[ufl_count xnew :=
                                 (PETScKrylovSolver_solve
                                    (solver_parameters solver)
                                    (At h3) (Some (mult identity_operator h3))
                                    (replicate (fs_dim V) 0%float)
                                    (foldl (fun r bc => bc_apply_vector bc r)
                                       (assemble_vector h3 (data rhs))
                                       (mf_bcs M))).1]> h3).
Proof.
  assert (Hrun : AdjointPETScKrylovSolver_annotate solver identity_operator
                   x_u (rhs_vector [inflow]) state0
                 = (Ok u_var, annotated_solve.2))
    by (apply run_eq; vm_compute; reflexivity).
  split; [exact Hrun|].
  exact (matrix_free_adjoint_is_transposed_krylov_solve solver
           identity_operator x_u (rhs_vector [inflow]) state0
           annotated_solve.2 u_var Hrun).
Defined.

(** The same registration, for the snapshot of the expressions. *)
Lemma frozen_expressions_are_restored_before_evaluation_witness :
  AdjointPETScKrylovSolver_annotate solver identity_operator x_u
    (rhs_vector [inflow]) state0
  = (Ok u_var, annotated_solve.2)
  /\ let frozen := freeze_dict (heap state0) in
     exists eqn blk cb,
       last (adj_equations (adjointer annotated_solve.2)) = Some eqn
       /\ eq_var eqn = u_var /\ eq_blocks eqn = [blk]
       /\ block_assemble blk = Some cb
       /\ (forall h k v,
             expression_attrs (heap state0) !! k = Some v ->
             expression_attrs (update_expressions frozen h) !! k = Some v)
       /\ (forall deps values hermitian h,
             cb deps values hermitian 1%Z h
             = cb deps values hermitian 1%Z (update_expressions frozen h))
       /\ (forall da deps values variable contraction_vector hermitian input
                  coefficient h,
             block_derivative_action blk = Some da ->
             da deps values variable contraction_vector hermitian input
                coefficient h
             = da deps values variable contraction_vector hermitian input
                  coefficient (update_expressions frozen h))
       /\ (forall h1 h2 deps values hermitian,
             differ_only_in_frozen frozen h1 h2 ->
             cb deps values hermitian 1%Z h1
             = cb deps values hermitian 1%Z h2)
       /\ (forall h1 h2 da deps values variable contraction_vector hermitian
                  input coefficient,
             differ_only_in_frozen frozen h1 h2 ->
             block_derivative_action blk = Some da ->
             da deps values variable contraction_vector hermitian input
                coefficient h1
             = da deps values variable contraction_vector hermitian input
                  coefficient h2).
Proof.
  assert (Hrun : AdjointPETScKrylovSolver_annotate solver identity_operator
                   x_u (rhs_vector [inflow]) state0
                 = (Ok u_var, annotated_solve.2))
    by (apply run_eq; vm_compute; reflexivity).
  split; [exact Hrun|].
  exact (frozen_expressions_are_restored_before_evaluation solver
           identity_operator x_u (rhs_vector [inflow]) state0
           annotated_solve.2 u_var Hrun).
Defined.

(** The identity operator and a [b] whose only condition sets entry 0
    to 0. *)
Lemma symmetric_operator_same_solve_with_homogeneous_bcs_witness :
  transpmult identity_operator = Some (mult identity_operator)
  /\ bcs (rhs_vector [noslip]) = Some [noslip]
  /\ Forall (fun bc => bc_is_DirichletBC bc = true
                       /\ Forall (fun iv => iv.2 = 0%float) (bc_values bc))
        [noslip]
  /\ exists Mt Mf h',
       diag_assembly_cb solver identity_operator x_u (rhs_vector [noslip])
         ∅ [] [] true 1 heap0
       = (Ok (Mt, mkVector (None, V)), h')
       /\ diag_assembly_cb solver identity_operator x_u (rhs_vector [noslip])
            ∅ [] [] false 1 heap0
          = (Ok (Mf, mkVector (None, V)), h')
       /\ mult (mf_data Mt) = mult (mf_data Mf)
       /\ transpmult (mf_data Mt) = transpmult (mf_data Mf)
       /\ forall var rhs h2,
            MatrixFree_solve Mt var rhs h2 = MatrixFree_solve Mf var rhs h2.
Proof.
  assert (Hbl : Forall (fun bc => bc_is_DirichletBC bc = true
                          /\ Forall (fun iv => iv.2 = 0%float) (bc_values bc))
                  [noslip]).
  { repeat constructor. }
  split_and!; [reflexivity|reflexivity|exact Hbl|].
  assert (Hdeps : 0 < length (@nil Variable_)
                  -> is_Some (set_dependencies identity_operator))
    by (cbn; lia).
  exact (symmetric_operator_same_solve_with_homogeneous_bcs solver
           identity_operator x_u (rhs_vector [noslip]) ∅ [] [] heap0 u V
           [noslip] eq_refl eq_refl eq_refl eq_refl Hdeps Hbl).
Defined.

(** The assignment [y.assign(2*a + 3*b, annotate=True)] on the empty
    tape. *)
Lemma lincom_derivative_action_returns_weight_times_contraction_witness :
  two_a_three_b ∈ two_a_plus_three_b a b
  /\ dolfin_adjoint_str a <> dolfin_adjoint_str b
  /\ dolfin_adjoint_assign y two_a_three_b (Some true) state0
     = (Ok tt, assigned_sum.2)
  /\ exists eqn rhs,
       last (adj_equations (adjointer assigned_sum.2)) = Some eqn
       /\ eq_rhs eqn = RHS_LinCom rhs
       /\ let variable :=
            CoeffStore_current (adj_variables assigned_sum.2)
              (dolfin_adjoint_str a) in
          variable ∈ LinComRHS_dependencies rhs
          /\ forall values cv hermitian s2,
               symmetric_bcs (parameters_adjoint s2) = false ->
               is_Some (function_space (data cv)) ->
               ufl_count (data cv) ∈ dom (vectors (heap s2)) ->
               exists out h1,
                 backend_Function (fn_space rhs) (heap s2) = (Ok out, h1)
                 /\ LinComRHS_derivative_action rhs
                      (LinComRHS_dependencies rhs) values variable cv
                      hermitian s2
                    = (Ok (mkVector (inl out)),
                       set_heap (fun _ =>
                         dolfin_assign out (scalar_mul 2 (data cv)) h1) s2).
Proof.
  assert (Hin : two_a_three_b ∈ two_a_plus_three_b a b) by constructor.
  assert (Hstr : dolfin_adjoint_str a <> dolfin_adjoint_str b)
    by (vm_compute; discriminate).
  assert (Hrun : dolfin_adjoint_assign y two_a_three_b (Some true) state0
                 = (Ok tt, assigned_sum.2))
    by (apply run_eq; vm_compute; reflexivity).
  split_and!; [exact Hin|exact Hstr|exact Hrun|].
  assert (Hay : a <> y)
    by (intros Heq; apply (f_equal ufl_count) in Heq; discriminate Heq).
  assert (Hby : b <> y)
    by (intros Heq; apply (f_equal ufl_count) in Heq; discriminate Heq).
  exact (lincom_derivative_action_returns_weight_times_contraction a b y V
           two_a_three_b state0 assigned_sum.2 Hin eq_refl eq_refl Hay Hby
           Hstr eq_refl eq_refl Hrun).
Defined.


(** The cache in use: an object assembled once is returned again after the
    numerical state has moved on, until [clear] removes it. *)
Lemma AssemblyCache_returns_stale_object :
  let form : Form := (1, [u]) in
  let first := AssemblyCache_assemble form [] [] false true cache0 in
  let later := AssemblyCache_assemble form [] [] false true
                 (set_world 5 first.2) in
  let cleared := AssemblyCache_clear [u] later.2 in
  let again := AssemblyCache_assemble form [] [] false true cleared.2 in
  first.1 = Ok 0 /\ later.1 = Ok 0 /\ world later.2 = 5
  /\ cleared.1 = Ok tt /\ again.1 = Ok 5.
Proof. vm_compute. by split_and!. Qed.

(** The cache in use, from empty: the first call assembles in the
    numerical state 0 and stores the object; the same call in the state 5,
    where a new assembly would give another object, returns the stored
    one. *)
Lemma AssemblyCache_keyed_by_structure_and_cleared_explicitly_witness :
  exists key s1 s2,
    AssemblyCache_key ((1, [u]) : Form)
      (parameters_update (form_compiler cache0) []) [] false true = Ok key
    /\ cache cache0 !! key = None
    /\ ts_assemble ((1, [u]) : Form)
         (parameters_update (form_compiler cache0) []) (world cache0)
       = (Ok 0, 1)
    /\ AssemblyCache_assemble (1, [u]) [] [] false true cache0 = (Ok 0, s1)
    /\ world s1 = 1 /\ cache s1 = <[key := 0]> (cache cache0)
    /\ ts_assemble ((1, [u]) : Form)
         (parameters_update (form_compiler s1) []) 5
       = (Ok 5, 6)
    /\ AssemblyCache_assemble (1, [u]) [] [] false true (set_world 5 s1)
       = (Ok 0, s2)
    /\ cache s2 = cache s1 /\ world s2 = 5.
Proof.
  destruct (AssemblyCache_keyed_by_structure_and_cleared_explicitly
              (BE := backend))
    as (Hmiss & Hhit & _).
  destruct (Hmiss ((1, [u]) : simple_form) [] [] false true cache0
              ((1, [u]) : simple_form, parameters_key [], None) (Ok 0) 1
              eq_refl eq_refl (fun H => False_ind _ (H eq_refl)) eq_refl)
    as (s1 & Hrun1 & Hw1 & Hc1).
  destruct (Hhit ((1, [u]) : simple_form) [] [] false true cache0 0 s1 Hrun1
              5 ((1, [u]) : simple_form) [] [] false true eq_refl
              (fun H => False_ind _ (H eq_refl)))
    as (s2 & Hrun2 & Hc2 & Hw2).
  exists ((1, [u]) : simple_form, parameters_key [], None), s1, s2.
  split_and!; try done.
Defined.

#[local] Abbreviation annotated_without_bcs :=
  (AdjointPETScKrylovSolver_annotate solver identity_operator x_u
    rhs_without_bcs state0)
  (only parsing).

(** The solve with the identity operator and a right-hand side to which no
    boundary condition was applied: it registers and returns, and the
    callback on the tape raises. *)
Lemma registered_solve_without_bcs_has_no_adjoint_witness :
  AdjointPETScKrylovSolver_annotate solver identity_operator x_u
    rhs_without_bcs state0
  = (Ok u_var, annotated_without_bcs.2)
  /\ bcs rhs_without_bcs = None
  /\ (AdjointPETScKrylovSolver_solve solver identity_operator x_u
        rhs_without_bcs true state0).1 = Ok 2
  /\ exists eqn blk cb,
       last (adj_equations (adjointer annotated_without_bcs.2)) = Some eqn
       /\ eq_var eqn = u_var /\ eq_blocks eqn = [blk]
       /\ block_assemble blk = Some cb
       /\ forall values hermitian h f V,
            function x_u = Some f -> function_space f = Some V ->
            exists h',
              cb (block_dependencies blk) values hermitian 1%Z h
              = (Raise (Exn "AttributeError" "bcs"), h').
Proof.
  assert (Hrun : AdjointPETScKrylovSolver_annotate solver identity_operator
                   x_u rhs_without_bcs state0
                 = (Ok u_var, annotated_without_bcs.2))
    by (apply run_eq; vm_compute; reflexivity).
  split; [exact Hrun|]. split; [reflexivity|].
  split; [vm_compute; reflexivity|].
  exact (registered_solve_without_bcs_has_no_adjoint solver
           identity_operator x_u rhs_without_bcs state0
           annotated_without_bcs.2 u_var Hrun eq_refl).
Defined.

End examples.

(** * The further properties, run *)

Section more_examples.
Import Example.

#[local] Abbreviation contracted :=
  (_check_and_contract_linear_comb (ESum (EFunction y) (EFunction a)) y None
     state0)
  (only parsing).

(** [y.assign(y + a)]: the combination names [y], and a copy of [y]
    stands in its place. *)
Lemma contracted_linear_combination_excludes_self_witness :
  ufl_count y ∈ dom (vectors (heap state0))
  /\ exists lincom,
       _check_and_contract_linear_comb (ESum (EFunction y) (EFunction a)) y
         None state0
       = (Ok lincom, contracted.2)
       /\ exists linear_comb,
            _check_and_extract_functions (ESum (EFunction y) (EFunction a))
              None = Ok linear_comb
            /\ (y ∉ lincom.*1)
            /\ (forall f, f ∈ (linear_comb.*1) -> f <> y -> f ∈ (lincom.*1))
            /\ (y ∉ (linear_comb.*1) ->
                contracted.2 = state0 /\ NoDup (lincom.*1)
                /\ forall f, f ∈ (lincom.*1) <-> f ∈ (linear_comb.*1)).
Proof.
  assert (Hself : ufl_count y ∈ dom (vectors (heap state0))).
  { apply elem_of_dom. eexists. vm_compute. reflexivity. }
  split; [exact Hself|].
  eexists. split.
  - apply run_eq. vm_compute. reflexivity.
  - apply (contracted_linear_combination_excludes_self
             (ESum (EFunction y) (EFunction a)) y None state0 contracted.2).
    + exact Hself.
    + apply run_eq. vm_compute. reflexivity.
Defined.

(** [y.assign(2*a + 3*b)] on a backend named firedrake. *)
Lemma assign_linear_combination_not_implemented_off_dolfin_witness :
  @backend_name _ firedrake_backend <> "dolfin"
  /\ match two_a_three_b with ESum _ _ | EProduct _ _ => True | _ => False end
  /\ @utils_to_annotate _ firedrake_backend None (parameters_adjoint state0)
     = true
  /\ dolfin_adjoint_assign (ABE := firedrake_backend) y two_a_three_b None
       state0
     = (Raise (LibadjointErrorNotImplemented
          "Cannot use Function.assign(linear combination of other Functions) yet."),
        state0).
Proof.
  assert (Hname : @backend_name _ firedrake_backend <> "dolfin")
    by discriminate.
  split_and!; [exact Hname|exact I|reflexivity|].
  exact (assign_linear_combination_not_implemented_off_dolfin
           (ABE := firedrake_backend) y two_a_three_b None state0
           Hname I eq_refl).
Defined.

(** [y.assign(a)] on the empty tape, where neither [y] nor [a] has a
    variable. *)
Lemma assign_of_unknown_functions_is_not_annotated_witness :
  ufl_count a <> ufl_count y
  /\ (None : option bool) <> Some true
  /\ utils_to_annotate None (parameters_adjoint state0) = true
  /\ function_space y = Some V /\ function_space a = Some V
  /\ FunctionSpace_str V = FunctionSpace_str V
  /\ variable_known (adjointer state0)
       (CoeffStore_current (adj_variables state0) (dolfin_adjoint_str y))
     = false
  /\ variable_known (adjointer state0)
       (CoeffStore_current (adj_variables state0) (dolfin_adjoint_str a))
     = false
  /\ exists s',
       dolfin_adjoint_assign y (EFunction a) None state0 = (Ok tt, s')
       /\ adjointer s' = adjointer state0
       /\ heap s' = dolfin_assign y (EFunction a) (heap state0)
       /\ adj_variables s'
          = CoeffStore_forget
              (CoeffStore_forget (adj_variables state0)
                 (dolfin_adjoint_str a))
              (dolfin_adjoint_str y).
Proof.
  assert (Hg : ufl_count a <> ufl_count y) by discriminate.
  assert (Hann : (None : option bool) <> Some true) by discriminate.
  assert (Hy : variable_known (adjointer state0)
                 (CoeffStore_current (adj_variables state0)
                    (dolfin_adjoint_str y)) = false)
    by (vm_compute; reflexivity).
  assert (Ha : variable_known (adjointer state0)
                 (CoeffStore_current (adj_variables state0)
                    (dolfin_adjoint_str a)) = false)
    by (vm_compute; reflexivity).
  split_and!;
    [exact Hg|exact Hann|reflexivity|reflexivity|reflexivity|reflexivity
    |exact Hy|exact Ha|].
  exact (assign_of_unknown_functions_is_not_annotated y a None V V state0
           Hg Hann eq_refl eq_refl eq_refl eq_refl Hy Ha).
Defined.

(** The derivative of [LinComRHS([a, b], [2.0, 3.0], V)] with respect to
    its first dependency, with symmetric boundary conditions on, in a
    state whose [fsp_lu] holds under [str(V)] the solver of another space
    of the same dimension and element. *)
Lemma lincom_derivative_action_symmetric_bcs_witness :
  symmetric_bcs (parameters_adjoint state_symmetric_cached) = true
  /\ String.ltb "1.2.0" backend_version = true
  /\ [a_var; b_var] !! 0 = Some a_var
  /\ (forall j, j < 0 -> [a_var; b_var] !! j <> Some a_var)
  /\ weights lincom_rhs !! 0 = Some 2%float
  /\ function_space (data (mkVector v)) = Some V
  /\ fsp_lu state_symmetric_cached !! FunctionSpace_str V = Some V_twin
  /\ exists riesz h1 s',
       backend_Function V (heap state_symmetric_cached) = (Ok riesz, h1)
       /\ LinComRHS_derivative_action lincom_rhs [a_var; b_var] [] a_var
            (mkVector v) false state_symmetric_cached
          = (Ok (mkVector (inr (inner_test_dx riesz))), s')
       /\ match fsp_lu state_symmetric_cached !! FunctionSpace_str V with
          | None =>
              function_vector (heap s') riesz
              = mass_lu_solve V
                  (map (fun x => (2 * x)%float)
                     (function_vector h1 (data (mkVector v))))
              /\ fsp_lu s'
                 = <[FunctionSpace_str V := V]> (fsp_lu state_symmetric_cached)
          | Some V' =>
              function_vector (heap s') riesz
              = mass_lu_solve V'
                  (map (fun x => (2 * x)%float)
                     (function_vector h1 (data (mkVector v))))
              /\ fsp_lu s' = fsp_lu state_symmetric_cached
          end
       /\ adjointer s' = adjointer state_symmetric_cached
       /\ adj_variables s' = adj_variables state_symmetric_cached.
Proof.
  assert (Hver : String.ltb "1.2.0" backend_version = true)
    by (vm_compute; reflexivity).
  assert (Hfirst : forall j, j < 0 -> [a_var; b_var] !! j <> Some a_var)
    by (intros j Hj; lia).
  assert (Hhit : fsp_lu state_symmetric_cached !! FunctionSpace_str V
                 = Some V_twin)
    by (vm_compute; reflexivity).
  split_and!;
    [reflexivity|exact Hver|reflexivity|exact Hfirst|reflexivity|reflexivity
    |exact Hhit|].
  exact (lincom_derivative_action_symmetric_bcs lincom_rhs [a_var; b_var] []
           a_var (mkVector v) false state_symmetric_cached 0 2%float V
           eq_refl Hver eq_refl Hfirst eq_refl eq_refl).
Defined.

(** A solve whose [x] is a vector that no Function owns, with the
    identity operator. *)
Lemma annotated_solve_input_checks_witness :
  is_Some (transpmult identity_operator)
  /\ function (rhs_vector [inflow]) = None
  /\ AdjointPETScKrylovSolver_solve solver identity_operator
       (rhs_vector [inflow]) (rhs_vector [inflow]) true state0
     = (Raise (LibadjointErrorInvalidInputs
          "Your x has to come from code like down_cast(my_function.vector())."),
        state0).
Proof.
  assert (HA : is_Some (transpmult identity_operator))
    by (eexists; reflexivity).
  split_and!; [exact HA|reflexivity|].
  exact (proj1 (annotated_solve_input_checks solver identity_operator
                  (rhs_vector [inflow]) (rhs_vector [inflow]) state0 HA)
           eq_refl).
Defined.

(** The same two items in either order. *)
Lemma parameters_key_ignores_item_order_witness :
  [("b", PValue (PyInt 1)); ("a", PValue (PyInt 2))]
  ≡ₚ [("a", PValue (PyInt 2)); ("b", PValue (PyInt 1))]
  /\ NoDup ([("b", PValue (PyInt 1)); ("a", PValue (PyInt 2))].*1)
  /\ parameters_key [("b", PValue (PyInt 1)); ("a", PValue (PyInt 2))]
     = parameters_key [("a", PValue (PyInt 2)); ("b", PValue (PyInt 1))].
Proof.
  assert (Hperm : [("b", PValue (PyInt 1)); ("a", PValue (PyInt 2))]
                  ≡ₚ [("a", PValue (PyInt 2)); ("b", PValue (PyInt 1))])
    by apply perm_swap.
  assert (Hnd : NoDup ([("b", PValue (PyInt 1));
                        ("a", PValue (PyInt 2))].*1)).
  { apply (bool_decide_unpack _). vm_compute. exact I. }
  split_and!; [exact Hperm|exact Hnd|].
  exact (parameters_key_ignores_item_order _ _ Hperm Hnd).
Defined.

(** [clear_caches(a, b)] on caches that hold a matrix and a solver for a
    form of [a] and for a form of [b]. *)
Lemma clear_caches_clears_solvers_for_last_argument_only_witness :
  Forall (fun d => is_Constant_or_Function d = true) ([a] ++ [b])
  /\ exists c',
       clear_caches ([a] ++ [b]) caches0 = (Ok tt, c')
       /\ (forall key,
             cache (assembly_cache c') !! key
             = if decide (Exists (fun d => d ∈ extract_coefficients key.1.1)
                            ([a] ++ [b]))
               then None else cache (assembly_cache caches0) !! key)
       /\ (forall key,
             linear_solver_cache c' !! key
             = if solver_key_depends b key then None
               else linear_solver_cache caches0 !! key)
       /\ (forall key form d,
             solver_key_form key = FKForm form ->
             d ∈ [a] -> d ∈ extract_coefficients form ->
             b ∉ extract_coefficients form ->
             linear_solver_cache c' !! key
             = linear_solver_cache caches0 !! key).
Proof.
  assert (Hok : Forall (fun d => is_Constant_or_Function d = true)
                  ([a] ++ [b]))
    by (repeat constructor).
  split; [exact Hok|].
  exact (clear_caches_clears_solvers_for_last_argument_only caches0 [a] b
           Hok).
Defined.

(** Parameters that set [a] and part of the nested [n], over defaults for
    [a], [b] and [n]. *)
Lemma apply_default_parameters_keeps_explicit_values_witness :
  NoDup ([("a", PValue (PyInt 1));
          ("n", PNested [("x", PValue (PyInt 2))])].*1)
  /\ apply_default_parameters
       [("a", PValue (PyInt 1)); ("n", PNested [("x", PValue (PyInt 2))])]
       (PNested [("a", PValue (PyInt 5)); ("b", PValue (PyInt 6));
                 ("n", PNested [("x", PValue (PyInt 7));
                                ("y", PValue (PyInt 8))])])
     = Ok [("a", PValue (PyInt 1));
           ("n", PNested [("x", PValue (PyInt 2)); ("y", PValue (PyInt 8))]);
           ("b", PValue (PyInt 6))]
  /\ forall key,
       match dict_lookup key
               [("a", PValue (PyInt 1));
                ("n", PNested [("x", PValue (PyInt 2))])] with
       | Some (PValue v) =>
           dict_lookup key
             [("a", PValue (PyInt 1));
              ("n", PNested [("x", PValue (PyInt 2));
                             ("y", PValue (PyInt 8))]);
              ("b", PValue (PyInt 6))]
           = Some (PValue v)
       | Some (PNested sub) =>
           exists sub',
             apply_default_parameters sub
               (from_option id (PNested [])
                  (dict_lookup key
                     [("a", PValue (PyInt 5)); ("b", PValue (PyInt 6));
                      ("n", PNested [("x", PValue (PyInt 7));
                                     ("y", PValue (PyInt 8))])]))
             = Ok sub'
             /\ dict_lookup key
                  [("a", PValue (PyInt 1));
                   ("n", PNested [("x", PValue (PyInt 2));
                                  ("y", PValue (PyInt 8))]);
                   ("b", PValue (PyInt 6))]
                = Some (PNested sub')
       | None =>
           dict_lookup key
             [("a", PValue (PyInt 1));
              ("n", PNested [("x", PValue (PyInt 2));
                             ("y", PValue (PyInt 8))]);
              ("b", PValue (PyInt 6))]
           = dict_lookup key
               [("a", PValue (PyInt 5)); ("b", PValue (PyInt 6));
                ("n", PNested [("x", PValue (PyInt 7));
                               ("y", PValue (PyInt 8))])]
       end.
Proof.
  assert (Hnd : NoDup ([("a", PValue (PyInt 1));
                        ("n", PNested [("x", PValue (PyInt 2))])].*1)).
  { apply (bool_decide_unpack _). vm_compute. exact I. }
  split_and!; [exact Hnd|vm_compute; reflexivity|].
  apply (proj1 (apply_default_parameters_keeps_explicit_values
                  [("a", PValue (PyInt 1));
                   ("n", PNested [("x", PValue (PyInt 2))])]
                  [("a", PValue (PyInt 5)); ("b", PValue (PyInt 6));
                   ("n", PNested [("x", PValue (PyInt 7));
                                  ("y", PValue (PyInt 8))])]
                  Hnd)).
  vm_compute. reflexivity.
Defined.

(** The parameters [{"linear_solver": "mumps"}] over defaults for the LU
    solver. *)
Lemma expand_linear_solver_parameters_keeps_one_solver_witness :
  NoDup ([("linear_solver", PValue (PyStr "mumps"))].*1)
  /\ expand_linear_solver_parameters
       [("linear_solver", PValue (PyStr "mumps"))]
       [("lu_solver", PNested [("symmetric", PValue (PyBool true))])]
     = Ok [("linear_solver", PValue (PyStr "mumps"));
           ("lu_solver",
            PNested [("symmetric", PValue (PyBool true));
                     ("reuse_factorization", PValue (PyBool false))])]
  /\ exists linear_solver,
       dict_lookup "linear_solver"
         [("linear_solver", PValue (PyStr "mumps"));
          ("lu_solver",
           PNested [("symmetric", PValue (PyBool true));
                    ("reuse_factorization", PValue (PyBool false))])]
       = Some linear_solver
       /\ (forall v,
             dict_lookup "linear_solver"
               [("linear_solver", PValue (PyStr "mumps"))]
             = Some (PValue v) ->
             linear_solver = PValue v)
       /\ if is_lu_linear_solver linear_solver
          then is_Some
                 (dict_lookup "lu_solver"
                    [("linear_solver", PValue (PyStr "mumps"));
                     ("lu_solver",
                      PNested [("symmetric", PValue (PyBool true));
                               ("reuse_factorization",
                                PValue (PyBool false))])])
               /\ dict_lookup "preconditioner"
                    [("linear_solver", PValue (PyStr "mumps"));
                     ("lu_solver",
                      PNested [("symmetric", PValue (PyBool true));
                               ("reuse_factorization",
                                PValue (PyBool false))])]
                  = None
               /\ dict_lookup "krylov_solver"
                    [("linear_solver", PValue (PyStr "mumps"));
                     ("lu_solver",
                      PNested [("symmetric", PValue (PyBool true));
                               ("reuse_factorization",
                                PValue (PyBool false))])]
                  = None
          else dict_lookup "lu_solver"
                 [("linear_solver", PValue (PyStr "mumps"));
                  ("lu_solver",
                   PNested [("symmetric", PValue (PyBool true));
                            ("reuse_factorization",
                             PValue (PyBool false))])]
               = None
               /\ is_Some
                    (dict_lookup "preconditioner"
                       [("linear_solver", PValue (PyStr "mumps"));
                        ("lu_solver",
                         PNested [("symmetric", PValue (PyBool true));
                                  ("reuse_factorization",
                                   PValue (PyBool false))])])
               /\ is_Some
                    (dict_lookup "krylov_solver"
                       [("linear_solver", PValue (PyStr "mumps"));
                        ("lu_solver",
                         PNested [("symmetric", PValue (PyBool true));
                                  ("reuse_factorization",
                                   PValue (PyBool false))])]).
Proof.
  assert (Hnd : NoDup ([("linear_solver", PValue (PyStr "mumps"))].*1)).
  { apply (bool_decide_unpack _). vm_compute. exact I. }
  split_and!; [exact Hnd|vm_compute; reflexivity|].
  apply (proj1 (expand_linear_solver_parameters_keeps_one_solver
                  [("linear_solver", PValue (PyStr "mumps"))]
                  [("lu_solver", PNested [("symmetric", PValue (PyBool true))])]
                  Hnd)).
  vm_compute. reflexivity.
Defined.

End more_examples.
